(** * DMClone volume driver: migration state machine

    A shallow embedding of [cinder/volume/drivers/dmclone/driver.py]
    (class [DMCloneVolumeDriver]) and the properties of its attach path,
    detach path, creation hook and migration monitor.

    The driver is effectful Python: it mutates volume objects, persists
    them, talks to device-mapper, LVM, iSCSI connectors and the RPC layer,
    and raises exceptions.  It is embedded as a state-and-exception monad
    over a [World] (persisted records, clock, log of the calls made); the
    behaviour of every collaborator is an oracle of the environment [Env]. *)

From Stdlib Require Import ZArith String Ascii List Lia Bool DecimalString.
From stdpp Require Import base option gmap strings list.

Local Open Scope string_scope.
Local Open Scope Z_scope.
Local Open Scope list_scope.

(** ** Python strings *)

Module Py.

(** [s.split(sep)] for a one-character separator. *)
Fixpoint split_go (sep : ascii) (cur : string) (s : string) : list string :=
  match s with
  | EmptyString => [String.rev cur]
  | String a s' =>
      if Ascii.eqb a sep
      then String.rev cur :: split_go sep EmptyString s'
      else split_go sep (String a cur) s'
  end.

Definition split (sep : ascii) (s : string) : list string :=
  split_go sep EmptyString s.

(** [s.split()]: split on runs of white space. *)
Definition words (s : string) : list string := String.words s.

(** [s.startswith(p)] *)
Definition startswith (s p : string) : bool := String.prefix p s.

(** [sep.join(l)] *)
Definition join (sep : string) (l : list string) : string :=
  String.concat sep l.

(** [str(n)] for an integer. *)
Definition str (n : Z) : string := NilZero.string_of_int (Z.to_int n).

End Py.

(** ** Exceptions and outcomes *)

Inductive exn :=
| VolumeNotFound
| VolumeMigrationFailed (reason : string)
| ValidationError
| InvalidConnectorException
| IndexError
| KeyError
| AttributeError
| UnboundLocalError (var : string)
| DBDuplicateEntry
| ExternalError (what : string).

Global Instance exn_eq_dec : EqDecision exn.
Proof. solve_decision. Defined.

(** The outcome of running a piece of the driver: a value, a raised
    exception, or [Nonterm] when a loop was cut by its fuel. *)
Inductive res (A : Type) :=
| Ok (a : A)
| Raise (e : exn)
| Nonterm.
Arguments Ok {A} a.
Arguments Raise {A} e.
Arguments Nonterm {A}.

(** ** Volume records *)

Module Volume.

Record t := mk {
  id : string;
  name_id : string;
  host : option string;
  cluster_name : option string;
  availability_zone : option string;
  provider_id : option string;
  provider_location : option string;
  provider_auth : option string;
  provider_geometry : option string;
  status : string;
  attach_status : string;
  migration_status : option string;
  use_quota : bool;
  size : Z;
  user_id : string;
  project_id : string;
  display_description : option string
}.

Global Instance eq_dec : EqDecision t.
Proof. solve_decision. Defined.

Definition set_name_id (x : string) (v : t) : t :=
  mk (id v) x (host v) (cluster_name v) (availability_zone v)
     (provider_id v) (provider_location v) (provider_auth v)
     (provider_geometry v) (status v) (attach_status v)
     (migration_status v) (use_quota v) (size v) (user_id v)
     (project_id v) (display_description v).

Definition set_status (x : string) (v : t) : t :=
  mk (id v) (name_id v) (host v) (cluster_name v) (availability_zone v)
     (provider_id v) (provider_location v) (provider_auth v)
     (provider_geometry v) x (attach_status v)
     (migration_status v) (use_quota v) (size v) (user_id v)
     (project_id v) (display_description v).

Definition set_migration_status (x : option string) (v : t) : t :=
  mk (id v) (name_id v) (host v) (cluster_name v) (availability_zone v)
     (provider_id v) (provider_location v) (provider_auth v)
     (provider_geometry v) (status v) (attach_status v)
     x (use_quota v) (size v) (user_id v)
     (project_id v) (display_description v).

Definition set_display_description (x : option string) (v : t) : t :=
  mk (id v) (name_id v) (host v) (cluster_name v) (availability_zone v)
     (provider_id v) (provider_location v) (provider_auth v)
     (provider_geometry v) (status v) (attach_status v)
     (migration_status v) (use_quota v) (size v) (user_id v)
     (project_id v) x.

(** [volume[field]] for the fields [_switch_volumes] goes through. *)
Definition getitem (v : t) (field : string) : res (option string) :=
  if String.eqb field "host" then Ok (host v)
  else if String.eqb field "cluster_name" then Ok (cluster_name v)
  else if String.eqb field "availability_zone" then Ok (availability_zone v)
  else if String.eqb field "provider_id" then Ok (provider_id v)
  else if String.eqb field "provider_location" then Ok (provider_location v)
  else if String.eqb field "provider_auth" then Ok (provider_auth v)
  else if String.eqb field "provider_geometry" then Ok (provider_geometry v)
  else Raise KeyError.

(** [volume[field] = x] for the same fields. *)
Definition setitem (v : t) (field : string) (x : option string) : res t :=
  if String.eqb field "host" then
    Ok (mk (id v) (name_id v) x (cluster_name v) (availability_zone v)
          (provider_id v) (provider_location v) (provider_auth v)
          (provider_geometry v) (status v) (attach_status v)
          (migration_status v) (use_quota v) (size v) (user_id v)
          (project_id v) (display_description v))
  else if String.eqb field "cluster_name" then
    Ok (mk (id v) (name_id v) (host v) x (availability_zone v)
          (provider_id v) (provider_location v) (provider_auth v)
          (provider_geometry v) (status v) (attach_status v)
          (migration_status v) (use_quota v) (size v) (user_id v)
          (project_id v) (display_description v))
  else if String.eqb field "availability_zone" then
    Ok (mk (id v) (name_id v) (host v) (cluster_name v) x
          (provider_id v) (provider_location v) (provider_auth v)
          (provider_geometry v) (status v) (attach_status v)
          (migration_status v) (use_quota v) (size v) (user_id v)
          (project_id v) (display_description v))
  else if String.eqb field "provider_id" then
    Ok (mk (id v) (name_id v) (host v) (cluster_name v) (availability_zone v)
          x (provider_location v) (provider_auth v)
          (provider_geometry v) (status v) (attach_status v)
          (migration_status v) (use_quota v) (size v) (user_id v)
          (project_id v) (display_description v))
  else if String.eqb field "provider_location" then
    Ok (mk (id v) (name_id v) (host v) (cluster_name v) (availability_zone v)
          (provider_id v) x (provider_auth v)
          (provider_geometry v) (status v) (attach_status v)
          (migration_status v) (use_quota v) (size v) (user_id v)
          (project_id v) (display_description v))
  else if String.eqb field "provider_auth" then
    Ok (mk (id v) (name_id v) (host v) (cluster_name v) (availability_zone v)
          (provider_id v) (provider_location v) x
          (provider_geometry v) (status v) (attach_status v)
          (migration_status v) (use_quota v) (size v) (user_id v)
          (project_id v) (display_description v))
  else if String.eqb field "provider_geometry" then
    Ok (mk (id v) (name_id v) (host v) (cluster_name v) (availability_zone v)
          (provider_id v) (provider_location v) (provider_auth v)
          x (status v) (attach_status v)
          (migration_status v) (use_quota v) (size v) (user_id v)
          (project_id v) (display_description v))
  else Raise KeyError.

End Volume.

(** The service record [objects.Service.get_by_args] returns. *)
Record Service := {
  service_host : option string;
  service_availability_zone : option string;
  service_cluster_name : option string
}.

(** The connector dictionary handed to the attach and detach calls. *)
Record Connector := { connector_host : string }.

(** ** Calls to collaborators *)

Inductive event :=
(* dmsetup *)
| DmCreate (name table : string)
| DmLoad (name table : string)
| DmSuspend (name : string)
| DmResume (name : string)
| DmMessage (name sector text : string)
| DmStatus (name : string)
| DmRemove (name : string)
(* the metadata volume group *)
| VgCreateVolume (name sz : string)
| VgDelete (name : string)
(* connectors *)
| GetConnector (v : Volume.t)
| ConnectVolume (v : Volume.t)
| DisconnectVolume (v : Volume.t)
(* remote procedure calls *)
| RpcCreateVolume (v : Volume.t)
| RpcDeleteVolume (v : Volume.t)
| RpcRemoveExport (v : Volume.t)
| RpcTerminateConnection (v : Volume.t)
(* the base LVM driver and the target driver *)
| BaseCreateVolume (v : Volume.t)
| BaseDeleteVolume (v : Volume.t)
| TargetInitializeConnection (v : Volume.t)
(* persistence *)
| ServiceGetByArgs (host : string)
| DbCreate (v : Volume.t)
| DbSave (v : Volume.t)
| DbRefresh (volume_id : string)
| DbDestroy (volume_id : string)
| DbGetById (volume_id : string)
| DbGetAllByHost (host : string)
| DbGetAll (migration_status : string)
(* the clock *)
| Time (t : Z)
| Sleep (seconds : Z).

Global Instance event_eq_dec : EqDecision event.
Proof. solve_decision. Defined.

(** ** The world *)

(** One change of a persisted record's [migration_status]: the record's
    id, the value stored before the write and the value written. *)
Record ms_write := {
  mw_id : string;
  mw_old : option string;
  mw_new : option string
}.

Record World := {
  db : gmap string Volume.t;           (* persisted volume records *)
  now : Z;                             (* the clock, in seconds *)
  trace : list event;                  (* calls made, oldest first *)
  snapshots : list (gmap string Volume.t); (* [db] after each write *)
  ms_log : list ms_write               (* writes of [migration_status] *)
}.

Definition log (e : event) (dt : Z) (w : World) : World :=
  {| db := db w; now := now w + dt; trace := trace w ++ [e];
     snapshots := snapshots w; ms_log := ms_log w |}.

Definition write_db (d : gmap string Volume.t) (w : World) : World :=
  {| db := d; now := now w; trace := trace w;
     snapshots := snapshots w ++ [d]; ms_log := ms_log w |}.

Definition log_ms (m : ms_write) (w : World) : World :=
  {| db := db w; now := now w; trace := trace w;
     snapshots := snapshots w; ms_log := ms_log w ++ [m] |}.

(** ** The environment: what the collaborators do *)

Record Env := {
  conf_host : string;                          (* [CONF.host] *)
  volume_backend_name : option string;         (* [capabilities] entry *)
  volume_name_template : string -> string;     (* [volume.name] from [name_id] *)
  local_path : Volume.t -> string;             (* base driver's [local_path] *)
  extract_host : option string -> string -> string;
  host_owns : string -> option string -> bool; (* filter of [get_all_by_host] *)
  fails : World -> event -> option exn;        (* does this call raise? *)
  latency : World -> event -> nat;             (* seconds the call takes *)
  dm_status_line : World -> string -> string;  (* [dmsetup status <name>] *)
  connect_path : World -> Volume.t -> string;  (* [connect_volume(..)['path']] *)
  service_of : World -> string -> Service;
  fresh_id : gmap string Volume.t -> string;   (* id given to a new record *)
  remote_status : World -> Volume.t -> string  (* status seen by [refresh] *)
}.

(** ** The monad of driver code *)

Definition M (S A : Type) : Type := S -> res A * S.

Global Instance res_ret : MRet res := fun A a => Ok a.
Global Instance res_bind : MBind res := fun A B k r =>
  match r with
  | Ok a => k a
  | Raise e => Raise e
  | Nonterm => Nonterm
  end.

Global Instance M_ret {S} : MRet (M S) := fun A a s => (Ok a, s).
Global Instance M_bind {S} : MBind (M S) := fun A B k m s =>
  match m s with
  | (Ok a, s') => k a s'
  | (Raise e, s') => (Raise e, s')
  | (Nonterm, s') => (Nonterm, s')
  end.

Definition raise {S A} (e : exn) : M S A := fun s => (Raise e, s).

Definition lift_res {S A} (r : res A) : M S A := fun s => (r, s).

(** A step written directly on the state. *)
Definition act {S A} (f : S -> res A * S) : M S A := f.

(** [try: m  except Exception: h] *)
Definition try_except {S A} (m : M S A) (h : exn -> M S A) : M S A :=
  fun s =>
    match m s with
    | (Raise e, s') => h e s'
    | out => out
    end.

(** [try: m  except e0: h] *)
Definition try_except_only {S A} (e0 : exn) (m : M S A) (h : M S A) : M S A :=
  try_except m (fun e => if decide (e = e0) then h else raise e).

(** [with excutils.save_and_reraise_exception(): body], entered while
    handling [e]: when [body] completes, [e] is raised again; when [body]
    raises, that exception propagates and [e] is dropped. *)
Definition save_and_reraise_exception {S A} (e : exn) (body : M S unit) : M S A :=
  fun s =>
    match body s with
    | (Ok _, s') => (Raise e, s')
    | (Raise e', s') => (Raise e', s')
    | (Nonterm, s') => (Nonterm, s')
    end.

(** [l[i]] *)
Definition index {A} (l : list A) (i : nat) : res A :=
  match l !! i with
  | Some x => Ok x
  | None => Raise IndexError
  end.

(** [for x in l: f x] *)
Fixpoint for_each {S A} (f : A -> M S unit) (l : list A) : M S unit :=
  match l with
  | [] => mret tt
  | x :: l' => f x ;; for_each f l'
  end.

(** A fold whose step may raise. *)
Fixpoint fold_res {A B} (f : A -> B -> res A) (a : A) (l : list B) : res A :=
  match l with
  | [] => Ok a
  | x :: l' => a' ← f a x; fold_res f a' l'
  end.

Section Driver.

Variable env : Env.

(** *** Collaborators *)

(** A call to a collaborator: it is logged, takes its latency, and
    raises when the environment says so. *)
Definition call (e : event) : M World unit := fun w =>
  let w' := log e (Z.of_nat (latency env w e)) w in
  match fails env w e with
  | Some x => (Raise x, w')
  | None => (Ok tt, w')
  end.

(** [time.time()] *)
Definition time_time : M World Z := fun w =>
  (Ok (now w), log (Time (now w)) 0 w).

(** [time.sleep(n)] *)
Definition time_sleep (n : Z) : M World unit := fun w =>
  (Ok tt, log (Sleep n) (n + Z.of_nat (latency env w (Sleep n))) w).

(** [self.dmsetup.status(name)]. Modelled from the spec: the class
    [DMSetup] (dmsetup.py) is not part of the sources; its [status]
    hands back the status line of the target, split at white space, as
    the indices used by the monitor and the example line in its comment
    require. *)
Definition dmsetup_status (name : string) : M World (list string) := fun w =>
  (call (DmStatus name) ;; mret (Py.words (dm_status_line env w name))) w.

(** *** Persistence *)

(** Modelled from the spec: the persistence of volume objects
    (cinder.objects) is not part of the sources.  A record is stored
    under its [id]; [create] gives the record a new id (its [name_id]
    is then that id), [save] and [get_by_id] raise [VolumeNotFound]
    when the record does not exist, [destroy] removes it, and
    [refresh] reloads the status the remote side has written. *)
Definition created (i : string) (v : Volume.t) : Volume.t :=
  Volume.mk i i (Volume.host v) (Volume.cluster_name v)
    (Volume.availability_zone v) None None None None
    (Volume.status v) (Volume.attach_status v)
    (Volume.migration_status v) (Volume.use_quota v)
    (Volume.size v) (Volume.user_id v) (Volume.project_id v)
    None.

Definition volume_create (v : Volume.t) : M World Volume.t := fun w =>
  let i := fresh_id env (db w) in
  let v' := created i v in
  (call (DbCreate v') ;;
   act (fun w1 : World =>
      match db w1 !! i with
      | Some _ => (Raise DBDuplicateEntry, w1)
      | None => (Ok v', write_db (<[i := v']> (db w1)) w1)
      end)) w.

Definition volume_save (v : Volume.t) : M World unit :=
  call (DbSave v) ;;
  act (fun w : World =>
     match db w !! Volume.id v with
     | None => (Raise VolumeNotFound, w)
     | Some old =>
         (Ok tt,
          log_ms {| mw_id := Volume.id v;
                    mw_old := Volume.migration_status old;
                    mw_new := Volume.migration_status v |}
            (write_db (<[Volume.id v := v]> (db w)) w))
     end).

Definition volume_destroy (v : Volume.t) : M World unit :=
  call (DbDestroy (Volume.id v)) ;;
  act (fun w : World => (Ok tt, write_db (delete (Volume.id v) (db w)) w)).

Definition volume_refresh (v : Volume.t) : M World Volume.t :=
  call (DbRefresh (Volume.id v)) ;;
  act (fun w : World => (Ok (Volume.set_status (remote_status env w v) v), w)).

Definition get_by_id (i : string) : M World Volume.t :=
  call (DbGetById i) ;;
  act (fun w : World =>
     match db w !! i with
     | Some v => (Ok v, w)
     | None => (Raise VolumeNotFound, w)
     end).

Definition get_all_by_host (h : string) : M World (list Volume.t) :=
  call (DbGetAllByHost h) ;;
  act (fun w : World =>
     (Ok (filter (fun v => host_owns env h (Volume.host v) = true)
            (map_to_list (db w)).*2), w)).

(** [VolumeList.get_all(ctxt, limit=1, filters={'migration_status': ms})] *)
Definition get_all_limit1 (ms : string) : M World (list Volume.t) :=
  call (DbGetAll ms) ;;
  act (fun w : World =>
     (Ok (take 1 (filter (fun v => Volume.migration_status v = Some ms)
                    (map_to_list (db w)).*2)), w)).

(** *** Names *)

(** [volume.name] *)
Definition name (volume : Volume.t) : string :=
  volume_name_template env (Volume.name_id volume).

Definition _metadata_dev_name (volume : Volume.t) : string :=
  name volume +:+ "-metadata".

Definition _dm_target_name (volume : Volume.t) : string :=
  name volume +:+ "-handle".

(** The table of a linear target straight onto the local volume. *)
Definition linear_table (volume : Volume.t) : string :=
  Py.join " " ["0"; Py.str (Volume.size volume * 2097152); "linear";
               local_path env volume; "0"].

(** [_get_connector]: the connector and its data are determined by the
    volume, so the volume stands for the pair. *)
Definition _get_connector (volume : Volume.t) : M World Volume.t :=
  call (GetConnector volume) ;; mret volume.

(** *** _switch_volumes *)

Definition switch_fields : list string :=
  ["host"; "cluster_name"; "availability_zone"; "provider_id";
   "provider_location"; "provider_auth"; "provider_geometry"].

(** One round of the loop: exchange [field] between the two objects. *)
Definition switch_field (p : Volume.t * Volume.t) (field : string)
  : res (Volume.t * Volume.t) :=
  tmp ← Volume.getitem p.1 field;
  x ← Volume.getitem p.2 field;
  volume ← Volume.setitem p.1 field x;
  other_volume ← Volume.setitem p.2 field tmp;
  mret (volume, other_volume).

(** The two objects as [_switch_volumes] leaves them, before saving. *)
Definition switch_identity (volume other_volume : Volume.t)
  : res (Volume.t * Volume.t) :=
  let tmp := Volume.name_id volume in
  let volume := Volume.set_name_id (Volume.name_id other_volume) volume in
  let other_volume := Volume.set_name_id tmp other_volume in
  fold_res switch_field (volume, other_volume) switch_fields.

(** [other_volume] is [None] when [_find_src_volume] found nothing; its
    attribute access then raises before anything is changed. *)
Definition _switch_volumes (volume : Volume.t) (other_volume : option Volume.t)
  : M World (Volume.t * Volume.t) :=
  match other_volume with
  | None => raise AttributeError
  | Some other_volume =>
      p ← lift_res (switch_identity volume other_volume);
      volume_save p.1 ;;
      volume_save p.2 ;;
      mret p
  end.

(** *** _find_src_volume *)

Definition _find_src_volume (volume : Volume.t) : M World (option Volume.t) :=
  ms ← match Volume.migration_status volume with
       | Some s => mret s
       | None => raise AttributeError
       end;
  src_volume_id ← lift_res (index (Py.split ":" ms) 1);
  try_except_only VolumeNotFound
    (src_volume ← get_by_id src_volume_id; mret (Some src_volume))
    (mret None).

(** *** _disconnect_volume *)

Definition _disconnect_volume (volume : Volume.t) : M World unit :=
  try_except
    (connector ← _get_connector volume;
     call (DisconnectVolume connector))
    (fun _ => mret tt) ;;
  call (RpcRemoveExport volume).

(** *** _migration_monitor *)

(** [v['migration_status'] and v['migration_status'].startswith('target:')] *)
Definition is_target (ms : option string) : bool :=
  match ms with
  | Some s => Py.startswith s "target:"
  | None => false
  end.

(** The test of line 208 on the status tokens:
    [hydrated = dm_status[6].split('/')], then
    [hydrated[0] == hydrated[1] and dm_status[7] == '0']. *)
Definition hydration_completed (dm_status : list string) : res bool :=
  field6 ← index dm_status 6;
  let hydrated := Py.split "/" field6 in
  h0 ← index hydrated 0;
  h1 ← index hydrated 1;
  if String.eqb h0 h1
  then field7 ← index dm_status 7; mret (String.eqb field7 "0")
  else mret false.

(** Lines 213-257: finishing the migration of a hydrated volume. *)
Definition finalize (volume : Volume.t) : M World unit :=
  src_volume ← _find_src_volume volume;
  let volume := Volume.set_migration_status (Some "completing") volume in
  volume_save volume ;;
  call (DmSuspend (_dm_target_name volume)) ;;
  call (DmLoad (_dm_target_name volume) (linear_table volume)) ;;
  call (DmResume (_dm_target_name volume)) ;;
  call (VgDelete (_metadata_dev_name volume)) ;;
  match src_volume with
  | Some src_volume =>
      _disconnect_volume src_volume ;;
      call (RpcDeleteVolume src_volume)
  | None => mret tt
  end ;;
  let volume := Volume.set_migration_status (Some "success") volume in
  volume_save volume.

(** The body of the loop of lines 183-257. *)
Definition monitor_volume (volume : Volume.t) : M World unit :=
  dm_status ← dmsetup_status (_dm_target_name volume);
  target_type ← lift_res (index dm_status 2);
  if negb (String.eqb target_type "clone")
  then mret tt
  else
    completed ← lift_res (hydration_completed dm_status);
    if completed : bool then finalize volume else mret tt.

Definition monitor_loop (migrating_volumes : list Volume.t) : M World unit :=
  for_each monitor_volume migrating_volumes.

Definition _migration_monitor : M World unit :=
  match volume_backend_name env with
  | None => mret tt
  | Some backend =>
      let host := conf_host env +:+ "@" +:+ backend in
      volumes ← get_all_by_host host;
      let migrating_volumes :=
        filter (fun v => is_target (Volume.migration_status v) = true)
          volumes in
      monitor_loop migrating_volumes
  end.

(** *** create_volume *)

(** The local variables of [create_volume] that its exception handler
    reads; [None] while a name is not bound yet.  [connector] and
    [connector_data] are bound by one assignment. *)
Record Frame := {
  src_volume : option Volume.t;
  connector : option Volume.t;
  src_volume_handle : option string
}.

Definition no_locals : Frame :=
  {| src_volume := None; connector := None; src_volume_handle := None |}.

(** Running world code inside a function with local variables. *)
Definition in_world {A} (m : M World A) : M (Frame * World) A := fun s =>
  let '(r, w) := m s.2 in (r, (s.1, w)).

(** An assignment to a local variable. *)
Definition assign (upd : Frame -> Frame) : M (Frame * World) unit := fun s =>
  (Ok tt, (upd s.1, s.2)).

(** Reading a local variable. *)
Definition local {A} (var : string) (get : Frame -> option A)
  : M (Frame * World) A := fun s =>
  match get s.1 with
  | Some a => (Ok a, s)
  | None => (Raise (UnboundLocalError var), s)
  end.

Definition connect_volume (v : Volume.t) : M World string := fun w =>
  (call (ConnectVolume v) ;; mret (connect_path env w v)) w.

(** [volume['migration_status'] in l] *)
Definition ms_in (ms : option string) (l : list string) : bool :=
  match ms with
  | Some s => existsb (String.eqb s) l
  | None => false
  end.

Definition ms_is (ms : option string) (s : string) : bool :=
  match ms with
  | Some s' => String.eqb s' s
  | None => false
  end.

(** The table of the clone target of lines 317-330. *)
Definition clone_table (volume : Volume.t) (src_path : string) : string :=
  Py.join " " ["0"; Py.str (Volume.size volume * 2097152); "clone";
               "/dev/vg0/" +:+ _metadata_dev_name volume;
               local_path env volume; src_path; "8"; "1"; "no_hydration"].

(** The [try] block, lines 274-337.  Indexing the list of sources
    raises when it is empty, so the test [if not src_volume] that
    follows never fires. *)
Definition create_volume_try (volume : Volume.t) : M (Frame * World) unit :=
  (if ms_in (Volume.migration_status volume) ["starting"; "migrating"]
   then
     found ← in_world (get_all_limit1 ("target:" +:+ Volume.id volume));
     src ← lift_res (index found 0);
     assign (fun f => {| src_volume := Some src; connector := connector f;
                         src_volume_handle := src_volume_handle f |}) ;;
     c ← in_world (_get_connector src);
     assign (fun f => {| src_volume := src_volume f; connector := Some c;
                         src_volume_handle := src_volume_handle f |}) ;;
     path ← in_world (connect_volume c);
     assign (fun f => {| src_volume := src_volume f; connector := connector f;
                         src_volume_handle := Some path |}) ;;
     in_world (call (VgCreateVolume (_metadata_dev_name volume) "1g")) ;;
     in_world (call (DmCreate (_dm_target_name volume)
                       (clone_table volume path)))
   else mret tt) ;;
  if ms_is (Volume.migration_status volume) "migrating"
  then in_world (call (DmMessage (_dm_target_name volume) "0"
                         "enable_hydration"))
  else mret tt.

(** The body of the handler, lines 340-359. *)
Definition create_volume_cleanup (volume : Volume.t) : M (Frame * World) unit :=
  let volume := Volume.set_status "error" volume in
  let volume := Volume.set_migration_status (Some "error") volume in
  in_world (volume_save volume) ;;
  in_world (call (DmRemove (_dm_target_name volume))) ;;
  c ← local "connector" connector;
  _ ← local "src_volume_handle" src_volume_handle;
  in_world (call (DisconnectVolume c)) ;;
  in_world (call (VgDelete (_metadata_dev_name volume))) ;;
  in_world (call (BaseDeleteVolume volume)).

Definition create_volume (volume : Volume.t) : M World unit := fun w =>
  match call (BaseCreateVolume volume) w with
  | (Ok _, w1) =>
      let '(r, s) :=
        try_except (create_volume_try volume)
          (fun e => save_and_reraise_exception e
                      (create_volume_cleanup volume))
          (no_locals, w1) in
      (r, s.2)
  | out => out
  end.

(** *** initialize_connection *)

(** Lines 401-407. *)
Definition initial_migration_status (status : string) : option string :=
  if String.eqb status "reserved" then Some "migrating"
  else if String.eqb status "in-use" then Some "starting"
  else None.

(** The object built at lines 409-421, before [create] gives it an id. *)
Definition new_volume_object (dst_service : Service) (volume : Volume.t)
  : Volume.t :=
  Volume.mk "" "" (service_host dst_service)
    (service_cluster_name dst_service)
    (service_availability_zone dst_service) None None None None
    "creating" "detached"
    (initial_migration_status (Volume.status volume))
    false (Volume.size volume) (Volume.user_id volume)
    (Volume.project_id volume) None.

(** Lines 456-478: giving up on the destination. *)
Definition abandon_destination {A} (volume new_volume : Volume.t) : M World A :=
  try_except_only VolumeNotFound
    (call (RpcDeleteVolume new_volume)) (mret tt) ;;
  volume_destroy new_volume ;;
  let volume := Volume.set_migration_status (Some "error") volume in
  volume_save volume ;;
  if String.eqb (Volume.status new_volume) "error"
  then raise (VolumeMigrationFailed "Error creating remote volume")
  else raise (VolumeMigrationFailed
                "Timeout wating for remote volume creation").

(** The loop of lines 453-481; [fuel] bounds the number of rounds. *)
Fixpoint wait_loop (fuel : nat) (deadline : Z) (tries : nat)
    (volume new_volume : Volume.t) : M World Volume.t :=
  if String.eqb (Volume.status new_volume) "available"
  then mret new_volume
  else
    match fuel with
    | O => act (fun w => (Nonterm, w))
    | S fuel' =>
        let tries := S tries in
        t ← time_time;
        if (deadline <? t) || String.eqb (Volume.status new_volume) "error"
        then abandon_destination volume new_volume
        else
          time_sleep (Z.of_nat tries ^ 2) ;;
          new_volume ← volume_refresh new_volume;
          wait_loop fuel' deadline tries volume new_volume
    end.

(** [volume['host'].split('@')[1]] *)
Definition backend_of (host : option string) : res string :=
  match host with
  | Some h => index (Py.split "@" h) 1
  | None => Raise AttributeError
  end.

Definition device_path (volume : Volume.t) : string :=
  "/dev/mapper/" +:+ _dm_target_name volume.

(** Lines 449-481: waiting for the destination to become available. *)
Definition await_destination (fuel : nat) (volume new_volume : Volume.t)
  : M World Volume.t :=
  start ← time_time;
  let deadline := start + 60 in
  new_volume ← volume_refresh new_volume;
  wait_loop fuel deadline 0 volume new_volume.

(** Lines 486-499: taking over the destination. *)
Definition adopt_destination (volume new_volume : Volume.t)
  : M World Volume.t :=
  let new_volume := Volume.set_status "maintenance" new_volume in
  let new_volume :=
    Volume.set_display_description
      (Some ("migration src for " +:+ Volume.id volume)) new_volume in
  volume_save new_volume ;;
  p ← _switch_volumes volume (Some new_volume);
  mret p.1.

(** Lines 429-499: what follows the creation of the destination record. *)
Definition migrate_to (fuel : nat) (volume new_volume : Volume.t)
  : M World Volume.t :=
  let volume :=
    Volume.set_migration_status
      (Some ("target:" +:+ Volume.id new_volume)) volume in
  volume_save volume ;;
  call (RpcCreateVolume new_volume) ;;
  new_volume ← await_destination fuel volume new_volume;
  adopt_destination volume new_volume.

(** [objects.Service.get_by_args] *)
Definition service_get_by_args (key : string) : M World Service := fun w =>
  (call (ServiceGetByArgs key) ;; mret (service_of env w key)) w.

(** The branch for a connector on another host, lines 386-499. *)
Definition initialize_connection_remote (fuel : nat) (volume : Volume.t)
    (conn : Connector) : M World Volume.t :=
  call (TargetInitializeConnection volume) ;;
  backend ← lift_res (backend_of (Volume.host volume));
  let dst_host := connector_host conn +:+ "@" +:+ backend in
  dst_service ←
    service_get_by_args (extract_host env (Some dst_host) "backend");
  new_volume ← volume_create (new_volume_object dst_service volume);
  migrate_to fuel volume new_volume.

(** The result is the connection information's [device_path]. *)
Definition initialize_connection (fuel : nat) (volume : Volume.t)
    (conn : Connector) : M World string :=
  volume ←
    (if String.eqb (connector_host conn)
          (extract_host env (Volume.host volume) "host")
     then
       call (DmCreate (_dm_target_name volume) (linear_table volume)) ;;
       mret volume
     else initialize_connection_remote fuel volume conn);
  mret (device_path volume).

(** *** terminate_connection *)

(** Lines 521-539 and 553-571: undoing the attachment. *)
Definition roll_back (volume : Volume.t) : M World unit :=
  src ← _find_src_volume volume;
  p ← _switch_volumes volume src;
  let volume := p.1 in
  let src := p.2 in
  call (DmRemove (_dm_target_name src)) ;;
  call (VgDelete (_metadata_dev_name src)) ;;
  _disconnect_volume volume ;;
  call (RpcDeleteVolume src) ;;
  let volume := Volume.set_migration_status None volume in
  volume_save volume.

(** Lines 576-586: the live migration went through. [src_volume] is
    [None] when the paired record is gone; reading its attributes for
    the call then raises. *)
Definition start_hydration (volume : Volume.t) (conn : Connector)
  : M World unit :=
  src ← _find_src_volume volume;
  match src with
  | Some src =>
      call (RpcTerminateConnection src) ;;
      let src := Volume.set_migration_status (Some "migrating") src in
      volume_save src ;;
      call (DmMessage (_dm_target_name volume) "0" "enable_hydration")
  | None => raise AttributeError
  end.

Definition terminate_connection (volume : Volume.t) (conn : option Connector)
  : M World unit :=
  if is_target (Volume.migration_status volume) then
    if String.eqb (Volume.status volume) "reserved" then roll_back volume
    else if String.eqb (Volume.status volume) "in-use" then
      match conn with
      | None => raise InvalidConnectorException
      | Some conn =>
          if String.eqb (connector_host conn)
               (extract_host env (Volume.host volume) "host")
          then roll_back volume
          else start_hydration volume conn
      end
    else mret tt
  else if String.eqb (Volume.status volume) "detaching" then
    call (DmRemove (_dm_target_name volume))
  else if String.eqb (Volume.status volume) "maintenance"
          && ms_is (Volume.migration_status volume) "starting" then
    call (DmRemove (_dm_target_name volume))
  else mret tt.

End Driver.

Global Arguments call : simpl never.

(** * Properties *)

(** ** The identity swap *)

Section Switch.

Variable env : Env.

(** The objects a swap of [a] and [b] is expected to leave. *)
Definition swapped (a b : Volume.t) : Volume.t :=
  Volume.mk (Volume.id a) (Volume.name_id b) (Volume.host b)
    (Volume.cluster_name b) (Volume.availability_zone b)
    (Volume.provider_id b) (Volume.provider_location b)
    (Volume.provider_auth b) (Volume.provider_geometry b)
    (Volume.status a) (Volume.attach_status a)
    (Volume.migration_status a) (Volume.use_quota a) (Volume.size a)
    (Volume.user_id a) (Volume.project_id a)
    (Volume.display_description a).

Lemma switch_identity_eq a b :
  switch_identity a b = Ok (swapped a b, swapped b a).
Proof. destruct a, b. reflexivity. Qed.

Lemma swapped_swapped a b : swapped (swapped a b) (swapped b a) = a.
Proof. destruct a, b. reflexivity. Qed.


End Switch.

(** ** Running driver code *)

Lemma run_bind {S A B} (m : M S A) (k : A -> M S B) (s : S) :
  (m ≫= k) s =
  match m s with
  | (Ok a, s') => k a s'
  | (Raise e, s') => (Raise e, s')
  | (Nonterm, s') => (Nonterm, s')
  end.
Proof. reflexivity. Qed.

Lemma run_ret {S A} (a : A) (s : S) : (mret a : M S A) s = (Ok a, s).
Proof. reflexivity. Qed.

Lemma ms_in_false (ms : option string) :
  ms ≠ Some "starting" → ms ≠ Some "migrating" →
  ms_in ms ["starting"; "migrating"] = false ∧ ms_is ms "migrating" = false.
Proof.
  intros H1 H2. destruct ms as [s|]; [|done]. simpl.
  destruct (String.eqb_spec s "starting") as [->|_]; [done|].
  destruct (String.eqb_spec s "migrating") as [->|_]; [done|].
  done.
Qed.

(** ** Concrete inputs used to exercise the statements *)

Module Sample.

Definition vol (i : string) (st : string) (ms : option string) : Volume.t :=
  Volume.mk i i (Some "hostA@lvm") None (Some "nova") None None None None
    st "attached" ms true 1 "user" "project" None.

(** Environments where calls take no time: [line] is what
    [dmsetup status] prints, [failing] tells which calls raise, and
    [seen] is the status a refresh finds (the stored one when [None]). *)
Definition env_of (line : string) (failing : event → option exn)
    (seen : option string) : Env :=
  {| conf_host := "hostA";
     volume_backend_name := Some "lvm";
     volume_name_template := fun n => "volume-" +:+ n;
     local_path := fun v => "/dev/vg/volume-" +:+ Volume.name_id v;
     extract_host := fun h _ =>
       match h with
       | Some h => default "" (head (Py.split "@" h))
       | None => ""
       end;
     host_owns := fun h h' => bool_decide (h' = Some h);
     fails := fun _ e => failing e;
     latency := fun _ _ => 0%nat;
     dm_status_line := fun _ _ => line;
     connect_path := fun _ v => "/dev/disk/by-path/" +:+ Volume.id v;
     service_of := fun _ h =>
       {| service_host := Some h;
          service_availability_zone := Some "nova";
          service_cluster_name := None |};
     fresh_id := fun _ => "new";
     remote_status := fun _ v => default (Volume.status v) seen |}.

(** No collaborator fails. *)
Definition env : Env := env_of "" (fun _ => None) None.

Definition env_status (line : string) : Env :=
  env_of line (fun _ => None) None.

Definition world (vs : list Volume.t) : World :=
  {| db := list_to_map ((fun v => (Volume.id v, v)) <$> vs);
     now := 0; trace := []; snapshots := []; ms_log := [] |}.

End Sample.

(** ** The creation hook outside a migration *)

(** C10. For a volume whose [migration_status] is neither ['starting']
    nor ['migrating'], [create_volume] makes the base driver's
    [create_volume] call and nothing else: the world afterwards is the
    world before with that one call logged (no metadata device, no
    overlay, no connection, no message, no record written), and the
    outcome is the outcome of the base call. *)
Theorem create_volume_plain (env : Env) (w : World) (volume : Volume.t) :
  Volume.migration_status volume ≠ Some "starting" →
  Volume.migration_status volume ≠ Some "migrating" →
  create_volume env volume w =
    (match fails env w (BaseCreateVolume volume) with
     | Some e => Raise e
     | None => Ok tt
     end,
     log (BaseCreateVolume volume)
       (Z.of_nat (latency env w (BaseCreateVolume volume))) w).
Proof.
  intros H1 H2. destruct (ms_in_false _ H1 H2) as [Hin His].
  unfold create_volume, call.
  destruct (fails env w (BaseCreateVolume volume)); [done|].
  unfold create_volume_try, try_except. rewrite Hin, His. reflexivity.
Qed.

Lemma create_volume_plain_witness :
  let v := Sample.vol "a" "creating" None in
  let w := Sample.world [] in
  create_volume Sample.env v w = (Ok tt, log (BaseCreateVolume v) 0 w).
Proof.
  intros v w.
  apply (create_volume_plain Sample.env w v); discriminate.
Defined.

(** ** What a run appends to the log of calls *)

(** [emits P m]: whatever the world, [m] only appends calls to the log,
    and every call it appends satisfies [P]. *)
Definition emits {A} (P : event → Prop) (m : M World A) : Prop :=
  ∀ w, ∃ new, trace (m w).2 = trace w ++ new ∧ Forall P new.

Section Emits.

Variable env : Env.
Variable P : event → Prop.

Lemma emits_nothing {A} (m : M World A) :
  (∀ w, trace (m w).2 = trace w) → emits P m.
Proof. intros H w. exists []. rewrite H, app_nil_r. auto. Qed.

Lemma emits_ret {A} (a : A) : emits P (mret a).
Proof. by apply emits_nothing. Qed.

Lemma emits_raise {A} (e : exn) : emits P (raise e : M World A).
Proof. by apply emits_nothing. Qed.

Lemma emits_lift_res {A} (r : res A) : emits P (lift_res r).
Proof. by apply emits_nothing. Qed.

Lemma emits_bind {A B} (m : M World A) (k : A → M World B) :
  emits P m → (∀ a, emits P (k a)) → emits P (m ≫= k).
Proof.
  intros Hm Hk w. rewrite run_bind.
  destruct (Hm w) as (n1 & E1 & F1).
  destruct (m w) as [[a|e|] w1]; simpl in *; [|by eauto..].
  destruct (Hk a w1) as (n2 & E2 & F2).
  exists (n1 ++ n2). rewrite E2, E1, app_assoc. split; [done|].
  by apply Forall_app.
Qed.

Lemma emits_try_except {A} (m : M World A) (h : exn → M World A) :
  emits P m → (∀ e, emits P (h e)) → emits P (try_except m h).
Proof.
  intros Hm Hh w. unfold try_except.
  destruct (Hm w) as (n1 & E1 & F1).
  destruct (m w) as [[a|e|] w1]; simpl in *; [by eauto| |by eauto].
  destruct (Hh e w1) as (n2 & E2 & F2).
  exists (n1 ++ n2). rewrite E2, E1, app_assoc. split; [done|].
  by apply Forall_app.
Qed.

Lemma emits_try_except_only {A} e0 (m h : M World A) :
  emits P m → emits P h → emits P (try_except_only e0 m h).
Proof.
  intros Hm Hh. apply emits_try_except; [done|].
  intros e. case_decide; [done|apply emits_raise].
Qed.

Lemma emits_call (e : event) : P e → emits P (call env e).
Proof.
  intros He w. exists [e]. unfold call.
  destruct (fails env w e); simpl; auto.
Qed.

Lemma emits_time_time : (∀ t, P (Time t)) → emits P time_time.
Proof. intros H w. exists [Time (now w)]. simpl. auto. Qed.

Lemma emits_time_sleep n : P (Sleep n) → emits P (time_sleep env n).
Proof. intros H w. exists [Sleep n]. simpl. auto. Qed.

Lemma emits_volume_save v : P (DbSave v) → emits P (volume_save env v).
Proof.
  intros H. apply emits_bind; [by apply emits_call|].
  intros _. apply emits_nothing. intros w. unfold act.
  by destruct (db w !! Volume.id v).
Qed.

Lemma emits_volume_destroy v :
  P (DbDestroy (Volume.id v)) → emits P (volume_destroy env v).
Proof.
  intros H. apply emits_bind; [by apply emits_call|].
  intros _. by apply emits_nothing.
Qed.

Lemma emits_volume_refresh v :
  P (DbRefresh (Volume.id v)) → emits P (volume_refresh env v).
Proof.
  intros H. apply emits_bind; [by apply emits_call|].
  intros _. by apply emits_nothing.
Qed.

Lemma emits_volume_create v :
  (∀ v', Volume.migration_status v' = Volume.migration_status v →
         P (DbCreate v')) →
  emits P (volume_create env v).
Proof.
  intros H w. unfold volume_create.
  match goal with |- context [DbCreate ?x] => set (v' := x) end.
  exists [DbCreate v']. rewrite run_bind. unfold call, act.
  split; [|by repeat constructor; apply H].
  destruct (fails env w (DbCreate v')); simpl; [done|].
  by destruct (db w !! fresh_id env (db w)).
Qed.

Lemma emits_get_by_id i : P (DbGetById i) → emits P (get_by_id env i).
Proof.
  intros H. apply emits_bind; [by apply emits_call|].
  intros _. apply emits_nothing. intros w. unfold act.
  by destruct (db w !! i).
Qed.

End Emits.

(** Steps through a program, leaving the conditions on the calls made. *)
Ltac emits_step :=
  lazymatch goal with
  | |- emits _ (mret _) => apply emits_ret
  | |- emits _ (raise _) => apply emits_raise
  | |- emits _ (lift_res _) => apply emits_lift_res
  | |- emits _ (_ ≫= _) => apply emits_bind; [|intros ?]
  | |- emits _ (try_except_only _ _ _) => apply emits_try_except_only
  | |- emits _ (try_except _ _) => apply emits_try_except; [|intros ?]
  | |- emits _ (call _ _) => apply emits_call
  | |- emits _ time_time => apply emits_time_time; intros ?
  | |- emits _ (time_sleep _ _) => apply emits_time_sleep
  | |- emits _ (volume_save _ _) => apply emits_volume_save
  | |- emits _ (volume_destroy _ _) => apply emits_volume_destroy
  | |- emits _ (volume_refresh _ _) => apply emits_volume_refresh
  | |- emits _ (get_by_id _ _) => apply emits_get_by_id
  | |- emits _ (if ?b then _ else _) => destruct b
  | |- emits _ (match ?o with Some _ => _ | None => _ end) => destruct o
  | |- emits _ (let _ := _ in _) => cbv zeta
  end.

Section EmitsDriver.

Variable env : Env.
Variable P : event → Prop.

(** [P] only restricts the creation of records. *)
Hypothesis P_other : ∀ e, (∀ v, e ≠ DbCreate v) → P e.

Local Ltac other := apply P_other; intros ?; discriminate.

Lemma emits__find_src_volume v : emits P (_find_src_volume env v).
Proof. unfold _find_src_volume. repeat emits_step; other. Qed.

Lemma emits__switch_volumes v o : emits P (_switch_volumes env v o).
Proof. unfold _switch_volumes. repeat emits_step; other. Qed.

Lemma emits__disconnect_volume v : emits P (_disconnect_volume env v).
Proof.
  unfold _disconnect_volume, _get_connector. repeat emits_step; other.
Qed.

Lemma emits_abandon_destination {A} v nv : emits P (abandon_destination env v nv : M World A).
Proof. unfold abandon_destination. repeat emits_step; other. Qed.

Lemma emits_wait_loop fuel deadline tries v nv :
  emits P (wait_loop env fuel deadline tries v nv).
Proof.
  revert tries nv. induction fuel as [|fuel IH]; intros tries nv; simpl.
  - destruct (String.eqb _ _); [apply emits_ret|by apply emits_nothing].
  - destruct (String.eqb _ _); [apply emits_ret|].
    emits_step; [emits_step; other|].
    emits_step; [apply emits_abandon_destination|].
    emits_step; [emits_step; other|].
    emits_step; [emits_step; other|apply IH].
Qed.

Lemma emits_finalize v : emits P (finalize env v).
Proof.
  unfold finalize. emits_step; [apply emits__find_src_volume|].
  repeat emits_step; try other; apply emits__disconnect_volume.
Qed.

Lemma emits_monitor_volume v : emits P (monitor_volume env v).
Proof.
  unfold monitor_volume, dmsetup_status.
  emits_step.
  { intros w. destruct (emits_call env P (DmStatus (_dm_target_name env v))
      ltac:(other) w) as (n & E & F).
    exists n. split; [|done]. rewrite <- E. rewrite run_bind.
    by destruct (call env _ w) as [[?|?|] ?]. }
  repeat emits_step; try other. apply emits_finalize.
Qed.

Lemma emits_roll_back v : emits P (roll_back env v).
Proof.
  unfold roll_back. emits_step; [apply emits__find_src_volume|].
  emits_step; [apply emits__switch_volumes|].
  repeat emits_step; try other. apply emits__disconnect_volume.
Qed.

Lemma emits_terminate_connection v c : emits P (terminate_connection env v c).
Proof.
  unfold terminate_connection, start_hydration.
  repeat emits_step; try other;
    first [apply emits_roll_back | apply emits__find_src_volume].
Qed.

End EmitsDriver.

Section Run.

Variable env : Env.

Lemma call_ok e w :
  fails env w e = None →
  call env e w = (Ok tt, log e (Z.of_nat (latency env w e)) w).
Proof. intros H. unfold call. by rewrite H. Qed.

Lemma call_raise e w x :
  fails env w e = Some x →
  call env e w = (Raise x, log e (Z.of_nat (latency env w e)) w).
Proof. intros H. unfold call. by rewrite H. Qed.

Lemma call_world e w :
  (call env e w).2 = log e (Z.of_nat (latency env w e)) w.
Proof. unfold call. by destruct (fails env w e). Qed.

Lemma emits_service_get_by_args P key :
  P (ServiceGetByArgs key) → emits P (service_get_by_args env key).
Proof.
  intros H w. exists [ServiceGetByArgs key]. split; [|by auto].
  unfold service_get_by_args. rewrite run_bind.
  pose proof (call_world (ServiceGetByArgs key) w) as Hw.
  destruct (call env _ w) as [[?|?|] ?]; simpl in *; by subst.
Qed.

Lemma emits_dmsetup_status P n :
  P (DmStatus n) → emits P (dmsetup_status env n).
Proof.
  intros H w. exists [DmStatus n]. split; [|by auto].
  unfold dmsetup_status. rewrite run_bind.
  pose proof (call_world (DmStatus n) w) as Hw.
  destruct (call env _ w) as [[?|?|] ?]; simpl in *; by subst.
Qed.

Lemma emits_connect_volume P v :
  P (ConnectVolume v) → emits P (connect_volume env v).
Proof.
  intros H w. exists [ConnectVolume v]. split; [|by auto].
  unfold connect_volume. rewrite run_bind.
  pose proof (call_world (ConnectVolume v) w) as Hw.
  destruct (call env _ w) as [[?|?|] ?]; simpl in *; by subst.
Qed.

End Run.

(** Unfolds the plumbing of the monad at the head of a run. *)
Ltac run :=
  repeat first
    [ rewrite run_bind | rewrite run_ret
    | progress unfold lift_res, raise, act
    | progress cbv beta iota zeta ].

(** Case analysis on the outcome of the next call to a collaborator. *)
Ltac step_call env :=
  run;
  match goal with
  | |- context [call env ?e ?w0] =>
      let H := fresh "Hw" in
      let w1 := fresh "w" in
      pose proof (call_world env e w0) as H;
      destruct (call env e w0) as [[[]|?|] w1];
      cbn [snd] in H; subst w1; run
  end.

(** ** The role given to the destination record *)

Section Role.

Variable env : Env.

(** [e], when it creates a record, creates it with this role. *)
Definition creates_with_role (role : option string) (e : event) : Prop :=
  ∀ nv, e = DbCreate nv → Volume.migration_status nv = role.

Section Generic.

Variable P : event → Prop.
Hypothesis P_other : ∀ e, (∀ v, e ≠ DbCreate v) → P e.

Local Ltac other := apply P_other; intros ?; discriminate.

Lemma emits_migrate_to fuel volume nv :
  emits P (migrate_to env fuel volume nv).
Proof.
  unfold migrate_to, await_destination, adopt_destination.
  repeat emits_step; try other.
  - by apply emits_wait_loop.
  - by apply emits__switch_volumes.
Qed.

Lemma emits_initialize_connection fuel volume conn :
  (∀ v', Volume.migration_status v'
         = initial_migration_status (Volume.status volume) →
         P (DbCreate v')) →
  emits P (initialize_connection env fuel volume conn).
Proof.
  intros P_create.
  unfold initialize_connection. emits_step; [|apply emits_ret].
  emits_step; [repeat emits_step; other|].
  unfold initialize_connection_remote.
  emits_step; [emits_step; other|].
  emits_step; [emits_step|].
  emits_step; [apply emits_service_get_by_args; other|].
  emits_step; [by apply emits_volume_create|].
  apply emits_migrate_to.
Qed.

End Generic.

(** The calls of the remote branch up to the creation of the record. *)
Lemma initialize_connection_remote_creates fuel w volume conn b :
  fails env w (TargetInitializeConnection volume) = None →
  (∀ w' h, fails env w' (ServiceGetByArgs h) = None) →
  backend_of (Volume.host volume) = Ok b →
  ∃ nv rest,
    trace (initialize_connection_remote env fuel volume conn w).2 =
    trace w ++ [TargetInitializeConnection volume;
                ServiceGetByArgs
                  (extract_host env
                     (Some (connector_host conn +:+ "@" +:+ b)) "backend");
                DbCreate nv] ++ rest.
Proof.
  intros Hti Hsg Hb. unfold initialize_connection_remote.
  rewrite run_bind, (call_ok _ _ _ Hti). cbv beta iota.
  rewrite Hb. rewrite run_bind. unfold lift_res. cbv beta iota zeta.
  rewrite run_bind. unfold service_get_by_args at 1.
  rewrite run_bind, (call_ok _ _ _ (Hsg _ _)). cbv beta iota.
  rewrite run_ret. cbv beta iota.
  match goal with |- context [volume_create env ?o ≫= ?k] =>
    set (obj := o); set (K := k) end.
  rewrite run_bind. unfold volume_create at 1.
  match goal with |- context [DbCreate ?x] => set (nv := x) end.
  exists nv. rewrite run_bind.
  match goal with |- context [call env (DbCreate nv) ?w0] =>
    set (w2 := w0) end.
  pose proof (call_world env (DbCreate nv) w2) as Hw.
  assert (trace w2 = trace w ++ [TargetInitializeConnection volume;
    ServiceGetByArgs (extract_host env
      (Some (connector_host conn +:+ "@" +:+ b)) "backend")]) as Hw2.
  { subst w2. simpl. by rewrite <- app_assoc. }
  clearbody w2.
  destruct (call env (DbCreate nv) w2) as [[[]|e|] w3]; simpl in Hw; subst w3.
  - unfold act.
    destruct (db _ !! _).
    + exists []. simpl. rewrite Hw2, <- !app_assoc. done.
    + destruct (emits_migrate_to (fun _ => True) ltac:(done) fuel volume nv
        (write_db (<[fresh_id env (db w2):=nv]>
           (db (log (DbCreate nv)
              (Z.of_nat (latency env w2 (DbCreate nv))) w2)))
           (log (DbCreate nv)
              (Z.of_nat (latency env w2 (DbCreate nv))) w2)))
        as (rest & E & _).
      exists rest. subst K. cbv beta. rewrite E. simpl.
      rewrite Hw2, <- !app_assoc. done.
  - exists []. simpl. rewrite Hw2, <- !app_assoc. done.
  - exists []. simpl. rewrite Hw2, <- !app_assoc. done.
Qed.

(** C4. On the remote branch of [initialize_connection] the record
    created for the destination carries a [migration_status] fixed by
    the origin's status alone: ['reserved'] gives ['migrating'],
    ['in-use'] gives ['starting'], anything else gives none.  Every
    record created during the call has that role, and when the calls
    made before the creation go through, a record is created. *)
Theorem destination_role (fuel : nat) (w : World) (volume : Volume.t)
    (conn : Connector) :
  let role :=
    if String.eqb (Volume.status volume) "reserved" then Some "migrating"
    else if String.eqb (Volume.status volume) "in-use" then Some "starting"
    else None in
  ∃ new,
    trace (initialize_connection env fuel volume conn w).2 = trace w ++ new
    ∧ Forall (creates_with_role role) new
    ∧ (connector_host conn ≠ extract_host env (Volume.host volume) "host" →
       fails env w (TargetInitializeConnection volume) = None →
       (∀ w' h, fails env w' (ServiceGetByArgs h) = None) →
       (∃ b, backend_of (Volume.host volume) = Ok b) →
       ∃ nv, DbCreate nv ∈ new).
Proof.
  intros role.
  destruct (emits_initialize_connection (creates_with_role role))
    with (fuel := fuel) (volume := volume) (conn := conn) (w := w)
    as (new & E & F).
  { intros e He nv ->. by destruct (He nv). }
  { intros v' Hv' nv [= <-]. exact Hv'. }
  exists new. split; [exact E|]. split; [exact F|].
  intros Hremote Hti Hsg [b Hb].
  destruct (initialize_connection_remote_creates fuel w volume conn b
              Hti Hsg Hb) as (nv & rest & E').
  exists nv. revert E. unfold initialize_connection. rewrite run_bind.
  destruct (String.eqb_spec (connector_host conn)
              (extract_host env (Volume.host volume) "host")); [done|].
  intros E.
  assert (trace (initialize_connection_remote env fuel volume conn w).2
          = trace w ++ new) as E2.
  { rewrite <- E.
    by destruct (initialize_connection_remote env fuel volume conn w)
      as [[?|?|] ?]. }
  rewrite E' in E2. apply app_inv_head in E2. subst new.
  set_solver.
Qed.

End Role.

Lemma destination_role_witness :
  let v := Sample.vol "a" "in-use" None in
  let w := Sample.world [v] in
  ∃ new nv,
    trace (initialize_connection Sample.env 7 v {| connector_host := "hostB" |}
             w).2 = trace w ++ new
    ∧ DbCreate nv ∈ new
    ∧ Volume.migration_status nv = Some "starting".
Proof.
  intros v w.
  destruct (destination_role Sample.env 7 w v {| connector_host := "hostB" |})
    as (new & E & F & Hex).
  destruct Hex as [nv Hnv].
  - vm_compute. discriminate.
  - reflexivity.
  - reflexivity.
  - exists "lvm". reflexivity.
  - exists new, nv. split; [exact E|]. split; [exact Hnv|].
    rewrite Forall_forall in F. exact (F _ Hnv nv eq_refl).
Defined.

(** ** Runs that follow a script *)

(** [tracks m S]: the calls [m] appends to the log are an initial
    segment of one of the scripts in [S], and the whole script when [m]
    returns. *)
Definition tracks {A} (m : M World A) (S : list event → Prop) : Prop :=
  ∀ w, ∃ s new,
    S s ∧ trace (m w).2 = trace w ++ new ∧ new `prefix_of` s
    ∧ (∀ a, (m w).1 = Ok a → new = s).

Section Tracks.

Variable env : Env.

Lemma tracks_weaken {A} (m : M World A) (S S' : list event → Prop) :
  tracks m S → (∀ s, S s → S' s) → tracks m S'.
Proof.
  intros H HS w. destruct (H w) as (s & new & ? & ? & ? & ?).
  exists s, new. auto.
Qed.

Lemma tracks_ret {A} (a : A) : tracks (mret a) (eq []).
Proof.
  intros w. exists [], []. simpl. rewrite app_nil_r. by repeat split.
Qed.

Lemma tracks_raise {A} (e : exn) : tracks (raise e : M World A) (eq []).
Proof.
  intros w. exists [], []. simpl. rewrite app_nil_r. by repeat split.
Qed.

Lemma tracks_lift_res {A} (r : res A) : tracks (lift_res r) (eq []).
Proof.
  intros w. exists [], []. simpl. rewrite app_nil_r. by repeat split.
Qed.

Lemma tracks_call (e : event) : tracks (call env e) (eq [e]).
Proof.
  intros w. exists [e], [e]. rewrite call_world. by repeat split.
Qed.

Lemma tracks_volume_save v : tracks (volume_save env v) (eq [DbSave v]).
Proof.
  intros w. exists [DbSave v], [DbSave v].
  unfold volume_save. rewrite run_bind.
  pose proof (call_world env (DbSave v) w) as Hw.
  destruct (call env _ w) as [[[]|?|] w1]; simpl in *; subst w1;
    [|by repeat split..].
  unfold act. simpl. by destruct (db w !! Volume.id v).
Qed.

Lemma tracks_bind {A B} (m : M World A) (k : A → M World B) S1 S2 :
  tracks m S1 → (∀ a, tracks (k a) S2) → (∃ s2, S2 s2) →
  tracks (m ≫= k) (λ s, ∃ s1 s2, S1 s1 ∧ S2 s2 ∧ s = s1 ++ s2).
Proof.
  intros Hm Hk [s0 HS0] w. rewrite run_bind.
  destruct (Hm w) as (s1 & n1 & HS1 & E1 & P1 & F1).
  destruct (m w) as [[a|e|] w1]; simpl in *.
  - specialize (F1 a eq_refl). subst n1.
    destruct (Hk a w1) as (s2 & n2 & HS2 & E2 & P2 & F2).
    exists (s1 ++ s2), (s1 ++ n2). split; [by eauto|].
    rewrite E2, E1, app_assoc. split; [done|].
    split; [by apply prefix_app|].
    intros b Hb. by rewrite (F2 b Hb).
  - exists (s1 ++ s0), n1. split; [by eauto|]. split; [done|].
    split; [by apply prefix_app_r|done].
  - exists (s1 ++ s0), n1. split; [by eauto|]. split; [done|].
    split; [by apply prefix_app_r|done].
Qed.

(** A sequence whose second part has one script. *)
Lemma tracks_seq {A B} (m : M World A) (k : A → M World B) s1 s2 :
  tracks m (eq s1) → (∀ a, tracks (k a) (eq s2)) →
  tracks (m ≫= k) (eq (s1 ++ s2)).
Proof.
  intros Hm Hk. eapply tracks_weaken.
  - apply (tracks_bind _ _ _ _ Hm Hk). eauto.
  - by intros s (? & ? & <- & <- & ->).
Qed.

(** [try: m  except Exception: pass]: the run stops where [m] stopped. *)
Lemma tracks_try_pass (m : M World unit) S :
  tracks m S →
  (∀ w, (m w).1 ≠ Nonterm) →
  tracks (try_except m (λ _, mret tt)) (λ s, ∃ s', S s' ∧ s `prefix_of` s').
Proof.
  intros Hm Hn w. unfold try_except.
  destruct (Hm w) as (s & n & HS & E & Pf & F).
  specialize (Hn w).
  destruct (m w) as [[a|e|] w1]; simpl in *; [| |done].
  - exists n, n. split; [by exists s|]. by repeat split.
  - exists n, n. split; [by exists s|]. by repeat split.
Qed.

End Tracks.

(** ** The order of the finalization *)

Section Finalization.

Variable env : Env.

(** The id after the colon of [migration_status]. *)
Definition source_id (v : Volume.t) : string :=
  match Volume.migration_status v with
  | Some s => default "" (Py.split ":" s !! 1%nat)
  | None => ""
  end.

(** The cutover of the overlay [v] to a linear target. *)
Definition cutover (v : Volume.t) : list event :=
  [DmSuspend (_dm_target_name env v);
   DmLoad (_dm_target_name env v) (linear_table env v);
   DmResume (_dm_target_name env v)].

(** The calls of [_disconnect_volume]; [disconnected] tells whether the
    connector could be obtained, so that the disconnect was issued. *)
Definition disconnect_calls (v : Volume.t) (disconnected : bool) : list event :=
  [GetConnector v] ++ (if disconnected then [DisconnectVolume v] else [])
  ++ [RpcRemoveExport v].

(** The calls that get rid of the source, when there is one. *)
Definition source_teardown (src : option Volume.t) (disconnected : bool)
  : list event :=
  match src with
  | Some s => disconnect_calls s disconnected ++ [RpcDeleteVolume s]
  | None => []
  end.

(** The calls of a finalization that goes through. *)
Definition finalization_calls (v : Volume.t) (src : option Volume.t)
    (disconnected : bool) : list event :=
  let completing := Volume.set_migration_status (Some "completing") v in
  let success := Volume.set_migration_status (Some "success") completing in
  [DbGetById (source_id v); DbSave completing]
  ++ cutover completing
  ++ [VgDelete (_metadata_dev_name env completing)]
  ++ source_teardown src disconnected
  ++ [DbSave success].

Lemma tracks__find_src_volume v :
  tracks (_find_src_volume env v) (eq [DbGetById (source_id v)]).
Proof.
  intros w. exists [DbGetById (source_id v)].
  unfold _find_src_volume, source_id.
  destruct (Volume.migration_status v) as [ms|].
  2: { exists []. simpl. rewrite app_nil_r.
       repeat split; [apply prefix_nil|done]. }
  run. unfold index. destruct (Py.split ":" ms !! 1%nat) as [sid|].
  2: { exists []. simpl. rewrite app_nil_r.
       repeat split; [apply prefix_nil|done]. }
  exists [DbGetById sid].
  unfold try_except_only, try_except, get_by_id.
  step_call env.
  - destruct (db _ !! sid); by repeat split.
  - case_decide; by repeat split.
  - by repeat split.
Qed.

Lemma tracks__disconnect_volume v :
  tracks (_disconnect_volume env v) (λ s, ∃ d, s = disconnect_calls v d).
Proof.
  intros w. unfold _disconnect_volume, _get_connector, try_except.
  step_call env.
  - step_call env; [step_call env|step_call env|].
    1-6: exists (disconnect_calls v true), (disconnect_calls v true).
    1-6: simpl; rewrite <- !app_assoc; by eauto 10.
    exists (disconnect_calls v true), [GetConnector v; DisconnectVolume v].
    simpl; rewrite <- !app_assoc. split; [by eauto|]. split; [done|].
    split; [by exists [RpcRemoveExport v]|done].
  - step_call env.
    all: exists (disconnect_calls v false), (disconnect_calls v false).
    all: simpl; rewrite <- !app_assoc; by eauto 10.
  - exists (disconnect_calls v false), [GetConnector v].
    simpl. split; [by eauto|]. split; [done|].
    split; [by exists [RpcRemoveExport v]|done].
Qed.

Lemma tracks_finalize_rest v src :
  let completing := Volume.set_migration_status (Some "completing") v in
  let success := Volume.set_migration_status (Some "success") completing in
  tracks
    (volume_save env completing ;;
     call env (DmSuspend (_dm_target_name env completing)) ;;
     call env (DmLoad (_dm_target_name env completing)
                 (linear_table env completing)) ;;
     call env (DmResume (_dm_target_name env completing)) ;;
     call env (VgDelete (_metadata_dev_name env completing)) ;;
     match src with
     | Some src_volume =>
         _disconnect_volume env src_volume ;;
         call env (RpcDeleteVolume src_volume)
     | None => mret tt
     end ;;
     volume_save env success)
    (λ s, ∃ d, s = [DbSave completing] ++ cutover completing
                   ++ [VgDelete (_metadata_dev_name env completing)]
                   ++ source_teardown src d ++ [DbSave success]).
Proof.
  intros completing success.
  eapply tracks_weaken.
  - eapply tracks_bind; [apply tracks_volume_save|intros _|].
    eapply tracks_bind; [apply tracks_call|intros _|].
    eapply tracks_bind; [apply tracks_call|intros _|].
    eapply tracks_bind; [apply tracks_call|intros _|].
    eapply tracks_bind; [apply tracks_call|intros _|].
    eapply tracks_bind; [|intros _; apply tracks_volume_save|by eauto].
    + instantiate (1 := λ s, ∃ d, s = source_teardown src d).
      destruct src as [src_volume|].
      * eapply tracks_weaken.
        { eapply tracks_bind;
            [apply tracks__disconnect_volume|intros _; apply tracks_call|].
          by eauto. }
        intros s (s1 & s2 & [d ->] & <- & ->). by exists d.
      * eapply tracks_weaken; [apply tracks_ret|].
        intros s <-. by exists true.
    + repeat esplit.
    + repeat esplit.
    + repeat esplit.
    + repeat esplit.
    + repeat esplit.
  - cbv beta. intros s H.
    repeat match goal with
           | H : ∃ _, _ |- _ => destruct H
           | H : _ ∧ _ |- _ => destruct H
           end; subst.
    eexists. reflexivity.
  Unshelve. all: exact true.
Qed.

(** The source record as the finalization sees it: what
    [_find_src_volume] returned. *)
Definition found_source (v : Volume.t) (w : World) : option Volume.t :=
  match (_find_src_volume env v w).1 with
  | Ok src => src
  | _ => None
  end.


End Finalization.


(** ** When the monitor finalizes *)

Lemma startswith_app (s p : string) :
  Py.startswith s p = true → ∃ r, s = p +:+ r.
Proof.
  unfold Py.startswith. revert s.
  induction p as [|a p IH]; intros s H; [by exists s|].
  destruct s as [|b s]; [discriminate H|].
  cbn [String.prefix] in H.
  destruct (ascii_dec a b) as [<-|]; [|discriminate H].
  destruct (IH s H) as [r ->]. by exists r.
Qed.

Lemma startswith_target (s : string) :
  Py.startswith s "target:" = true → ∃ r, s = "target:" +:+ r.
Proof. apply startswith_app. Qed.

Lemma split_go_cons sep cur s : ∃ x l, Py.split_go sep cur s = x :: l.
Proof.
  revert cur. induction s as [|a s IH]; intros cur; simpl; [by eauto|].
  destruct (Ascii.eqb a sep); by eauto.
Qed.

(** A [migration_status] of the form [target:...] names a source. *)
Lemma target_has_source (s : string) :
  Py.startswith s "target:" = true → is_Some (Py.split ":" s !! 1%nat).
Proof.
  intros [r ->]%startswith_target.
  destruct (split_go_cons ":" "" r) as (x & l & E).
  change (Py.split ":" ("target:" +:+ r))
    with ("target" :: Py.split_go ":" "" r).
  rewrite E. by eexists.
Qed.

Section Monitor.

Variable env : Env.

(** What the status tokens say, as the monitor reads them: the token at
    index 6 is a pair [hydrated/total] with equal components, and the
    token at index 7 is ["0"]. *)
Definition reports_hydrated (dm_status : list string) : Prop :=
  ∃ field6 hydrated total rest,
    dm_status !! 6%nat = Some field6
    ∧ Py.split "/" field6 = hydrated :: total :: rest
    ∧ hydrated = total
    ∧ dm_status !! 7%nat = Some "0".

(** What the status line says when read in the format
    [<start> <length> clone <meta> <hydrated>/<total> <dirty> <errors> ...]
    of the specification: the pair is the token at index 4 and the error
    count the token at index 6. *)
Definition spec_reports_hydrated (dm_status : list string) : Prop :=
  ∃ field4 hydrated total,
    dm_status !! 4%nat = Some field4
    ∧ Py.split "/" field4 = [hydrated; total]
    ∧ hydrated = total
    ∧ dm_status !! 6%nat = Some "0".

Lemma hydration_completed_true dm_status :
  hydration_completed dm_status = Ok true ↔ reports_hydrated dm_status.
Proof.
  unfold hydration_completed, reports_hydrated, index. split.
  - destruct (dm_status !! 6%nat) as [f6|]; simpl; [|done].
    destruct (Py.split "/" f6) as [|h [|t rest]] eqn:E; simpl; [done..|].
    destruct (String.eqb_spec h t) as [->|]; [|done].
    destruct (dm_status !! 7%nat) as [f7|]; simpl; [|done].
    destruct (String.eqb_spec f7 "0") as [->|]; [|done].
    intros _. by exists f6, t, t, rest.
  - intros (f6 & h & t & rest & E6 & Es & -> & E7).
    rewrite E6. simpl. rewrite Es. simpl.
    by rewrite String.eqb_refl, E7.
Qed.

(** The first thing a finalization of a candidate does is look up the
    source. *)
Lemma finalize_starts (v : Volume.t) (w : World) :
  is_target (Volume.migration_status v) = true →
  ∃ rest, trace (finalize env v w).2
          = trace w ++ DbGetById (source_id v) :: rest.
Proof.
  intros Ht. unfold finalize. rewrite run_bind.
  assert (trace (_find_src_volume env v w).2
          = trace w ++ [DbGetById (source_id v)]) as E.
  { unfold _find_src_volume, source_id.
    destruct (Volume.migration_status v) as [ms|]; [|done].
    destruct (target_has_source ms Ht) as [sid Hsid].
    run. unfold index. rewrite Hsid.
    unfold try_except_only, try_except, get_by_id. step_call env.
    - by destruct (db _ !! sid).
    - by case_decide.
    - done. }
  destruct (_find_src_volume env v w) as [[src|e|] w1]; simpl in E.
  - match goal with |- context [?k w1] =>
      destruct (emits_bind (λ _, True) (mret src) (λ _, k)) with (w := w1)
        as (n & En & _) end.
    + apply emits_ret.
    + intros _. repeat emits_step; try done.
      by apply emits__disconnect_volume.
    + exists n. rewrite run_bind, run_ret in En. rewrite En, E.
      by rewrite <- app_assoc.
  - by exists [].
  - by exists [].
Qed.

(** The two status lines of the specification's scenario. *)
Definition first_spec_line : string :=
  "0 2097152 clone 8 262144/262144 0 0 4 hydration_threshold 1 hydration_batch_size 1 rw".

Definition second_spec_line : string :=
  "0 2097152 clone 8 30/262144 8 262144/262144 0 0 4 hydration_threshold 1 hydration_batch_size 1 rw".

(** The monitor went on to finalize [v]: after the status query it
    looked up the source record. *)
Definition finalization_ran (v : Volume.t) (w : World) : Prop :=
  ∃ rest,
    trace (monitor_volume env v w).2
    = trace w ++ DmStatus (_dm_target_name env v)
              :: DbGetById (source_id v) :: rest.

(** The monitor only queried the status of [v]: no record was written
    and no other call was made. *)
Definition left_alone (v : Volume.t) (w : World) : Prop :=
  (monitor_volume env v w).2
  = log (DmStatus (_dm_target_name env v))
      (Z.of_nat (latency env w (DmStatus (_dm_target_name env v)))) w.

(** C1 (amended). For a candidate volume whose target is of type
    [clone], the monitor finalizes exactly when the status token at
    index 6 is a pair [hydrated/total] with equal components and the
    token at index 7 is ["0"]; otherwise it leaves the volume alone.
    The line of the driver's comment (the second line of the
    specification's scenario) reports a hydrated volume; the first line
    of the scenario does not. *)
Theorem monitor_finalizes_when_hydrated (w : World) (v : Volume.t) :
  let dm_status :=
    Py.words (dm_status_line env w (_dm_target_name env v)) in
  is_target (Volume.migration_status v) = true →
  fails env w (DmStatus (_dm_target_name env v)) = None →
  dm_status !! 2%nat = Some "clone" →
  (finalization_ran v w ↔ reports_hydrated dm_status)
  ∧ (¬ reports_hydrated dm_status → left_alone v w)
  ∧ reports_hydrated (Py.words second_spec_line)
  ∧ ¬ reports_hydrated (Py.words first_spec_line).
Proof.
  intros dm_status Ht Hok Hclone.
  assert (¬ reports_hydrated dm_status → left_alone v w) as Hleft.
  { intros Hn. unfold left_alone, monitor_volume, dmsetup_status.
    run. rewrite (call_ok _ _ _ Hok). run.
    fold dm_status. unfold index. rewrite Hclone. run. simpl.
    rewrite <- hydration_completed_true in Hn.
    destruct (hydration_completed dm_status) as [[]| |]; by run. }
  split; [|split; [exact Hleft|]].
  - split.
    + intros [rest E].
      assert (reports_hydrated dm_status ∨ ¬ reports_hydrated dm_status)
        as [|Hn].
      { rewrite <- hydration_completed_true.
        destruct (hydration_completed dm_status) as [[]| |]; auto. }
      { done. }
      { apply Hleft in Hn. unfold left_alone in Hn. rewrite Hn in E.
        simpl in E. apply app_inv_head in E. discriminate E. }
    + intros Hh. apply hydration_completed_true in Hh.
      unfold finalization_ran, monitor_volume, dmsetup_status.
      run. rewrite (call_ok _ _ _ Hok). run.
      fold dm_status. unfold index. rewrite Hclone. run. simpl.
      rewrite Hh. run.
      destruct (finalize_starts v
        (log (DmStatus (_dm_target_name env v))
           (Z.of_nat (latency env w (DmStatus (_dm_target_name env v)))) w)
        Ht) as [rest E].
      exists rest. rewrite E. simpl. by rewrite <- app_assoc.
  - split.
    + apply hydration_completed_true. vm_compute. reflexivity.
    + rewrite <- hydration_completed_true. vm_compute. discriminate.
Qed.

End Monitor.

Lemma monitor_finalizes_when_hydrated_witness :
  let a := Sample.vol "a" "in-use" (Some "target:b") in
  let b := Sample.vol "b" "maintenance" (Some "starting") in
  finalization_ran (Sample.env_status second_spec_line) a
    (Sample.world [a; b]).
Proof.
  intros a b.
  destruct (monitor_finalizes_when_hydrated
              (Sample.env_status second_spec_line) (Sample.world [a; b]) a)
    as ((_ & H) & _ & Hs & _); [reflexivity..|].
  apply H, Hs.
Defined.

(** C1, as the specification has it: read in the specification's format
    the first line of its scenario reports a hydrated volume and the
    second does not, but the monitor raises on the first line without
    finalizing, and finalizes on the second, up to ['success']. *)
Lemma monitor_on_specification_lines :
  let a := Sample.vol "a" "in-use" (Some "target:b") in
  let b := Sample.vol "b" "maintenance" (Some "starting") in
  let w := Sample.world [a; b] in
  let env1 := Sample.env_status first_spec_line in
  let env2 := Sample.env_status second_spec_line in
  (spec_reports_hydrated (Py.words first_spec_line)
   ∧ ¬ finalization_ran env1 a w
   ∧ (monitor_volume env1 a w).1 = Raise IndexError)
  ∧ (¬ spec_reports_hydrated (Py.words second_spec_line)
     ∧ finalization_ran env2 a w
     ∧ Volume.migration_status <$> db (monitor_volume env2 a w).2 !! "a"
       = Some (Some "success")).
Proof.
  intros a b w env1 env2. split; split.
  - exists "262144/262144", "262144", "262144". vm_compute. by repeat split.
  - split; [|vm_compute; reflexivity].
    intros [rest E]. vm_compute in E. discriminate E.
  - intros (f4 & h & t & E4 & Es & -> & _).
    vm_compute in E4. injection E4 as <-. vm_compute in Es. congruence.
  - split; [|vm_compute; reflexivity].
    exists (drop 2 (trace (monitor_volume env2 a w).2)).
    vm_compute. reflexivity.
Qed.

(** ** A failure inside a tick of the monitor *)

Section Tick.

Variable env : Env.

Lemma monitor_loop_app l1 l2 w w1 :
  monitor_loop env l1 w = (Ok tt, w1) →
  monitor_loop env (l1 ++ l2) w = monitor_loop env l2 w1.
Proof.
  unfold monitor_loop. revert w.
  induction l1 as [|v l1 IH]; intros w H; simpl in *.
  - by injection H as ->.
  - rewrite run_bind in *.
    destruct (monitor_volume env v w) as [[[]|e|] w']; [|done..].
    by apply IH.
Qed.

(** C7 (amended). A failure raised while one volume is processed ends
    the tick: the volumes before it in the list have been processed, the
    exception leaves the loop, and the world is the one the failure
    left, so no later volume of the list is examined. *)
Theorem monitor_stops_at_failure (l1 l2 : list Volume.t) (v : Volume.t)
    (w w1 w2 : World) (e : exn) :
  monitor_loop env l1 w = (Ok tt, w1) →
  monitor_volume env v w1 = (Raise e, w2) →
  monitor_loop env (l1 ++ v :: l2) w = (Raise e, w2).
Proof.
  intros H1 Hv. rewrite (monitor_loop_app _ _ _ _ H1).
  unfold monitor_loop. simpl. rewrite run_bind. by rewrite Hv.
Qed.

End Tick.

Module TickSample.

Definition a := Sample.vol "a" "in-use" (Some "target:b").
Definition c := Sample.vol "c" "in-use" (Some "target:d").

(** [dmsetup status] fails for the overlay of [c], and only for it. *)
Definition env : Env :=
  Sample.env_of second_spec_line
    (fun e => if decide (e = DmStatus "volume-c-handle")
              then Some (ExternalError "dmsetup status") else None)
    None.

Definition w : World := Sample.world [a; c].

End TickSample.

Lemma monitor_stops_at_failure_witness :
  monitor_loop TickSample.env [TickSample.c; TickSample.a] TickSample.w
  = (Raise (ExternalError "dmsetup status"),
     log (DmStatus "volume-c-handle") 0 TickSample.w).
Proof.
  apply (monitor_stops_at_failure TickSample.env [] [TickSample.a]
           TickSample.c TickSample.w TickSample.w);
    vm_compute; reflexivity.
Defined.

(** C7, as the specification has it: in a tick over the candidates [c]
    and [a], the failure of the status query for [c] is the end of the
    tick; the overlay of [a], whose status reports a hydrated volume, is
    never queried and [a] stays as it was. *)
Lemma monitor_failure_skips_the_rest :
  let out := _migration_monitor TickSample.env TickSample.w in
  filter (fun v => is_target (Volume.migration_status v) = true)
    ((map_to_list (db TickSample.w)).*2) = [TickSample.c; TickSample.a]
  ∧ out.1 = Raise (ExternalError "dmsetup status")
  ∧ trace out.2 = [DbGetAllByHost "hostA@lvm"; DmStatus "volume-c-handle"]
  ∧ (DmStatus "volume-a-handle" ∉ trace out.2)
  ∧ db out.2 = db TickSample.w.
Proof.
  cbv zeta. split; [vm_compute; reflexivity|].
  split; [vm_compute; reflexivity|].
  assert (trace (_migration_monitor TickSample.env TickSample.w).2
          = [DbGetAllByHost "hostA@lvm"; DmStatus "volume-c-handle"]) as E.
  { vm_compute. reflexivity. }
  split; [exact E|]. split.
  - rewrite E. intros H. apply list_elem_of_In in H. simpl in H.
    destruct H as [H|[H|[]]]; discriminate H.
  - vm_compute. reflexivity.
Qed.

(** ** A failure inside the creation hook *)

Module HookSample.

(** The destination record being created and the origin that points to it. *)
Definition n := Sample.vol "n" "creating" (Some "starting").
Definition a := Sample.vol "a" "in-use" (Some "target:n").

Definition n_error : Volume.t :=
  Volume.set_migration_status (Some "error") (Volume.set_status "error" n).

(** The connection to the source cannot be made. *)
Definition env : Env :=
  Sample.env_of ""
    (fun e => if decide (e = ConnectVolume a)
              then Some (ExternalError "connect_volume") else None)
    None.

Definition w : World := Sample.world [a; n].

(** Nothing fails, but no record points to [n]. *)
Definition w_alone : World := Sample.world [n].

End HookSample.

(** C8. When [connect_volume] raises inside the migration branch of
    [create_volume], the handler stores the error state and removes the
    overlay, and then fails on the unbound [src_volume_handle]: that
    exception is the one the caller gets, not the one raised by
    [connect_volume], and neither the metadata device nor the volume is
    deleted.  The same happens on the unbound [connector] when no
    record points to the new volume. *)
Theorem create_volume_drops_the_error :
  let out := create_volume HookSample.env HookSample.n HookSample.w in
  let alone := create_volume Sample.env HookSample.n HookSample.w_alone in
  (out.1 = Raise (UnboundLocalError "src_volume_handle")
   ∧ trace out.2 =
       [BaseCreateVolume HookSample.n; DbGetAll "target:n";
        GetConnector HookSample.a; ConnectVolume HookSample.a;
        DbSave HookSample.n_error; DmRemove "volume-n-handle"]
   ∧ db out.2 !! "n" = Some HookSample.n_error)
  ∧ (alone.1 = Raise (UnboundLocalError "connector")
     ∧ trace alone.2 =
         [BaseCreateVolume HookSample.n; DbGetAll "target:n";
          DbSave HookSample.n_error; DmRemove "volume-n-handle"]).
Proof. cbv zeta. repeat split; vm_compute; reflexivity. Qed.

(** ** Primitives that go through *)

Section Primitives.

Variable env : Env.

Lemma volume_save_ok v w old :
  fails env w (DbSave v) = None →
  db w !! Volume.id v = Some old →
  volume_save env v w =
    (Ok tt,
     log_ms {| mw_id := Volume.id v;
               mw_old := Volume.migration_status old;
               mw_new := Volume.migration_status v |}
       (write_db (<[Volume.id v := v]> (db w))
          (log (DbSave v) (Z.of_nat (latency env w (DbSave v))) w))).
Proof.
  intros Hf Hdb. unfold volume_save. run. rewrite (call_ok _ _ _ Hf). run.
  cbn [db log]. by rewrite Hdb.
Qed.

Lemma volume_save_missing v w :
  fails env w (DbSave v) = None →
  db w !! Volume.id v = None →
  volume_save env v w =
    (Raise VolumeNotFound,
     log (DbSave v) (Z.of_nat (latency env w (DbSave v))) w).
Proof.
  intros Hf Hdb. unfold volume_save. run. rewrite (call_ok _ _ _ Hf). run.
  cbn [db log]. by rewrite Hdb.
Qed.

Lemma volume_destroy_ok v w :
  fails env w (DbDestroy (Volume.id v)) = None →
  volume_destroy env v w =
    (Ok tt,
     write_db (delete (Volume.id v) (db w))
       (log (DbDestroy (Volume.id v))
          (Z.of_nat (latency env w (DbDestroy (Volume.id v)))) w)).
Proof.
  intros Hf. unfold volume_destroy. run. rewrite (call_ok _ _ _ Hf). by run.
Qed.

Lemma volume_refresh_ok v w :
  fails env w (DbRefresh (Volume.id v)) = None →
  volume_refresh env v w =
    (let w' := log (DbRefresh (Volume.id v))
                 (Z.of_nat (latency env w (DbRefresh (Volume.id v)))) w in
     (Ok (Volume.set_status (remote_status env w' v) v), w')).
Proof.
  intros Hf. unfold volume_refresh. run. rewrite (call_ok _ _ _ Hf). by run.
Qed.

Lemma volume_create_ok v w :
  let v' := created (fresh_id env (db w)) v in
  fails env w (DbCreate v') = None →
  db w !! fresh_id env (db w) = None →
  volume_create env v w =
    (Ok v',
     write_db (<[fresh_id env (db w) := v']> (db w))
       (log (DbCreate v') (Z.of_nat (latency env w (DbCreate v'))) w)).
Proof.
  intros v' Hf Hdb. unfold volume_create. run.
  fold v'. rewrite (call_ok _ _ _ Hf). run.
  cbn [db log]. by rewrite Hdb.
Qed.

End Primitives.

(** ** The bounded wait *)

(** [1 + 4 + ... + n^2]: the seconds slept in the first [n] rounds. *)
Fixpoint sumsq (n : nat) : Z :=
  match n with
  | O => 0
  | S k => sumsq k + Z.of_nat (S k) ^ 2
  end.

(** The calls of successive rounds of the wait, from round [k] on, when
    the clock reads [ts] at the start of the rounds. *)
Fixpoint poll_rounds (i : string) (k : nat) (ts : list Z) : list event :=
  match ts with
  | [] => []
  | t :: ts' =>
      [Time t; Sleep (Z.of_nat k ^ 2); DbRefresh i] ++ poll_rounds i (S k) ts'
  end.

Definition timeout_error : exn :=
  VolumeMigrationFailed "Timeout wating for remote volume creation".

Section BoundedWait.

Variable env : Env.

(** No collaborator fails, except that the deletion request may find the
    volume gone. *)
Hypothesis no_failure :
  ∀ w e, fails env w e = None
         ∨ (∃ v, e = RpcDeleteVolume v) ∧ fails env w e = Some VolumeNotFound.

(** The destination never becomes available and never fails. *)
Hypothesis never_ready :
  ∀ w v, remote_status env w v ≠ "available"
         ∧ remote_status env w v ≠ "error".

Lemma call_goes_through w e :
  (∀ v, e ≠ RpcDeleteVolume v) → fails env w e = None.
Proof.
  intros He. destruct (no_failure w e) as [|[[v ->] _]]; [done|].
  by destruct (He v).
Qed.

Lemma delete_request_ok nv w :
  try_except_only VolumeNotFound (call env (RpcDeleteVolume nv)) (mret tt) w
  = (Ok tt,
     log (RpcDeleteVolume nv)
       (Z.of_nat (latency env w (RpcDeleteVolume nv))) w).
Proof.
  unfold try_except_only, try_except.
  destruct (no_failure w (RpcDeleteVolume nv)) as [Hf|[_ Hf]].
  - by rewrite (call_ok _ _ _ Hf).
  - rewrite (call_raise _ _ _ _ Hf). by rewrite decide_True.
Qed.

Variable volume : Volume.t.
Variable t0 : Z.

Lemma sumsq_bound tries :
  (tries ≤ 6)%nat → sumsq tries ≤ 60 → (tries ≤ 5)%nat.
Proof.
  intros H6 H. do 7 (destruct tries as [|tries]; [simpl in *; lia|]). lia.
Qed.

Lemma wait_loop_times_out fuel :
  ∀ tries w nv,
    (tries ≤ 6)%nat → (7 ≤ fuel + tries)%nat →
    t0 + sumsq tries ≤ now w →
    Volume.status nv ≠ "available" → Volume.status nv ≠ "error" →
    is_Some (db w !! Volume.id volume) →
    Volume.id nv ≠ Volume.id volume →
    ∃ ts t1 nv' w',
      wait_loop env fuel (t0 + 60) tries volume nv w
      = (Raise timeout_error, w')
      ∧ trace w' =
          trace w ++ poll_rounds (Volume.id nv) (S tries) ts
          ++ [Time t1; RpcDeleteVolume nv'; DbDestroy (Volume.id nv);
              DbSave (Volume.set_migration_status (Some "error") volume)]
      ∧ Forall (λ t, t ≤ t0 + 60) ts
      ∧ t0 + 60 < t1
      ∧ Volume.id nv' = Volume.id nv
      ∧ db w' =
          <[Volume.id volume :=
              Volume.set_migration_status (Some "error") volume]>
            (delete (Volume.id nv) (db w)).
Proof.
  induction fuel as [|fuel IH]; intros tries w nv H6 Hfuel Hnow Hav Herr
    Hdb Hne; [lia|].
  cbn [wait_loop].
  apply String.eqb_neq in Hav as Hav'. rewrite Hav'.
  apply String.eqb_neq in Herr as Herr'.
  run. unfold time_time at 1. run. rewrite Herr', orb_false_r.
  destruct (Z.ltb_spec (t0 + 60) (now w)) as [Hlate|Hearly].
  - (* past the deadline: give up *)
    unfold abandon_destination. rewrite Herr'. run.
    rewrite delete_request_ok. run.
    rewrite volume_destroy_ok by (apply call_goes_through; done).
    run. destruct Hdb as [old Hold].
    erewrite volume_save_ok.
    2: { apply call_goes_through; done. }
    2: { cbn [db log write_db Volume.set_migration_status Volume.id].
         rewrite lookup_delete_ne by done. exact Hold. }
    run. exists [], (now w), nv. eexists. split; [reflexivity|].
    cbn [trace db log write_db log_ms poll_rounds Volume.id
         Volume.set_migration_status].
    rewrite <- !app_assoc. by repeat split.
  - (* still in time: sleep and poll again *)
    unfold time_sleep at 1. run.
    rewrite volume_refresh_ok by (apply call_goes_through; done).
    run.
    match goal with |- context [wait_loop env fuel _ _ volume ?nv2 ?w2] =>
      set (nv' := nv2); set (w' := w2) end.
    assert (sumsq tries ≤ 60) as Hs by lia.
    pose proof (sumsq_bound tries H6 Hs) as H5.
    destruct (IH (S tries) w' nv') as (ts & t1 & nv'' & w'' & E & Ht & Hts
                                       & Ht1 & Hid & Hd).
    + lia.
    + lia.
    + subst w'. cbn [now log sumsq]. lia.
    + apply never_ready.
    + apply never_ready.
    + done.
    + done.
    + exists (now w :: ts), t1, nv'', w''. split; [exact E|].
      split; [|split; [|split; [done|split; [done|done]]]].
      * rewrite Ht. subst w'. cbn [trace log poll_rounds Volume.id].
        by rewrite <- !app_assoc.
      * constructor; [done|done].
Qed.

End BoundedWait.

Definition is_delete_request (e : event) : Prop :=
  ∃ v, e = RpcDeleteVolume v.

Global Instance is_delete_request_dec (e : event) :
  Decision (is_delete_request e).
Proof.
  destruct e; first [by left; eexists | right; intros [? [=]]].
Defined.

(** The deletion requests among some calls. *)
Definition delete_requests (l : list event) : list event :=
  filter is_delete_request l.

Lemma delete_requests_poll_rounds i k ts :
  delete_requests (poll_rounds i k ts) = [].
Proof. revert k. induction ts as [|t ts IH]; intros k; [done|apply IH]. Qed.

Section Timeout.

Variable env : Env.

Hypothesis no_failure :
  ∀ w e, fails env w e = None
         ∨ (∃ v, e = RpcDeleteVolume v) ∧ fails env w e = Some VolumeNotFound.

Hypothesis never_ready :
  ∀ w v, remote_status env w v ≠ "available"
         ∧ remote_status env w v ≠ "error".


End Timeout.

Module WaitSample.

(** The destination stays in ['creating']. *)
Definition env : Env := Sample.env_of "" (fun _ => None) (Some "creating").

Definition a := Sample.vol "a" "in-use" None.
Definition conn : Connector := {| connector_host := "hostB" |}.
Definition w : World := Sample.world [a].

End WaitSample.


(** With calls that take no time the wait sleeps 1, 4, 9, 16, 25 and 36
    seconds and gives up at second 91. *)
Example bounded_wait_on_a_still_clock :
  let out := initialize_connection WaitSample.env 7 WaitSample.a
               WaitSample.conn WaitSample.w in
  filter (λ e, match e with Time _ | Sleep _ => true | _ => false end = true)
    (trace out.2)
  = [Time 0; Time 0; Sleep 1; Time 1; Sleep 4; Time 5; Sleep 9; Time 14;
     Sleep 16; Time 30; Sleep 25; Time 55; Sleep 36; Time 91]
  ∧ now out.2 = 91.
Proof. vm_compute. split; reflexivity. Qed.

(** ** Relations between the world before and after a run *)

(** [keeps R m]: the world [m] leaves is related by [R] to the one it
    started in. *)
Definition keeps {A} (R : relation World) (m : M World A) : Prop :=
  ∀ w, R w (m w).2.

(** The records, the log of their writes and the snapshots are the same. *)
Definition same_store (w w' : World) : Prop :=
  db w' = db w ∧ snapshots w' = snapshots w ∧ ms_log w' = ms_log w.

Global Instance same_store_po : PreOrder same_store.
Proof.
  split.
  - by intros w.
  - intros w1 w2 w3 (? & ? & ?) (? & ? & ?). repeat split; congruence.
Qed.

(** The logs have only grown. *)
Definition extends (w w' : World) : Prop :=
  (∃ l, trace w' = trace w ++ l)
  ∧ (∃ l, snapshots w' = snapshots w ++ l)
  ∧ (∃ l, ms_log w' = ms_log w ++ l).

Global Instance extends_po : PreOrder extends.
Proof.
  split.
  - intros w. repeat split; exists []; by rewrite app_nil_r.
  - intros w1 w2 w3 ([a1 A1] & [b1 B1] & [c1 C1]) ([a2 A2] & [b2 B2] & [c2 C2]).
    split; [exists (a1 ++ a2); by rewrite A2, A1, app_assoc|].
    split; [exists (b1 ++ b2); by rewrite B2, B1, app_assoc|].
    exists (c1 ++ c2); by rewrite C2, C1, app_assoc.
Qed.

Section Keeps.

Variable env : Env.
Variable R : relation World.
Context `{!PreOrder R}.

(** [R] does not look at the log of calls nor at the clock. *)
Hypothesis R_log : ∀ e dt w, R w (log e dt w).

Lemma keeps_ret {A} (a : A) : keeps R (mret a).
Proof. by intros w. Qed.

Lemma keeps_raise {A} (e : exn) : keeps R (raise e : M World A).
Proof. by intros w. Qed.

Lemma keeps_lift_res {A} (r : res A) : keeps R (lift_res r).
Proof. by intros w. Qed.

Lemma keeps_bind {A B} (m : M World A) (k : A → M World B) :
  keeps R m → (∀ a, keeps R (k a)) → keeps R (m ≫= k).
Proof.
  intros Hm Hk w. rewrite run_bind. specialize (Hm w).
  destruct (m w) as [[a|e|] w1]; simpl in *; [|done..].
  by etrans; [|apply Hk].
Qed.

Lemma keeps_try_except {A} (m : M World A) (h : exn → M World A) :
  keeps R m → (∀ e, keeps R (h e)) → keeps R (try_except m h).
Proof.
  intros Hm Hh w. unfold try_except. specialize (Hm w).
  destruct (m w) as [[a|e|] w1]; simpl in *; [done| |done].
  by etrans; [|apply Hh].
Qed.

Lemma keeps_try_except_only {A} e0 (m h : M World A) :
  keeps R m → keeps R h → keeps R (try_except_only e0 m h).
Proof.
  intros Hm Hh. apply keeps_try_except; [done|].
  intros e. case_decide; [done|apply keeps_raise].
Qed.

Lemma keeps_call e : keeps R (call env e).
Proof. intros w. rewrite call_world. apply R_log. Qed.

Lemma keeps_time_time : keeps R time_time.
Proof. intros w. apply R_log. Qed.

Lemma keeps_time_sleep n : keeps R (time_sleep env n).
Proof. intros w. apply R_log. Qed.

Lemma keeps_after_call {A} e (f : World → World → A) :
  keeps R (λ w, (call env e ;; mret (f w w)) w).
Proof.
  intros w. rewrite run_bind.
  pose proof (call_world env e w) as Hw.
  destruct (call env e w) as [[[]|?|] w1]; simpl in *; subst w1;
    apply R_log.
Qed.

Lemma keeps_volume_refresh v : keeps R (volume_refresh env v).
Proof.
  apply keeps_bind; [apply keeps_call|]. by intros _ w.
Qed.

Lemma keeps_get_by_id i : keeps R (get_by_id env i).
Proof.
  apply keeps_bind; [apply keeps_call|]. intros _ w. unfold act.
  by destruct (db w !! i).
Qed.

Lemma keeps_get_all_by_host h : keeps R (get_all_by_host env h).
Proof. apply keeps_bind; [apply keeps_call|]. by intros _ w. Qed.

Lemma keeps_get_all_limit1 ms : keeps R (get_all_limit1 env ms).
Proof. apply keeps_bind; [apply keeps_call|]. by intros _ w. Qed.

Lemma keeps_dmsetup_status n : keeps R (dmsetup_status env n).
Proof. apply (keeps_after_call (DmStatus n) (λ w _, _)). Qed.

Lemma keeps_service_get_by_args key : keeps R (service_get_by_args env key).
Proof. apply (keeps_after_call (ServiceGetByArgs key) (λ w _, _)). Qed.

Lemma keeps_connect_volume v : keeps R (connect_volume env v).
Proof. apply (keeps_after_call (ConnectVolume v) (λ w _, _)). Qed.

End Keeps.

Lemma same_store_log e dt w : same_store w (log e dt w).
Proof. done. Qed.

Lemma extends_log e dt w : extends w (log e dt w).
Proof.
  split; [by exists [e]|]. split; exists []; by rewrite app_nil_r.
Qed.

Lemma extends_write d w : extends w (write_db d w).
Proof.
  split; [exists []; by rewrite app_nil_r|].
  split; [by exists [d]|]. exists []; by rewrite app_nil_r.
Qed.

Lemma extends_log_ms m w : extends w (log_ms m w).
Proof.
  split; [exists []; by rewrite app_nil_r|].
  split; [exists []; by rewrite app_nil_r|]. by exists [m].
Qed.

(** Steps through a program that only calls collaborators; [Hlog] shows
    that the relation does not look at the log of calls. *)
Ltac keeps_step Hlog :=
  lazymatch goal with
  | |- keeps _ (mret _) => apply keeps_ret
  | |- keeps _ (raise _) => apply keeps_raise
  | |- keeps _ (lift_res _) => apply keeps_lift_res
  | |- keeps _ (_ ≫= _) => apply keeps_bind
  | |- keeps _ (try_except_only _ _ _) => apply keeps_try_except_only
  | |- keeps _ (try_except _ _) => apply keeps_try_except
  | |- keeps _ (call _ _) => apply keeps_call
  | |- keeps _ time_time => apply keeps_time_time
  | |- keeps _ (time_sleep _ _) => apply keeps_time_sleep
  | |- keeps _ (volume_refresh _ _) => apply keeps_volume_refresh
  | |- keeps _ (get_by_id _ _) => apply keeps_get_by_id
  | |- keeps _ (get_all_by_host _ _) => apply keeps_get_all_by_host
  | |- keeps _ (get_all_limit1 _ _) => apply keeps_get_all_limit1
  | |- keeps _ (dmsetup_status _ _) => apply keeps_dmsetup_status
  | |- keeps _ (service_get_by_args _ _) => apply keeps_service_get_by_args
  | |- keeps _ (connect_volume _ _) => apply keeps_connect_volume
  | |- keeps _ (if ?b then _ else _) => destruct b
  | |- keeps _ (match ?o with Some _ => _ | None => _ end) => destruct o
  | |- keeps _ (let _ := _ in _) => cbv zeta
  end;
  lazymatch goal with
  | |- PreOrder _ => exact _
  | |- ∀ _ _ _, _ _ (log _ _ _) => exact Hlog
  | |- ∀ _, keeps _ _ => intros ?
  | |- _ => idtac
  end.

Section KeepsDriver.

Variable env : Env.

(** *** Code that writes no record *)

Lemma same_store__find_src_volume v :
  keeps same_store (_find_src_volume env v).
Proof. unfold _find_src_volume. repeat keeps_step same_store_log. Qed.

Lemma same_store__disconnect_volume v :
  keeps same_store (_disconnect_volume env v).
Proof.
  unfold _disconnect_volume, _get_connector.
  repeat keeps_step same_store_log.
Qed.

(** *** The logs only grow *)

Lemma extends_volume_save v : keeps extends (volume_save env v).
Proof.
  apply keeps_bind; [exact _|apply keeps_call, extends_log|].
  intros _ w. unfold act. destruct (db w !! Volume.id v); [|done].
  simpl. etrans; [apply extends_write|apply extends_log_ms].
Qed.

Lemma extends_volume_destroy v : keeps extends (volume_destroy env v).
Proof.
  apply keeps_bind; [exact _|apply keeps_call, extends_log|].
  intros _ w. apply extends_write.
Qed.

Lemma extends_volume_create v : keeps extends (volume_create env v).
Proof.
  intros w. unfold volume_create. run.
  pose proof (call_world env (DbCreate (created (fresh_id env (db w)) v)) w)
    as Hw.
  destruct (call env _ w) as [[[]|?|] w1]; simpl in Hw; subst w1;
    [|apply extends_log..].
  cbn [db log]. destruct (db w !! _); simpl; [apply extends_log|].
  etrans; [apply extends_log|apply extends_write].
Qed.

End KeepsDriver.

(** Steps through any program of the driver, for [extends]. *)
Ltac extends_step :=
  lazymatch goal with
  | |- keeps _ (volume_save _ _) => apply extends_volume_save
  | |- keeps _ (volume_destroy _ _) => apply extends_volume_destroy
  | |- keeps _ (volume_create _ _) => apply extends_volume_create
  | |- _ => keeps_step extends_log
  end.

Section ExtendsDriver.

Variable env : Env.

Lemma extends__find_src_volume v : keeps extends (_find_src_volume env v).
Proof. unfold _find_src_volume. repeat extends_step. Qed.

Lemma extends__disconnect_volume v : keeps extends (_disconnect_volume env v).
Proof. unfold _disconnect_volume, _get_connector. repeat extends_step. Qed.

Lemma extends__switch_volumes v o : keeps extends (_switch_volumes env v o).
Proof. unfold _switch_volumes. repeat extends_step. Qed.

Lemma extends_abandon_destination {A} v nv :
  keeps extends (abandon_destination env v nv : M World A).
Proof. unfold abandon_destination. repeat extends_step. Qed.

Lemma extends_wait_loop fuel deadline tries v nv :
  keeps extends (wait_loop env fuel deadline tries v nv).
Proof.
  revert tries nv. induction fuel as [|fuel IH]; intros tries nv; simpl.
  - destruct (String.eqb _ _); [extends_step|by intros w].
  - destruct (String.eqb _ _); [extends_step|].
    extends_step; [extends_step|].
    extends_step; [apply extends_abandon_destination|].
    extends_step; [extends_step|].
    extends_step; [extends_step|apply IH].
Qed.

Lemma extends_await_destination fuel v nv :
  keeps extends (await_destination env fuel v nv).
Proof.
  unfold await_destination. repeat extends_step. apply extends_wait_loop.
Qed.

Lemma extends_adopt_destination v nv :
  keeps extends (adopt_destination env v nv).
Proof.
  unfold adopt_destination. repeat extends_step.
  apply extends__switch_volumes.
Qed.

Lemma extends_migrate_to fuel v nv : keeps extends (migrate_to env fuel v nv).
Proof.
  unfold migrate_to. repeat extends_step.
  - apply extends_await_destination.
  - apply extends_adopt_destination.
Qed.

End ExtendsDriver.

(** ** The pointer to the destination *)

(** No record points, through [target:<id>], to a record that does not
    exist. *)
Definition no_dangling (d : gmap string Volume.t) : Prop :=
  ∀ k v x,
    d !! k = Some v →
    Volume.migration_status v = Some ("target:" +:+ x) →
    is_Some (d !! x).

Lemma no_dangling_insert_plain d k v :
  no_dangling d →
  (∀ x, Volume.migration_status v ≠ Some ("target:" +:+ x)) →
  no_dangling (<[k := v]> d).
Proof.
  intros Hd Hv k' v' x Hk' Hms.
  destruct (decide (k = k')) as [->|Hne].
  - rewrite lookup_insert_eq in Hk'. injection Hk' as <-. by destruct (Hv x).
  - rewrite lookup_insert_ne in Hk' by done.
    apply lookup_insert_is_Some'. right. by eapply Hd.
Qed.

Lemma no_dangling_insert_pointer d k v x :
  no_dangling d →
  Volume.migration_status v = Some ("target:" +:+ x) →
  is_Some (<[k := v]> d !! x) →
  no_dangling (<[k := v]> d).
Proof.
  intros Hd Hv Hx k' v' x' Hk' Hms.
  destruct (decide (k = k')) as [->|Hne].
  - rewrite lookup_insert_eq in Hk'. injection Hk' as <-.
    rewrite Hv in Hms. injection Hms as Hms.
    change (x = x') in Hms. by subst x'.
  - rewrite lookup_insert_ne in Hk' by done.
    apply lookup_insert_is_Some'. right. by eapply Hd.
Qed.

Lemma initial_migration_status_plain st x :
  initial_migration_status st ≠ Some ("target:" +:+ x).
Proof.
  unfold initial_migration_status.
  destruct (String.eqb st "reserved"); [discriminate|].
  destruct (String.eqb st "in-use"); discriminate.
Qed.

(** ** Runs that return *)

Lemma bind_ok_inv {S A B} (m : M S A) (k : A → M S B) s b s' :
  (m ≫= k) s = (Ok b, s') →
  ∃ a s1, m s = (Ok a, s1) ∧ k a s1 = (Ok b, s').
Proof.
  rewrite run_bind. destruct (m s) as [[a|e|] s1]; [by eauto|done..].
Qed.

Section Returns.

Variable env : Env.

Lemma call_ok_inv e w u w' :
  call env e w = (Ok u, w') →
  w' = log e (Z.of_nat (latency env w e)) w.
Proof.
  unfold call. destruct (fails env w e); [done|]. by intros [= _ <-].
Qed.

Lemma volume_save_ok_inv v w u w' :
  volume_save env v w = (Ok u, w') →
  ∃ old,
    db w !! Volume.id v = Some old
    ∧ w' = log_ms {| mw_id := Volume.id v;
                     mw_old := Volume.migration_status old;
                     mw_new := Volume.migration_status v |}
             (write_db (<[Volume.id v := v]> (db w))
                (log (DbSave v) (Z.of_nat (latency env w (DbSave v))) w)).
Proof.
  unfold volume_save. intros (? & w1 & ->%call_ok_inv & H)%bind_ok_inv.
  unfold act in H. cbn [db log] in H.
  destruct (db w !! Volume.id v) as [old|]; [|done].
  injection H as _ <-. by exists old.
Qed.

Lemma volume_refresh_ok_inv v w v' w' :
  volume_refresh env v w = (Ok v', w') →
  w' = log (DbRefresh (Volume.id v))
         (Z.of_nat (latency env w (DbRefresh (Volume.id v)))) w
  ∧ v' = Volume.set_status (remote_status env w' v) v.
Proof.
  unfold volume_refresh. intros (? & w1 & ->%call_ok_inv & H)%bind_ok_inv.
  unfold act in H. by injection H as <- <-.
Qed.

Lemma _switch_volumes_ok_inv v o w p w' :
  _switch_volumes env v (Some o) w = (Ok p, w') →
  ∃ old1 old2,
    p = (swapped v o, swapped o v)
    ∧ db w !! Volume.id v = Some old1
    ∧ <[Volume.id v := swapped v o]> (db w) !! Volume.id o = Some old2
    ∧ db w' = <[Volume.id o := swapped o v]>
                (<[Volume.id v := swapped v o]> (db w))
    ∧ snapshots w' =
        snapshots w
        ++ [<[Volume.id v := swapped v o]> (db w);
            <[Volume.id o := swapped o v]>
              (<[Volume.id v := swapped v o]> (db w))]
    ∧ ms_log w' =
        ms_log w
        ++ [{| mw_id := Volume.id v;
               mw_old := Volume.migration_status old1;
               mw_new := Volume.migration_status v |};
            {| mw_id := Volume.id o;
               mw_old := Volume.migration_status old2;
               mw_new := Volume.migration_status o |}].
Proof.
  unfold _switch_volumes. rewrite switch_identity_eq.
  intros (p' & w1 & [= <- <-] & H)%bind_ok_inv.
  apply bind_ok_inv in H as (? & w2 & (old1 & Ho1 & ->)%volume_save_ok_inv & H).
  apply bind_ok_inv in H as (? & w3 & (old2 & Ho2 & ->)%volume_save_ok_inv & H).
  injection H as <- <-. exists old1, old2.
  cbn [fst snd db log write_db log_ms snapshots ms_log] in *.
  change (Volume.id (swapped v o)) with (Volume.id v) in *.
  change (Volume.id (swapped o v)) with (Volume.id o) in *.
  rewrite <- !app_assoc. by repeat split.
Qed.

(** Nothing returns from giving up. *)
Lemma abandon_destination_raises {A} v nv w (a : A) :
  (abandon_destination env v nv w).1 ≠ Ok a.
Proof.
  unfold abandon_destination. run.
  destruct (try_except_only _ _ _ w) as [[?|?|] w1]; [|done..].
  run. destruct (volume_destroy env nv w1) as [[?|?|] w2]; [|done..].
  run. destruct (volume_save env _ w2) as [[?|?|] w3]; [|done..].
  by destruct (String.eqb _ _).
Qed.

(** The wait returns only when the destination is seen available, and
    has then written nothing. *)
Lemma wait_loop_ok_inv fuel deadline :
  ∀ tries v nv w nv' w',
    wait_loop env fuel deadline tries v nv w = (Ok nv', w') →
    same_store w w'
    ∧ Volume.id nv' = Volume.id nv
    ∧ Volume.migration_status nv' = Volume.migration_status nv
    ∧ Volume.status nv' = "available".
Proof.
  induction fuel as [|fuel IH]; intros tries v nv w nv' w'; cbn [wait_loop].
  - destruct (String.eqb_spec (Volume.status nv) "available"); [|done].
    by intros [= <- <-].
  - destruct (String.eqb_spec (Volume.status nv) "available").
    { by intros [= <- <-]. }
    unfold time_time at 1. run.
    destruct (_ || _).
    { intros H.
      by destruct (abandon_destination_raises v nv
                     (log (Time (now w)) 0 w) nv'); rewrite H. }
    unfold time_sleep at 1. run.
    match goal with |- context [volume_refresh env nv ?w0] =>
      destruct (volume_refresh env nv w0) as [[nv2|?|] w2] eqn:E; [|done..]
    end.
    apply volume_refresh_ok_inv in E as [-> ->].
    intros (Hs & Hid & Hms & Hst)%IH. split; [|by repeat split].
    destruct Hs as (? & ? & ?). by repeat split.
Qed.

End Returns.

Section Pointer.

Variable env : Env.

(** The records after the destination has been adopted: the saved
    destination, then the two records with their identities swapped. *)
Definition adopted_snapshots (d : gmap string Volume.t)
    (pointer nv : Volume.t) : list (gmap string Volume.t) :=
  let kept :=
    Volume.set_display_description
      (Some ("migration src for " +:+ Volume.id pointer))
      (Volume.set_status "maintenance" nv) in
  let d3 := <[Volume.id nv := kept]> d in
  let d4 := <[Volume.id pointer := swapped pointer kept]> d3 in
  let d5 := <[Volume.id nv := swapped kept pointer]> d4 in
  [d3; d4; d5].

Lemma adopt_destination_ok_inv pointer nv w v' w' :
  adopt_destination env pointer nv w = (Ok v', w') →
  snapshots w' = snapshots w ++ adopted_snapshots (db w) pointer nv.
Proof.
  unfold adopt_destination.
  intros (? & w1 & (old & Hold & ->)%volume_save_ok_inv & H)%bind_ok_inv.
  apply bind_ok_inv in H as (p & w2 & H & [= <- <-]).
  apply _switch_volumes_ok_inv in H as (? & ? & _ & _ & _ & _ & Hs & _).
  rewrite Hs. cbn [snapshots db log write_db log_ms].
  by rewrite <- app_assoc.
Qed.

Lemma await_destination_ok_inv fuel pointer nv w nv' w' :
  await_destination env fuel pointer nv w = (Ok nv', w') →
  same_store w w'
  ∧ Volume.id nv' = Volume.id nv
  ∧ Volume.migration_status nv' = Volume.migration_status nv.
Proof.
  unfold await_destination, time_time. run.
  match goal with |- context [volume_refresh env nv ?w0] =>
    destruct (volume_refresh env nv w0) as [[nv2|?|] w2] eqn:E; [|done..]
  end.
  apply volume_refresh_ok_inv in E as [-> ->].
  intros ((? & ? & ?) & Hid & Hms & _)%wait_loop_ok_inv.
  by repeat split.
Qed.

Lemma adopted_snapshots_no_dangling d pointer nv x :
  no_dangling d →
  Volume.migration_status pointer = Some ("target:" +:+ x) →
  x = Volume.id nv →
  (∀ y, Volume.migration_status nv ≠ Some ("target:" +:+ y)) →
  Forall no_dangling (adopted_snapshots d pointer nv).
Proof.
  intros Hd Hp -> Hnv. unfold adopted_snapshots. cbv zeta.
  assert (no_dangling
            (<[Volume.id nv :=
                 Volume.set_display_description
                   (Some ("migration src for " +:+ Volume.id pointer))
                   (Volume.set_status "maintenance" nv)]> d)) as H3.
  { by apply no_dangling_insert_plain. }
  match type of H3 with no_dangling ?d => set (d3 := d) in * end.
  assert (no_dangling
            (<[Volume.id pointer :=
                 swapped pointer
                   (Volume.set_display_description
                      (Some ("migration src for " +:+ Volume.id pointer))
                      (Volume.set_status "maintenance" nv))]> d3)) as H4.
  { eapply no_dangling_insert_pointer; [done|exact Hp|].
    apply lookup_insert_is_Some'. right. subst d3.
    rewrite lookup_insert_eq. by eexists. }
  match type of H4 with no_dangling ?d => set (d4 := d) in * end.
  repeat constructor; [done..|].
  by apply no_dangling_insert_plain.
Qed.

(** Closes a run that stopped before the remote creation was requested. *)
Local Ltac stopped_early :=
  do 2 eexists;
  cbn [fst snd trace snapshots db log write_db log_ms];
  rewrite <- ?app_assoc;
  split; [reflexivity|];
  split; [first [symmetry; apply app_nil_r | reflexivity]|];
  intros [x Hx]; exfalso; cbn [app] in Hx;
  repeat (apply elem_of_cons in Hx as [Hx|Hx]; [discriminate Hx|]);
  by apply elem_of_nil in Hx.

(** C5 (amended). In the remote branch of [initialize_connection] the
    destination record is created first, then the origin is saved with
    [migration_status = target:<new-id>], and only then is the remote
    creation requested: when that request is among the calls of a run,
    the calls begin with these, in this order, and the records have been
    written exactly twice before it, first with the destination and
    then with the pointer as well.  If no pointer dangles before the
    call, none dangles in these two states, nor in any later one when
    the call returns. *)
Theorem pointer_published_in_order (fuel : nat) (w : World)
    (volume : Volume.t) (conn : Connector) :
  let out := initialize_connection env fuel volume conn w in
  ∃ new shots,
    trace out.2 = trace w ++ new
    ∧ snapshots out.2 = snapshots w ++ shots
    ∧ ((∃ x, RpcCreateVolume x ∈ new) →
       ∃ key nv rest later,
         let pointer :=
           Volume.set_migration_status
             (Some ("target:" +:+ Volume.id nv)) volume in
         let d1 := <[Volume.id nv := nv]> (db w) in
         let d2 := <[Volume.id volume := pointer]> d1 in
         new = [TargetInitializeConnection volume; ServiceGetByArgs key;
                DbCreate nv; DbSave pointer; RpcCreateVolume nv] ++ rest
         ∧ shots = [d1; d2] ++ later
         ∧ (no_dangling (db w) →
            no_dangling d1 ∧ no_dangling d2
            ∧ ((∃ a, out.1 = Ok a) → Forall no_dangling later))).
Proof.
  cbv zeta. unfold initialize_connection. run.
  destruct (String.eqb _ _).
  { step_call env; stopped_early. }
  unfold initialize_connection_remote.
  step_call env; [|stopped_early..].
  destruct (backend_of (Volume.host volume)) as [b| |]; run;
    [|stopped_early..].
  unfold service_get_by_args.
  step_call env; [|stopped_early..].
  unfold volume_create. run.
  match goal with |- context [DbCreate ?x] => set (nv := x) end.
  match goal with |- context [call env (DbCreate nv) ?w0] =>
    set (w2 := w0) end.
  assert (db w2 = db w ∧ snapshots w2 = snapshots w
          ∧ trace w2 = trace w ++ [TargetInitializeConnection volume;
              ServiceGetByArgs (extract_host env
                (Some (connector_host conn +:+ "@" +:+ b)) "backend")])
    as (Hd2 & Hs2 & Ht2).
  { subst w2. cbn [db snapshots trace log]. by rewrite <- app_assoc. }
  clearbody w2.
  step_call env;
    [|do 2 eexists; cbn [fst snd trace snapshots log];
      rewrite Ht2, Hs2, <- ?app_assoc;
      (split; [reflexivity|]); (split; [symmetry; apply app_nil_r|]);
      intros [x Hx]; exfalso; cbn [app] in Hx;
      repeat (apply elem_of_cons in Hx as [Hx|Hx]; [discriminate Hx|]);
      by apply elem_of_nil in Hx..].
  cbn [db log]. rewrite ?Hd2.
  destruct (db w !! fresh_id env (db w)) eqn:Hfresh; run.
  { do 2 eexists; cbn [fst snd trace snapshots log];
      rewrite Ht2, Hs2, <- ?app_assoc;
      (split; [reflexivity|]); (split; [symmetry; apply app_nil_r|]).
    intros [x Hx]; exfalso; cbn [app] in Hx;
      repeat (apply elem_of_cons in Hx as [Hx|Hx]; [discriminate Hx|]);
      by apply elem_of_nil in Hx. }
  unfold migrate_to. run.
  set (pointer := Volume.set_migration_status
                    (Some ("target:" +:+ Volume.id nv)) volume).
  unfold volume_save.
  step_call env;
    [|do 2 eexists; cbn [fst snd trace snapshots log write_db];
      rewrite Ht2, Hs2, <- ?app_assoc;
      (split; [reflexivity|]); (split; [reflexivity|]);
      intros [x Hx]; exfalso; cbn [app] in Hx;
      repeat (apply elem_of_cons in Hx as [Hx|Hx]; [discriminate Hx|]);
      by apply elem_of_nil in Hx..].
  cbn [db log write_db]. rewrite ?Hd2.
  change (Volume.id pointer) with (Volume.id volume).
  destruct (_ !! Volume.id volume) as [old|] eqn:Hold; run.
  2: { do 2 eexists; cbn [fst snd trace snapshots log write_db];
      rewrite Ht2, Hs2, <- ?app_assoc;
      (split; [reflexivity|]); (split; [reflexivity|]).
    intros [x Hx]; exfalso; cbn [app] in Hx;
      repeat (apply elem_of_cons in Hx as [Hx|Hx]; [discriminate Hx|]);
      by apply elem_of_nil in Hx. }
  (* the pointer is stored: the remote creation is requested *)
  assert (fresh_id env (db w) = Volume.id nv) as Hnid by done.
  rewrite ?Hnid.
  assert (no_dangling (db w) →
          no_dangling (<[Volume.id nv := nv]> (db w))
          ∧ no_dangling (<[Volume.id volume := pointer]>
                           (<[Volume.id nv := nv]> (db w)))) as Hnd.
  { intros Hd.
    assert (no_dangling (<[Volume.id nv := nv]> (db w))) as H1.
    { apply no_dangling_insert_plain; [done|]. intros y.
      apply initial_migration_status_plain. }
    split; [done|].
    eapply no_dangling_insert_pointer; [done|reflexivity|].
    apply lookup_insert_is_Some'. right. rewrite lookup_insert_eq.
    by eexists. }
  match goal with |- context [call env (RpcCreateVolume nv) ?w0] =>
    set (w4 := w0) end.
  assert (db w4 = <[Volume.id volume := pointer]>
                    (<[Volume.id nv := nv]> (db w))
          ∧ snapshots w4 = snapshots w
              ++ [<[Volume.id nv := nv]> (db w);
                  <[Volume.id volume := pointer]>
                    (<[Volume.id nv := nv]> (db w))]
          ∧ trace w4 = trace w ++ [TargetInitializeConnection volume;
              ServiceGetByArgs (extract_host env
                (Some (connector_host conn +:+ "@" +:+ b)) "backend");
              DbCreate nv; DbSave pointer])
    as (Hd4 & Hs4 & Ht4).
  { subst w4. cbn [db snapshots trace log write_db log_ms].
    rewrite Ht2, Hs2, <- !app_assoc. done. }
  clearbody w4.
  run.
  match goal with
  | |- context [call env ?e ?w0] =>
      pose proof (call_world env e w0) as Hw;
      destruct (call env e w0) as [[[]|?|] w5];
      cbn [snd] in Hw; subst w5; cbv beta iota
  end.
  - (* the request went through *)
    match goal with
    | |- context [(await_destination env fuel pointer nv ≫= ?k) ?w0] =>
        set (K := await_destination env fuel pointer nv ≫= k);
        set (w5 := w0)
    end.
    assert (keeps extends K) as Hext.
    { apply keeps_bind; [exact _|apply extends_await_destination|].
      intros ?. apply extends_adopt_destination. }
    destruct (Hext w5) as ([rest Hrest] & [later Hlater] & _).
    destruct (K w5) as [[v'|e|] w'] eqn:E; run; cbn [fst snd] in *.
    + exists ([TargetInitializeConnection volume;
         ServiceGetByArgs (extract_host env
           (Some (connector_host conn +:+ "@" +:+ b)) "backend");
         DbCreate nv; DbSave pointer; RpcCreateVolume nv] ++ rest),
        ([<[Volume.id nv := nv]> (db w);
          <[Volume.id volume := pointer]> (<[Volume.id nv := nv]> (db w))]
         ++ later).
      split.
      { rewrite Hrest. subst w5. cbn [trace log]. rewrite Ht4.
        by rewrite <- !app_assoc. }
      split.
      { rewrite Hlater. subst w5. cbn [snapshots log]. rewrite Hs4.
        by rewrite <- !app_assoc. }
      intros _. eexists _, nv, rest, later.
      split; [reflexivity|]. split; [reflexivity|].
      intros Hd. destruct (Hnd Hd) as [H1 H2]. split; [done|].
      split; [done|]. intros _.
      apply bind_ok_inv in E as (nv' & w6 & Ha & Hb).
      apply await_destination_ok_inv in Ha as ((Hdb6 & Hs6 & _) & Hid & Hms).
      apply adopt_destination_ok_inv in Hb.
      rewrite Hs6 in Hb. rewrite Hb in Hlater.
      apply app_inv_head in Hlater. subst later.
      rewrite Hdb6. subst w5. cbn [db log]. rewrite Hd4.
      eapply adopted_snapshots_no_dangling; [done|reflexivity|done|].
      intros y. rewrite Hms. apply initial_migration_status_plain.
    + exists ([TargetInitializeConnection volume;
         ServiceGetByArgs (extract_host env
           (Some (connector_host conn +:+ "@" +:+ b)) "backend");
         DbCreate nv; DbSave pointer; RpcCreateVolume nv] ++ rest),
        ([<[Volume.id nv := nv]> (db w);
          <[Volume.id volume := pointer]> (<[Volume.id nv := nv]> (db w))]
         ++ later).
      split.
      { rewrite Hrest. subst w5. cbn [trace log]. rewrite Ht4.
        by rewrite <- !app_assoc. }
      split.
      { rewrite Hlater. subst w5. cbn [snapshots log]. rewrite Hs4.
        by rewrite <- !app_assoc. }
      intros _. eexists _, nv, rest, later.
      split; [reflexivity|]. split; [reflexivity|].
      intros Hd. destruct (Hnd Hd) as [H1 H2]. split; [done|].
      split; [done|]. by intros [? ?].
    + exists ([TargetInitializeConnection volume;
         ServiceGetByArgs (extract_host env
           (Some (connector_host conn +:+ "@" +:+ b)) "backend");
         DbCreate nv; DbSave pointer; RpcCreateVolume nv] ++ rest),
        ([<[Volume.id nv := nv]> (db w);
          <[Volume.id volume := pointer]> (<[Volume.id nv := nv]> (db w))]
         ++ later).
      split.
      { rewrite Hrest. subst w5. cbn [trace log]. rewrite Ht4.
        by rewrite <- !app_assoc. }
      split.
      { rewrite Hlater. subst w5. cbn [snapshots log]. rewrite Hs4.
        by rewrite <- !app_assoc. }
      intros _. eexists _, nv, rest, later.
      split; [reflexivity|]. split; [reflexivity|].
      intros Hd. destruct (Hnd Hd) as [H1 H2]. split; [done|].
      split; [done|]. by intros [? ?].
  - (* the request itself failed *)
    run. eexists _, _. cbn [fst snd trace snapshots log].
    rewrite Ht4, Hs4, <- !app_assoc.
    split; [reflexivity|]. split; [reflexivity|].
    intros _. eexists _, nv, [], [].
    split; [reflexivity|]. split; [reflexivity|].
    intros Hd. destruct (Hnd Hd) as [H1 H2]. split; [done|].
    split; [done|]. by intros [? ?].
  - run. eexists _, _. cbn [fst snd trace snapshots log].
    rewrite Ht4, Hs4, <- !app_assoc.
    split; [reflexivity|]. split; [reflexivity|].
    intros _. eexists _, nv, [], [].
    split; [reflexivity|]. split; [reflexivity|].
    intros Hd. destruct (Hnd Hd) as [H1 H2]. split; [done|].
    split; [done|]. by intros [? ?].
Qed.

End Pointer.

Module AttachSample.

(** The destination is seen ['available'] at the first refresh. *)
Definition env : Env := Sample.env_of "" (fun _ => None) (Some "available").

Definition a := Sample.vol "a" "in-use" None.
Definition conn : Connector := {| connector_host := "hostB" |}.
Definition w : World := Sample.world [a].

End AttachSample.

Lemma sample_no_dangling : no_dangling (db AttachSample.w).
Proof.
  intros k v x Hk Hms. simpl in Hk.
  apply lookup_insert_Some in Hk as [[<- <-]|[_ Hk]]; [discriminate Hms|].
  by rewrite lookup_empty in Hk.
Qed.

Lemma pointer_published_in_order_witness :
  let out := initialize_connection AttachSample.env 7 AttachSample.a
               AttachSample.conn AttachSample.w in
  out.1 = Ok "/dev/mapper/volume-new-handle"
  ∧ length (snapshots out.2) = 5%nat
  ∧ Forall no_dangling (snapshots out.2).
Proof.
  intros out. split; [vm_compute; reflexivity|].
  split; [vm_compute; reflexivity|].
  destruct (pointer_published_in_order AttachSample.env 7 AttachSample.w
              AttachSample.a AttachSample.conn)
    as (new & shots & Et & Es & H).
  fold out in Et, Es, H.
  destruct H as (key & nv & rest & later & _ & -> & Hnd).
  { assert (trace out.2 = trace AttachSample.w ++ trace out.2) as E by done.
    rewrite Et in E at 1. apply app_inv_head in E. rewrite E.
    eexists. vm_compute. do 4 apply list_elem_of_further.
    apply list_elem_of_here. }
  cbv zeta in Hnd. destruct (Hnd sample_no_dangling) as (H1 & H2 & H3).
  rewrite Es. simpl. constructor; [exact H1|]. constructor; [exact H2|].
  apply H3. eexists. vm_compute. reflexivity.
Defined.

(** C5, as the specification has it: when the wait for the destination
    times out, the destination record is destroyed before the origin's
    pointer is overwritten; among the states of the records there is one
    where ["a"] points to ["new"] and ["new"] does not exist. *)
Lemma pointer_dangles_after_timeout :
  let out := initialize_connection WaitSample.env 7 WaitSample.a
               WaitSample.conn WaitSample.w in
  no_dangling (db WaitSample.w)
  ∧ ∃ d o,
      d ∈ snapshots out.2
      ∧ d !! "a" = Some o
      ∧ Volume.migration_status o = Some "target:new"
      ∧ d !! "new" = None
      ∧ ¬ no_dangling d.
Proof.
  intros out. split; [exact sample_no_dangling|].
  exists (default ∅ (snapshots out.2 !! 2%nat)),
    (Volume.set_migration_status (Some "target:new") WaitSample.a).
  assert (default ∅ (snapshots out.2 !! 2%nat) !! "a"
          = Some (Volume.set_migration_status (Some "target:new")
                    WaitSample.a)) as Ha by (vm_compute; reflexivity).
  assert (default ∅ (snapshots out.2 !! 2%nat) !! "new" = None) as Hn
    by (vm_compute; reflexivity).
  split; [|split; [exact Ha|split; [reflexivity|split; [exact Hn|]]]].
  - apply list_elem_of_lookup. exists 2%nat. vm_compute. reflexivity.
  - intros Hd. destruct (Hd "a" _ "new" Ha eq_refl) as [? Hx].
    rewrite Hn in Hx. discriminate Hx.
Qed.

(** ** The changes of [migration_status] *)

(** The graph of the specification:
    none → starting|migrating → target:X → completing → success|error. *)
Inductive spec_edge : option string → option string → Prop :=
| spec_starting : spec_edge None (Some "starting")
| spec_migrating : spec_edge None (Some "migrating")
| spec_target_of_starting x :
    spec_edge (Some "starting") (Some ("target:" +:+ x))
| spec_target_of_migrating x :
    spec_edge (Some "migrating") (Some ("target:" +:+ x))
| spec_completing x : spec_edge (Some ("target:" +:+ x)) (Some "completing")
| spec_success : spec_edge (Some "completing") (Some "success")
| spec_error : spec_edge (Some "completing") (Some "error").

(** The changes the driver makes. *)
Inductive driver_edge : option string → option string → Prop :=
(* initialize_connection: the origin points to the new record *)
| edge_publish old x : driver_edge old (Some ("target:" +:+ x))
(* initialize_connection: the wait for the destination failed *)
| edge_abandon x : driver_edge (Some ("target:" +:+ x)) (Some "error")
(* create_volume: the migration branch failed *)
| edge_create_failed old :
    old = "starting" ∨ old = "migrating" →
    driver_edge (Some old) (Some "error")
(* the monitor: finalization *)
| edge_completing x : driver_edge (Some ("target:" +:+ x)) (Some "completing")
| edge_success : driver_edge (Some "completing") (Some "success")
(* terminate_connection: the attachment is undone *)
| edge_roll_back x : driver_edge (Some ("target:" +:+ x)) None
(* terminate_connection: the paired record starts hydrating *)
| edge_hydrate old : driver_edge old (Some "migrating").

(** A write that stores the value already there, or follows an edge. *)
Definition allowed (m : ms_write) : Prop :=
  mw_old m = mw_new m ∨ driver_edge (mw_old m) (mw_new m).

(** The writes logged between two worlds are allowed. *)
Definition log_ok (w w' : World) : Prop :=
  ∃ new, ms_log w' = ms_log w ++ new ∧ Forall allowed new.

Global Instance log_ok_po : PreOrder log_ok.
Proof.
  split.
  - intros w. exists []. by rewrite app_nil_r.
  - intros w1 w2 w3 (n1 & E1 & F1) (n2 & E2 & F2).
    exists (n1 ++ n2). rewrite E2, E1, app_assoc. split; [done|].
    by apply Forall_app.
Qed.

Lemma log_ok_same_store w w' : same_store w w' → log_ok w w'.
Proof. intros (_ & _ & E). exists []. by rewrite app_nil_r. Qed.

(** [triple P m Q]: started with records satisfying [P], [m] logs only
    allowed writes, and when it returns [a] the records satisfy [Q a]. *)
Definition triple {A} (P : gmap string Volume.t → Prop) (m : M World A)
    (Q : A → gmap string Volume.t → Prop) : Prop :=
  ∀ w, P (db w) →
       log_ok w (m w).2 ∧ ∀ a, (m w).1 = Ok a → Q a (db (m w).2).

Section Triples.

Variable env : Env.

Lemma triple_conseq {A} P P' (m : M World A) Q Q' :
  triple P m Q → (∀ d, P' d → P d) → (∀ a d, Q a d → Q' a d) →
  triple P' m Q'.
Proof.
  intros H HP HQ w Hw. destruct (H w (HP _ Hw)) as [Hl Hq].
  split; [done|]. intros a Ha. by apply HQ, Hq.
Qed.

Lemma triple_bind {A B} P (m : M World A) Q (k : A → M World B) Q' :
  triple P m Q → (∀ a, triple (Q a) (k a) Q') → triple P (m ≫= k) Q'.
Proof.
  intros Hm Hk w Hw. rewrite run_bind.
  destruct (Hm w Hw) as [Hl Hq].
  destruct (m w) as [[a|e|] w1]; simpl in *; [|done..].
  destruct (Hk a w1 (Hq a eq_refl)) as [Hl' Hq'].
  split; [by etrans|done].
Qed.

(** Code that writes nothing keeps the assertion; [V] is what is known
    of the value it returns. *)
Lemma triple_pure {A} P (m : M World A) (V : A → gmap string Volume.t → Prop) :
  keeps same_store m →
  (∀ w a w', m w = (Ok a, w') → V a (db w)) →
  triple P m (λ a d, P d ∧ V a d).
Proof.
  intros Hm HV w Hw. destruct (Hm w) as (Hd & Hs & Hl).
  split; [by apply log_ok_same_store|].
  intros a Ha. rewrite Hd. split; [done|].
  apply (HV w a (m w).2). rewrite <- Ha. by destruct (m w).
Qed.

Lemma triple_pure_ {A} P (m : M World A) :
  keeps same_store m → triple P m (λ _ d, P d).
Proof.
  intros Hm. eapply triple_conseq.
  - apply (triple_pure P m (λ _ _, True) Hm). done.
  - done.
  - by intros a d [? _].
Qed.

Lemma triple_ret {A} P (a : A) : triple P (mret a) (λ b d, P d ∧ b = a).
Proof.
  intros w Hw. split; [done|]. intros b [= <-]. done.
Qed.

Lemma triple_raise {A} P (e : exn) Q : triple P (raise e : M World A) Q.
Proof. intros w Hw. split; [done|]. intros b [=]. Qed.

Lemma triple_call P e : triple P (call env e) (λ _ d, P d).
Proof. apply triple_pure_. intros w. by rewrite call_world. Qed.

Lemma triple_volume_save P v (Q : unit → gmap string Volume.t → Prop) :
  (∀ d old,
     P d → d !! Volume.id v = Some old →
     allowed {| mw_id := Volume.id v;
                mw_old := Volume.migration_status old;
                mw_new := Volume.migration_status v |}
     ∧ Q tt (<[Volume.id v := v]> d)) →
  triple P (volume_save env v) Q.
Proof.
  intros H w Hw. unfold volume_save. rewrite run_bind.
  pose proof (call_world env (DbSave v) w) as Hc.
  destruct (call env _ w) as [[[]|?|] w1]; simpl in Hc; subst w1;
    [|split; [by apply log_ok_same_store|done]..].
  unfold act. cbn [db log].
  destruct (db w !! Volume.id v) as [old|] eqn:Hold;
    [|split; [by apply log_ok_same_store|done]].
  destruct (H _ _ Hw Hold) as [Ha Hq]. simpl. split.
  - eexists [_]. split; [reflexivity|]. by constructor.
  - by intros [] _.
Qed.

Lemma triple_volume_destroy P v :
  triple P (volume_destroy env v) (λ _ d, ∃ d0, P d0 ∧ d = delete (Volume.id v) d0).
Proof.
  intros w Hw. unfold volume_destroy. rewrite run_bind.
  pose proof (call_world env (DbDestroy (Volume.id v)) w) as Hc.
  destruct (call env _ w) as [[[]|?|] w1]; simpl in Hc; subst w1;
    [|split; [by apply log_ok_same_store|done]..].
  unfold act. simpl. split.
  - exists []. by rewrite app_nil_r.
  - intros _ _. by exists (db w).
Qed.

Lemma triple_volume_create P v :
  triple P (volume_create env v)
    (λ v' d, ∃ d0, P d0 ∧ d0 !! Volume.id v' = None
                   ∧ v' = created (Volume.id v') v
                   ∧ d = <[Volume.id v' := v']> d0).
Proof.
  intros w Hw. unfold volume_create. run.
  pose proof (call_world env (DbCreate (created (fresh_id env (db w)) v)) w)
    as Hc.
  destruct (call env _ w) as [[[]|?|] w1]; simpl in Hc; subst w1;
    [|split; [by apply log_ok_same_store|done]..].
  cbn [db log]. destruct (db w !! fresh_id env (db w)) eqn:Hf;
    [split; [by apply log_ok_same_store|done]|].
  simpl. split.
  - exists []. by rewrite app_nil_r.
  - intros a [= <-]. by exists (db w).
Qed.

End Triples.

(** Every record is stored under its own id. *)
Definition well_keyed (d : gmap string Volume.t) : Prop :=
  ∀ k v, d !! k = Some v → Volume.id v = k.

Lemma well_keyed_insert d v :
  well_keyed d → well_keyed (<[Volume.id v := v]> d).
Proof.
  intros Hd k v' Hk. destruct (decide (Volume.id v = k)) as [<-|Hne].
  - rewrite lookup_insert_eq in Hk. by injection Hk as <-.
  - rewrite lookup_insert_ne in Hk by done. by apply Hd.
Qed.

Lemma is_target_pointer ms :
  is_target ms = true → ∃ x, ms = Some ("target:" +:+ x).
Proof.
  destruct ms as [s|]; [|done]. simpl.
  intros [r ->]%startswith_target. by exists r.
Qed.

Section Detach.

Variable env : Env.

Lemma _find_src_volume_found v w s w' :
  _find_src_volume env v w = (Ok (Some s), w') →
  ∃ sid, db w !! sid = Some s.
Proof.
  unfold _find_src_volume.
  destruct (Volume.migration_status v) as [ms|]; [|done]. run.
  destruct (index _ _) as [sid| |]; [|done..]. run.
  unfold try_except_only, try_except, get_by_id. run.
  pose proof (call_world env (DbGetById sid) w) as Hc.
  destruct (call env _ w) as [[[]|?|] w1]; simpl in Hc; subst w1; run.
  - cbn [db log]. destruct (db w !! sid) as [s'|] eqn:Hs; run.
    + intros [= <- _]. by exists sid.
    + rewrite decide_True by done. done.
  - case_decide; done.
  - done.
Qed.

Lemma triple__find_src_volume P v :
  triple P (_find_src_volume env v)
    (λ src d, P d ∧ ∀ s, src = Some s → ∃ sid, d !! sid = Some s).
Proof.
  apply triple_pure; [apply same_store__find_src_volume|].
  intros w src w' H s ->. by eapply _find_src_volume_found.
Qed.

(** The swap writes both records with the [migration_status] they had. *)
Lemma triple__switch_volumes P v o :
  (∀ d old, P d → d !! Volume.id v = Some old →
            Volume.migration_status old = Volume.migration_status v) →
  (∀ d old, P d →
            <[Volume.id v := swapped v o]> d !! Volume.id o = Some old →
            Volume.migration_status old = Volume.migration_status o) →
  triple P (_switch_volumes env v (Some o))
    (λ p d, p = (swapped v o, swapped o v)
            ∧ ∃ d0, P d0
                    ∧ d = <[Volume.id o := swapped o v]>
                            (<[Volume.id v := swapped v o]> d0)).
Proof.
  intros H1 H2. unfold _switch_volumes. rewrite switch_identity_eq.
  eapply triple_bind.
  { apply (triple_pure P (lift_res (Ok (swapped v o, swapped o v)))
             (λ p _, p = (swapped v o, swapped o v))); [done|].
    by intros w a w' [= <- _]. }
  intros p. eapply triple_bind.
  { apply (triple_volume_save env _ p.1
             (λ _ d, p = (swapped v o, swapped o v)
                     ∧ ∃ d0, P d0 ∧ d = <[Volume.id v := swapped v o]> d0)).
    intros d old [Hd Hp] Hold. rewrite Hp in Hold |- *. cbn [fst] in *.
    change (Volume.id (swapped v o)) with (Volume.id v) in *.
    split; [left; by apply (H1 d)|]. split; [done|]. by exists d. }
  intros ?. eapply triple_bind.
  { apply (triple_volume_save env _ p.2
             (λ _ d, p = (swapped v o, swapped o v)
                     ∧ ∃ d0, P d0
                         ∧ d = <[Volume.id o := swapped o v]>
                                 (<[Volume.id v := swapped v o]> d0))).
    intros d old (Hp & d0 & Hd0 & ->) Hold. rewrite Hp in Hold |- *.
    cbn [snd] in *.
    change (Volume.id (swapped o v)) with (Volume.id o) in *.
    split; [left; by apply (H2 d0)|]. split; [done|]. by exists d0. }
  intros ?. eapply triple_conseq;
    [apply triple_ret|intros d H; exact H|].
  by intros q d [Hd ->].
Qed.

(** The record passed to an operation is the stored one. *)
Definition stored (volume : Volume.t) (d : gmap string Volume.t) : Prop :=
  well_keyed d ∧ d !! Volume.id volume = Some volume.

Lemma found_is_stored (volume s : Volume.t) d :
  stored volume d → (∃ sid, d !! sid = Some s) →
  d !! Volume.id s = Some s
  ∧ (Volume.id s = Volume.id volume → s = volume).
Proof.
  intros [Hk Hv] [sid Hs]. rewrite (Hk _ _ Hs). split; [done|].
  intros E. subst sid. congruence.
Qed.

Lemma triple_roll_back volume :
  is_target (Volume.migration_status volume) = true →
  triple (stored volume) (roll_back env volume) (λ _ _, True).
Proof.
  intros [x Hx]%is_target_pointer. unfold roll_back.
  eapply triple_bind; [apply triple__find_src_volume|].
  intros [s|].
  2: { eapply triple_bind;
         [apply (triple_raise _ _ (λ _ _, False))|intros q w []]. }
  eapply triple_bind.
  { apply triple__switch_volumes.
    - intros d old [[Hk Hv] _] Hold. congruence.
    - intros d old [Hst Hs] Hold.
      destruct (found_is_stored volume s d Hst (Hs s eq_refl)) as [Hds Heq].
      destruct (decide (Volume.id volume = Volume.id s)) as [E|Hne].
      + rewrite E, lookup_insert_eq in Hold. injection Hold as <-.
        by rewrite (Heq (eq_sym E)).
      + rewrite lookup_insert_ne in Hold by done. congruence. }
  intros p. cbv zeta.
  eapply triple_bind; [apply triple_call|intros ?].
  eapply triple_bind; [apply triple_call|intros ?].
  eapply triple_bind;
    [apply triple_pure_, same_store__disconnect_volume|intros ?].
  eapply triple_bind; [apply triple_call|intros ?].
  apply triple_volume_save.
  intros d old (Hp & d0 & [Hst Hs] & ->) Hold. split; [|done].
  rewrite Hp in Hold |- *. cbn [fst mw_old mw_new] in *.
  change (Volume.id (Volume.set_migration_status None (swapped volume s)))
    with (Volume.id volume) in Hold.
  change (Volume.id (swapped s volume)) with (Volume.id s) in Hold.
  change (Volume.id (swapped volume s)) with (Volume.id volume) in Hold.
  destruct (found_is_stored volume s d0 Hst (Hs s eq_refl)) as [Hds Heq].
  right. simpl.
  assert (Volume.migration_status old = Some ("target:" +:+ x)) as ->.
  { destruct (decide (Volume.id s = Volume.id volume)) as [E|Hne].
    - rewrite E, lookup_insert_eq in Hold. injection Hold as <-.
      by rewrite (Heq E).
    - rewrite lookup_insert_ne, lookup_insert_eq in Hold by done.
      by injection Hold as <-. }
  constructor.
Qed.

Lemma triple_start_hydration volume conn P :
  triple P (start_hydration env volume conn) (λ _ _, True).
Proof.
  unfold start_hydration.
  eapply triple_bind; [apply triple__find_src_volume|].
  intros [s|]; [|apply triple_raise].
  eapply triple_bind; [apply triple_call|intros ?]. cbv zeta.
  eapply triple_bind.
  { apply (triple_volume_save env _ _ (λ _ _, True)).
    intros d old _ _. split; [|done]. right. constructor. }
  intros ?. eapply triple_conseq; [apply triple_call|intros d H; exact H|done].
Qed.

Lemma triple_terminate_connection volume conn :
  triple (stored volume) (terminate_connection env volume conn)
    (λ _ _, True).
Proof.
  unfold terminate_connection.
  destruct (is_target (Volume.migration_status volume)) eqn:Ht.
  - destruct (String.eqb _ _); [by apply triple_roll_back|].
    destruct (String.eqb _ _).
    + destruct conn as [conn|]; [|apply triple_raise].
      destruct (String.eqb _ _);
        [by apply triple_roll_back|apply triple_start_hydration].
    + eapply triple_conseq; [apply triple_ret|intros d H; exact H|done].
  - destruct (String.eqb _ _).
    { eapply triple_conseq;
        [apply triple_call|intros d H; exact H|done]. }
    destruct (_ && _).
    { eapply triple_conseq;
        [apply triple_call|intros d H; exact H|done]. }
    eapply triple_conseq; [apply triple_ret|intros d H; exact H|done].
Qed.

End Detach.

Section MonitorLog.

Variable env : Env.

(** The records other than [v] are those of [d0]. *)
Definition others_as (v : Volume.t) (d0 d : gmap string Volume.t) : Prop :=
  ∀ k, k ≠ Volume.id v → d !! k = d0 !! k.

Lemma others_as_insert v d0 d x :
  others_as v d0 d → others_as v d0 (<[Volume.id v := x]> d).
Proof.
  intros H k Hk. rewrite lookup_insert_ne by done. by apply H.
Qed.

Lemma triple_finalize v d0 :
  is_target (Volume.migration_status v) = true →
  triple (λ d, others_as v d0 d
               ∧ ∃ v0, d !! Volume.id v = Some v0
                       ∧ Volume.migration_status v0
                         = Volume.migration_status v)
    (finalize env v) (λ _ d, others_as v d0 d).
Proof.
  intros [x Hx]%is_target_pointer. unfold finalize.
  eapply triple_bind; [apply triple__find_src_volume|].
  intros src. cbv zeta.
  eapply triple_bind.
  { apply (triple_volume_save env _ _
             (λ _ d, others_as v d0 d
                     ∧ d !! Volume.id v
                       = Some (Volume.set_migration_status
                                 (Some "completing") v))).
    intros d old [[Ho (v0 & Hv0 & Hms)] _] Hold.
    change (Volume.id (Volume.set_migration_status _ v))
      with (Volume.id v) in *.
    split.
    - right. simpl. assert (old = v0) as -> by congruence.
      rewrite Hms, Hx. constructor.
    - split; [by apply others_as_insert|]. by rewrite lookup_insert_eq. }
  intros ?.
  eapply triple_bind; [apply triple_call|intros ?].
  eapply triple_bind; [apply triple_call|intros ?].
  eapply triple_bind; [apply triple_call|intros ?].
  eapply triple_bind; [apply triple_call|intros ?].
  eapply triple_bind.
  { destruct src as [s|].
    - eapply triple_bind;
        [apply triple_pure_, same_store__disconnect_volume|intros ?].
      apply triple_call.
    - apply triple_pure_. by intros w. }
  intros ?. apply triple_volume_save.
  intros d old [Ho Hv] Hold.
  change (Volume.id (Volume.set_migration_status _ _))
    with (Volume.id v) in *.
  split.
  - right. simpl. assert (old = Volume.set_migration_status
                                  (Some "completing") v) as -> by congruence.
    constructor.
  - by apply others_as_insert.
Qed.

Lemma triple_monitor_volume v d0 :
  is_target (Volume.migration_status v) = true →
  triple (λ d, others_as v d0 d
               ∧ ∃ v0, d !! Volume.id v = Some v0
                       ∧ Volume.migration_status v0
                         = Volume.migration_status v)
    (monitor_volume env v) (λ _ d, others_as v d0 d).
Proof.
  intros Ht. unfold monitor_volume.
  eapply triple_bind.
  { apply triple_pure_, keeps_dmsetup_status. exact same_store_log. }
  intros dm_status.
  eapply triple_bind; [apply triple_pure_; by intros w|].
  intros target_type. destruct (negb _).
  { eapply triple_conseq; [apply triple_ret|intros d H; exact H|].
    by intros a d [[? _] _]. }
  eapply triple_bind; [apply triple_pure_; by intros w|].
  intros [|]; [by apply triple_finalize|].
  eapply triple_conseq; [apply triple_ret|intros d H; exact H|].
  by intros a d [[? _] _].
Qed.

Lemma triple_monitor_loop l :
  NoDup (Volume.id <$> l) →
  (∀ v, v ∈ l → is_target (Volume.migration_status v) = true) →
  triple (λ d, ∀ v, v ∈ l →
                    ∃ v0, d !! Volume.id v = Some v0
                          ∧ Volume.migration_status v0
                            = Volume.migration_status v)
    (monitor_loop env l) (λ _ _, True).
Proof.
  unfold monitor_loop.
  induction l as [|v l IH]; intros Hnd Ht; [by intros w Hw|].
  apply NoDup_cons in Hnd as [Hv Hnd].
  intros w Hw. cbn [for_each]. rewrite run_bind.
  destruct (triple_monitor_volume v (db w)
              (Ht v ltac:(apply list_elem_of_here)) w) as [Hl Hq].
  { split; [done|]. apply Hw, list_elem_of_here. }
  destruct (monitor_volume env v w) as [[[]|e|] w1]; simpl in *; [|done..].
  specialize (Hq tt eq_refl).
  destruct (IH Hnd) with (w := w1) as [Hl' _].
  { intros v' Hv'. apply Ht. by apply list_elem_of_further. }
  { intros v' Hv'. rewrite Hq.
    - apply Hw. by apply list_elem_of_further.
    - intros E. apply Hv. rewrite <- E. apply list_elem_of_fmap.
      by exists v'. }
  split; [by etrans|done].
Qed.

Lemma NoDup_fmap_filter {A B} (f : A → B) (P : A → Prop)
    `{∀ x, Decision (P x)} (l : list A) :
  NoDup (f <$> l) → NoDup (f <$> filter P l).
Proof.
  induction l as [|a l IH]; [done|]. cbn [fmap list_fmap].
  intros [Ha Hl]%NoDup_cons. rewrite filter_cons.
  destruct (decide (P a)); [|by apply IH].
  cbn [fmap list_fmap]. apply NoDup_cons. split; [|by apply IH].
  intros (x & E & Hx%list_elem_of_filter)%list_elem_of_fmap.
  apply Ha. apply list_elem_of_fmap. exists x. by destruct Hx.
Qed.

Lemma well_keyed_ids d :
  well_keyed d → Volume.id <$> (map_to_list d).*2 = (map_to_list d).*1.
Proof.
  intros Hk. rewrite <- list_fmap_compose.
  apply list_fmap_ext. intros i [k v] Hkv. simpl.
  apply Hk. apply elem_of_map_to_list.
  apply list_elem_of_lookup. by exists i.
Qed.

Lemma triple__migration_monitor :
  triple well_keyed (_migration_monitor env) (λ _ _, True).
Proof.
  unfold _migration_monitor.
  destruct (volume_backend_name env) as [backend|].
  2: { eapply triple_conseq; [apply triple_ret|intros d H; exact H|done]. }
  cbv zeta. intros w Hw. rewrite run_bind.
  unfold get_all_by_host at 1. rewrite run_bind.
  pose proof (call_world env
    (DbGetAllByHost (conf_host env +:+ "@" +:+ backend)) w) as Hc.
  destruct (call env _ w) as [[[]|?|] w1]; simpl in Hc; subst w1;
    [|split; [by apply log_ok_same_store|done]..].
  unfold act. cbn [db log].
  match goal with |- context [monitor_loop env ?l ?w0] =>
    destruct (triple_monitor_loop l) with (w := w0) as [Hl _] end.
  - apply NoDup_fmap_filter, NoDup_fmap_filter.
    rewrite well_keyed_ids by done. apply NoDup_fst_map_to_list.
  - by intros v [Hv _]%list_elem_of_filter.
  - intros v [_ [_ Hv]%list_elem_of_filter]%list_elem_of_filter.
    apply list_elem_of_fmap in Hv as ([k v'] & -> & Hkv).
    apply elem_of_map_to_list in Hkv. cbn [db log snd].
    rewrite (Hw _ _ Hkv). by exists v'.
  - split; [|done]. etrans; [|exact Hl].
    by apply log_ok_same_store.
Qed.

End MonitorLog.

Section AttachLog.

Variable env : Env.

(** The records while the origin [vp] points to the destination [nv]:
    both are stored with the [migration_status] the objects carry. *)
Definition paired (vp nv : Volume.t) (d : gmap string Volume.t) : Prop :=
  (∃ p, d !! Volume.id vp = Some p
        ∧ Volume.migration_status p = Volume.migration_status vp)
  ∧ (∃ n0, d !! Volume.id nv = Some n0
           ∧ Volume.migration_status n0 = Volume.migration_status nv)
  ∧ Volume.id nv ≠ Volume.id vp.

Lemma paired_same vp nv nv' d :
  Volume.id nv' = Volume.id nv →
  Volume.migration_status nv' = Volume.migration_status nv →
  paired vp nv d → paired vp nv' d.
Proof. intros E1 E2 (? & ? & ?). unfold paired. by rewrite E1, E2. Qed.

Lemma triple_abandon_destination {A} vp nv x Q :
  Volume.migration_status vp = Some ("target:" +:+ x) →
  triple (paired vp nv) (abandon_destination env vp nv : M World A) Q.
Proof.
  intros Hx. unfold abandon_destination.
  eapply triple_bind.
  { apply triple_pure_. apply keeps_try_except_only; [exact _| |by intros w].
    apply keeps_call. exact same_store_log. }
  intros ?. eapply triple_bind; [apply triple_volume_destroy|].
  intros ?. cbv zeta. eapply triple_bind.
  { apply (triple_volume_save env _ _ (λ _ _, True)).
    intros d old (d0 & ((p & Hp & Hms) & _ & Hne) & ->) Hold.
    change (Volume.id (Volume.set_migration_status _ vp))
      with (Volume.id vp) in Hold.
    rewrite lookup_delete_ne in Hold by done.
    split; [|done]. right. simpl.
    assert (old = p) as -> by congruence. rewrite Hms, Hx. constructor. }
  intros ?. destruct (String.eqb _ _); apply triple_raise.
Qed.

Lemma triple_wait_loop vp x deadline fuel :
  Volume.migration_status vp = Some ("target:" +:+ x) →
  ∀ tries nv,
    triple (paired vp nv) (wait_loop env fuel deadline tries vp nv)
      (λ nv' d, paired vp nv' d).
Proof.
  intros Hx. induction fuel as [|fuel IH]; intros tries nv; cbn [wait_loop].
  - destruct (String.eqb _ _).
    + eapply triple_conseq; [apply triple_ret|intros d H; exact H|].
      by intros a d [? ->].
    + by intros w Hw.
  - destruct (String.eqb _ _).
    { eapply triple_conseq; [apply triple_ret|intros d H; exact H|].
      by intros a d [? ->]. }
    eapply triple_bind.
    { apply triple_pure_, keeps_time_time. exact same_store_log. }
    intros t. destruct (_ || _); [by eapply triple_abandon_destination|].
    eapply triple_bind.
    { apply triple_pure_, keeps_time_sleep. exact same_store_log. }
    intros ?. eapply triple_bind.
    { apply (triple_pure (paired vp nv) (volume_refresh env nv)
               (λ nv' _, Volume.id nv' = Volume.id nv
                         ∧ Volume.migration_status nv'
                           = Volume.migration_status nv)).
      - apply keeps_volume_refresh; [exact _|exact same_store_log].
      - by intros w nv' w' [_ ->]%volume_refresh_ok_inv. }
    intros nv'. eapply triple_conseq; [apply (IH (S tries) nv')| |done].
    intros d [Hp [E1 E2]]. by apply (paired_same vp nv nv').
Qed.

Lemma triple_adopt_destination vp nv :
  triple (paired vp nv) (adopt_destination env vp nv) (λ _ _, True).
Proof.
  unfold adopt_destination. cbv zeta.
  set (kept := Volume.set_display_description _ _).
  eapply triple_bind.
  { apply (triple_volume_save env _ _
             (λ _ d, (∃ p, d !! Volume.id vp = Some p
                           ∧ Volume.migration_status p
                             = Volume.migration_status vp)
                     ∧ d !! Volume.id nv = Some kept
                     ∧ Volume.id nv ≠ Volume.id vp)).
    intros d old ((p & Hp & Hms) & (n0 & Hn0 & Hms0) & Hne) Hold.
    change (Volume.id kept) with (Volume.id nv) in *.
    split.
    - left. simpl. assert (old = n0) as -> by congruence. exact Hms0.
    - split; [|split; [by rewrite lookup_insert_eq|done]].
      exists p. by rewrite lookup_insert_ne. }
  intros ?. eapply triple_bind.
  { apply triple__switch_volumes.
    - intros d old ((p & Hp & Hms) & _) Hold. congruence.
    - intros d old (_ & Hn & Hne) Hold.
      change (Volume.id kept) with (Volume.id nv) in *.
      rewrite lookup_insert_ne in Hold by done. congruence. }
  intros p. eapply triple_conseq; [apply triple_ret|intros d H; exact H|done].
Qed.

Lemma triple_migrate_to fuel volume nv :
  triple (λ d, d !! Volume.id nv = Some nv
               ∧ is_Some (d !! Volume.id volume)
               ∧ Volume.id nv ≠ Volume.id volume)
    (migrate_to env fuel volume nv) (λ _ _, True).
Proof.
  unfold migrate_to. cbv zeta.
  set (vp := Volume.set_migration_status _ volume).
  eapply triple_bind.
  { apply (triple_volume_save env _ _ (λ _ d, paired vp nv d)).
    intros d old (Hn & _ & Hne) Hold.
    change (Volume.id vp) with (Volume.id volume) in *.
    split; [right; constructor|].
    split; [|split; [|done]].
    - exists vp. by rewrite lookup_insert_eq.
    - exists nv. by rewrite lookup_insert_ne. }
  intros ?. eapply triple_bind; [apply triple_call|]. intros ?.
  eapply triple_bind; [|intros nv'; apply triple_adopt_destination].
  unfold await_destination.
  eapply triple_bind.
  { apply triple_pure_, keeps_time_time. exact same_store_log. }
  intros t. cbv zeta. eapply triple_bind.
  { apply (triple_pure (paired vp nv) (volume_refresh env nv)
             (λ nv' _, Volume.id nv' = Volume.id nv
                       ∧ Volume.migration_status nv'
                         = Volume.migration_status nv)).
    - apply keeps_volume_refresh; [exact _|exact same_store_log].
    - by intros w nv' w' [_ ->]%volume_refresh_ok_inv. }
  intros nv'. eapply triple_conseq;
    [by apply (triple_wait_loop vp (Volume.id nv))| |done].
  intros d [Hp [E1 E2]]. by apply (paired_same vp nv nv').
Qed.

Lemma triple_initialize_connection fuel volume conn :
  triple (λ d, is_Some (d !! Volume.id volume))
    (initialize_connection env fuel volume conn) (λ _ _, True).
Proof.
  unfold initialize_connection.
  eapply triple_bind;
    [|intros v; eapply triple_conseq;
        [apply triple_ret|intros d H; exact H|done]].
  destruct (String.eqb _ _).
  { eapply triple_bind; [apply triple_call|]. intros ?.
    eapply triple_conseq; [apply triple_ret|intros d H; exact H|].
    intros ? ? ?. exact I. }
  unfold initialize_connection_remote.
  eapply triple_bind; [apply triple_call|]. intros ?.
  eapply triple_bind; [apply triple_pure_; by intros w|]. intros b.
  cbv zeta. eapply triple_bind.
  { apply triple_pure_, keeps_service_get_by_args. exact same_store_log. }
  intros svc. eapply triple_bind; [apply triple_volume_create|].
  intros nv. eapply triple_conseq;
    [apply triple_migrate_to| |intros ? ? ?; exact I].
  intros d (d0 & Hd0 & Hfresh & _ & ->).
  assert (Volume.id nv ≠ Volume.id volume) as Hne.
  { intros E. rewrite E in Hfresh. destruct Hd0 as [? Hd0]. congruence. }
  split; [by rewrite lookup_insert_eq|]. split; [|done].
  by rewrite lookup_insert_ne.
Qed.

End AttachLog.

(** ** The creation hook and the log of writes *)

(** [keeps] for code with local variables. *)
Definition keeps_in_frame {A} (R : relation World)
    (m : M (Frame * World) A) : Prop :=
  ∀ s, R s.2 (m s).2.2.

Section Hook.

Variable env : Env.
Variable R : relation World.
Context `{!PreOrder R}.

Lemma frame_ret {A} (a : A) : keeps_in_frame R (mret a).
Proof. by intros s. Qed.

Lemma frame_lift_res {A} (r : res A) : keeps_in_frame R (lift_res r).
Proof. by intros s. Qed.

Lemma frame_assign upd : keeps_in_frame R (assign upd).
Proof. by intros s. Qed.

Lemma frame_local {A} var (get : Frame → option A) :
  keeps_in_frame R (local var get).
Proof. intros s. unfold local. by destruct (get s.1). Qed.

Lemma frame_in_world {A} (m : M World A) :
  keeps R m → keeps_in_frame R (in_world m).
Proof.
  intros H [f w]. unfold in_world. simpl. specialize (H w).
  by destruct (m w).
Qed.

Lemma frame_bind {A B} (m : M (Frame * World) A) (k : A → M _ B) :
  keeps_in_frame R m → (∀ a, keeps_in_frame R (k a)) →
  keeps_in_frame R (m ≫= k).
Proof.
  intros Hm Hk s. rewrite run_bind. specialize (Hm s).
  destruct (m s) as [[a|e|] s1]; simpl in *; [|done..].
  by etrans; [|apply Hk].
Qed.

End Hook.

Section HookLog.

Variable env : Env.

Local Ltac frame_step :=
  lazymatch goal with
  | |- keeps_in_frame _ (mret _) => apply frame_ret; exact _
  | |- keeps_in_frame _ (lift_res _) => apply frame_lift_res; exact _
  | |- keeps_in_frame _ (assign _) => apply frame_assign; exact _
  | |- keeps_in_frame _ (local _ _) => apply frame_local; exact _
  | |- keeps_in_frame _ (_ ≫= _) => apply frame_bind; [exact _| |intros ?]
  | |- keeps_in_frame _ (in_world _) => apply frame_in_world
  | |- keeps_in_frame _ (if ?b then _ else _) => destruct b
  | |- keeps _ _ => keeps_step same_store_log
  end.

Lemma create_volume_try_store v :
  keeps_in_frame same_store (create_volume_try env v).
Proof.
  unfold create_volume_try, _get_connector. repeat frame_step.
Qed.

Lemma create_volume_try_plain v s :
  ms_in (Volume.migration_status v) ["starting"; "migrating"] = false →
  create_volume_try env v s = (Ok tt, s).
Proof.
  intros H. unfold create_volume_try. rewrite H.
  assert (ms_is (Volume.migration_status v) "migrating" = false) as ->.
  { destruct (Volume.migration_status v) as [ms|]; [|done]. simpl in *.
    by destruct (String.eqb ms "starting"), (String.eqb ms "migrating"). }
  done.
Qed.

Lemma ms_in_edge ms :
  ms_in ms ["starting"; "migrating"] = true →
  driver_edge ms (Some "error").
Proof.
  destruct ms as [s|]; [|done]. simpl.
  destruct (String.eqb_spec s "starting") as [->|_];
    [intros _; constructor; by left|].
  destruct (String.eqb_spec s "migrating") as [->|_]; [|done].
  intros _; constructor; by right.
Qed.

Lemma create_volume_log volume w :
  (∀ old, db w !! Volume.id volume = Some old →
          Volume.migration_status old = Volume.migration_status volume) →
  log_ok w (create_volume env volume w).2.
Proof.
  intros Hst. unfold create_volume.
  pose proof (call_world env (BaseCreateVolume volume) w) as Hc.
  destruct (call env _ w) as [[[]|?|] w1]; simpl in Hc; subst w1;
    [|by apply log_ok_same_store..].
  set (w1 := log _ _ w). unfold try_except.
  pose proof (create_volume_try_store volume (no_locals, w1)) as Hs.
  destruct (create_volume_try env volume (no_locals, w1))
    as [[[]|e|] [f w2]] eqn:E; simpl in Hs |- *.
  1,3: apply log_ok_same_store; by etrans; [|exact Hs].
  destruct (ms_in (Volume.migration_status volume) ["starting"; "migrating"])
    eqn:Hin.
  2: { by rewrite create_volume_try_plain in E. }
  unfold save_and_reraise_exception, create_volume_cleanup. cbv zeta.
  set (verr := Volume.set_migration_status _ _).
  rewrite run_bind. unfold in_world at 1. cbn [fst snd].
  destruct (triple_volume_save env
              (λ d, ∀ old, d !! Volume.id volume = Some old →
                      Volume.migration_status old
                      = Volume.migration_status volume)
              verr (λ _ _, True)) with (w := w2) as [Hl _].
  { intros d old Hd Hold. split; [|done]. right. simpl.
    rewrite (Hd old Hold). by apply ms_in_edge. }
  { destruct Hs as (-> & _). exact Hst. }
  assert (log_ok w w2) as Hw2.
  { apply log_ok_same_store. by etrans; [|exact Hs]. }
  destruct (volume_save env verr w2) as [[[]|?|] w3]; simpl in Hl |- *.
  2,3: by etrans.
  match goal with |- context [(?m ≫= ?k) (f, w3)] =>
    assert (keeps_in_frame same_store (m ≫= k)) as Hrest
  end.
  { repeat frame_step. }
  specialize (Hrest (f, w3)). simpl in Hrest.
  match goal with |- context [(?m ≫= ?k) (f, w3)] =>
    destruct ((m ≫= k) (f, w3)) as [[?|?|] [f' w4]] end; simpl in *.
  all: etrans; [exact Hw2|]; etrans; [exact Hl|];
    by apply log_ok_same_store.
Qed.

End HookLog.

(** ** All operations of the driver *)

Inductive operation :=
| InitializeConnection (fuel : nat) (volume : Volume.t) (conn : Connector)
| CreateVolume (volume : Volume.t)
| TerminateConnection (volume : Volume.t) (conn : option Connector)
| MigrationMonitor.

Definition run_operation (env : Env) (op : operation) : M World unit :=
  match op with
  | InitializeConnection fuel volume conn =>
      initialize_connection env fuel volume conn ;; mret tt
  | CreateVolume volume => create_volume env volume
  | TerminateConnection volume conn => terminate_connection env volume conn
  | MigrationMonitor => _migration_monitor env
  end.

(** The volume handed to the operation is the stored record. *)
Definition loaded (d : gmap string Volume.t) (op : operation) : Prop :=
  match op with
  | InitializeConnection _ volume _
  | CreateVolume volume
  | TerminateConnection volume _ => d !! Volume.id volume = Some volume
  | MigrationMonitor => True
  end.

(** C3 (amended). Whatever the collaborators do, every write of a
    record's [migration_status] made by [initialize_connection],
    [create_volume], [terminate_connection] or a tick of the monitor
    either stores the value already there or follows one of the edges:
    any → target:X (attach: the origin is pointed to the new record),
    target:X → error (attach: the wait failed),
    starting|migrating → error (creation hook failed),
    target:X → completing → success (monitor),
    target:X → none (detach: roll back),
    any → migrating (detach after a live migration: the paired record). *)
Theorem migration_status_changes (env : Env) (op : operation) (w : World) :
  well_keyed (db w) →
  loaded (db w) op →
  ∃ new,
    ms_log (run_operation env op w).2 = ms_log w ++ new
    ∧ Forall (λ m, mw_old m = mw_new m
                   ∨ driver_edge (mw_old m) (mw_new m)) new.
Proof.
  intros Hk Hl. change (log_ok w (run_operation env op w).2).
  destruct op as [fuel volume conn|volume|volume conn|]; simpl in Hl.
  - unfold run_operation. rewrite run_bind.
    destruct (triple_initialize_connection env fuel volume conn w) as [H _].
    { by eexists. }
    by destruct (initialize_connection env fuel volume conn w) as [[?|?|] ?].
  - apply create_volume_log. intros old Hold. congruence.
  - by destruct (triple_terminate_connection env volume conn w).
  - by destruct (triple__migration_monitor env w).
Qed.

Module DetachSample.

Definition a := Sample.vol "a" "reserved" (Some "target:b").
Definition b := Sample.vol "b" "maintenance" (Some "starting").
Definition w : World := Sample.world [a; b].

End DetachSample.

Lemma detach_sample_well_keyed : well_keyed (db DetachSample.w).
Proof.
  intros k v Hk. simpl in Hk.
  apply lookup_insert_Some in Hk as [[<- <-]|[_ Hk]]; [done|].
  apply lookup_insert_Some in Hk as [[<- <-]|[_ Hk]]; [done|].
  by rewrite lookup_empty in Hk.
Qed.

Lemma migration_status_changes_witness :
  ∃ new,
    ms_log (terminate_connection Sample.env DetachSample.a None
              DetachSample.w).2 = new
    ∧ Forall allowed new.
Proof.
  destruct (migration_status_changes Sample.env
              (TerminateConnection DetachSample.a None) DetachSample.w)
    as (new & E & F).
  - exact detach_sample_well_keyed.
  - reflexivity.
  - exists new. split; [exact E|exact F].
Defined.

(** C3, as the specification has it: detaching a reserved volume whose
    [migration_status] is [target:b] rolls the attachment back and
    stores none; [target:X → none] is not an edge of the graph. *)
Lemma roll_back_leaves_the_graph :
  let out := terminate_connection Sample.env DetachSample.a None
               DetachSample.w in
  out.1 = Ok tt
  ∧ {| mw_id := "a"; mw_old := Some "target:b"; mw_new := None |}
    ∈ ms_log out.2
  ∧ ¬ spec_edge (Some "target:b") None.
Proof.
  cbv zeta. split; [vm_compute; reflexivity|]. split.
  - apply list_elem_of_lookup. exists 2%nat. vm_compute. reflexivity.
  - intros H. inversion H.
Qed.

(** ** The wait always ends *)

Section Fuel.

Variable env : Env.

Lemma call_terminates e w : (call env e w).1 ≠ Nonterm.
Proof. unfold call. by destruct (fails env w e). Qed.

Lemma volume_save_terminates v w : (volume_save env v w).1 ≠ Nonterm.
Proof.
  unfold volume_save. run.
  pose proof (call_terminates (DbSave v) w).
  destruct (call env _ w) as [[[]|?|] w1]; [|done..]. run.
  by destruct (db w1 !! Volume.id v).
Qed.

Lemma abandon_destination_terminates {A} v nv w :
  (abandon_destination env v nv w : res A * World).1 ≠ Nonterm.
Proof.
  unfold abandon_destination, try_except_only, try_except. run.
  pose proof (call_terminates (RpcDeleteVolume nv) w).
  destruct (call env _ w) as [[[]|e|] w1]; [| |done]; run.
  2: (case_decide; [|done]; run).
  all: unfold volume_destroy; run.
  all: match goal with |- context [call env ?e ?w0] =>
         pose proof (call_terminates e w0);
         destruct (call env e w0) as [[[]|?|] ?]; [|done..] end; run.
  all: match goal with |- context [volume_save env ?v ?w0] =>
         pose proof (volume_save_terminates v w0);
         destruct (volume_save env v w0) as [[[]|?|] ?]; [|done..] end; run.
  all: by destruct (String.eqb _ _).
Qed.

(** With the deadline 60 seconds after [t0], seven rounds are enough:
    more fuel changes nothing, and the loop is never cut. *)
Lemma wait_loop_fuel t0 v fuel1 :
  ∀ fuel2 tries nv w,
    (tries ≤ 6)%nat → (7 ≤ fuel1 + tries)%nat → (7 ≤ fuel2 + tries)%nat →
    t0 + sumsq tries ≤ now w →
    wait_loop env fuel1 (t0 + 60) tries v nv w
    = wait_loop env fuel2 (t0 + 60) tries v nv w
    ∧ (wait_loop env fuel1 (t0 + 60) tries v nv w).1 ≠ Nonterm.
Proof.
  induction fuel1 as [|fuel1 IH]; intros fuel2 tries nv w H6 H1 H2 Hnow;
    [lia|].
  destruct fuel2 as [|fuel2]; [lia|]. cbn [wait_loop].
  destruct (String.eqb _ _); [done|].
  unfold time_time. run.
  destruct (Z.ltb_spec (t0 + 60) (now w)) as [Hlate|Hearly]; cbn [orb].
  { split; [done|apply abandon_destination_terminates]. }
  destruct (String.eqb _ _).
  { split; [done|apply abandon_destination_terminates]. }
  unfold time_sleep. run.
  unfold volume_refresh. run.
  match goal with |- context [call env ?e ?w0] =>
    pose proof (call_terminates e w0) as Ht;
    pose proof (call_world env e w0) as Hw;
    destruct (call env e w0) as [[[]|?|] w1]; [|done..]
  end.
  run. cbn [snd] in Hw.
  assert (sumsq tries ≤ 60) as Hs by lia.
  pose proof (sumsq_bound tries H6 Hs) as H5.
  apply IH; [lia..|]. subst w1. cbn [now log sumsq]. lia.
Qed.

(** Seven rounds of fuel are enough for the wait, whatever the
    collaborators do. *)
Lemma await_destination_fuel fuel v nv w :
  (7 ≤ fuel)%nat →
  await_destination env fuel v nv w = await_destination env 7 v nv w
  ∧ (await_destination env fuel v nv w).1 ≠ Nonterm.
Proof.
  intros Hf. unfold await_destination, time_time. run.
  unfold volume_refresh. run.
  match goal with |- context [call env ?e ?w0] =>
    pose proof (call_terminates e w0) as Ht;
    pose proof (call_world env e w0) as Hw;
    destruct (call env e w0) as [[[]|?|] w1]; [|done..]
  end.
  run. cbn [snd] in Hw.
  apply wait_loop_fuel; [lia..|]. subst w1. cbn [now log sumsq]. lia.
Qed.

End Fuel.

(** * Further properties of the driver *)

(** ** Strings without a separator *)

(** [c in s] *)
Fixpoint has_char (c : ascii) (s : string) : bool :=
  match s with
  | EmptyString => false
  | String a s' => Ascii.eqb a c || has_char c s'
  end.

Lemma split_go_no_sep sep cur s :
  has_char sep s = false → Py.split_go sep cur s = [String.rev_app cur s].
Proof.
  revert cur. induction s as [|a s IH]; intros cur H; [done|].
  cbn [has_char] in H. apply orb_false_elim in H as [Ha Hs].
  cbn [Py.split_go]. rewrite Ha. by rewrite IH.
Qed.

Lemma split_no_sep sep s : has_char sep s = false → Py.split sep s = [s].
Proof. intros H. unfold Py.split. by rewrite split_go_no_sep. Qed.

Lemma split_target i :
  Py.split ":" ("target:" +:+ i) = "target" :: Py.split ":" i.
Proof. reflexivity. Qed.

(** ** Looking up the paired record *)

Section Lookup.

Variable env : Env.

Lemma _find_src_volume_run (v : Volume.t) (i : string) (w : World) :
  Volume.migration_status v = Some ("target:" +:+ i) →
  has_char ":" i = false →
  _find_src_volume env v w =
    (match fails env w (DbGetById i) with
     | None => Ok (db w !! i)
     | Some e => if decide (e = VolumeNotFound) then Ok None else Raise e
     end,
     log (DbGetById i) (Z.of_nat (latency env w (DbGetById i))) w).
Proof.
  intros Hms Hi. unfold _find_src_volume. rewrite Hms. run.
  rewrite split_target, (split_no_sep _ _ Hi). cbn [index lookup list_lookup].
  run. unfold try_except_only, try_except, get_by_id. run. unfold call.
  destruct (fails env w (DbGetById i)) as [e|].
  - by case_decide.
  - run. cbn [db log]. destruct (db w !! i); run; [done|].
    by rewrite decide_True.
Qed.

(** X1. [_find_src_volume] undoes the encoding of the pointer: for a
    [migration_status] of [target:<i>], where [i] has no colon, the
    record looked up is [i]; it is handed back when it exists, a missing
    record ([VolumeNotFound], from the lookup or from the call) gives
    [None], and any other failure of the call propagates.  Nothing is
    written. *)
Theorem find_src_volume_decodes (v : Volume.t) (i : string) (w : World) :
  Volume.migration_status v = Some ("target:" +:+ i) →
  has_char ":" i = false →
  _find_src_volume env v w =
    (match fails env w (DbGetById i) with
     | None => Ok (db w !! i)
     | Some e => if decide (e = VolumeNotFound) then Ok None else Raise e
     end,
     log (DbGetById i) (Z.of_nat (latency env w (DbGetById i))) w).
Proof. apply _find_src_volume_run. Qed.

(** X2. Without a pointer there is nothing to look up: a [migration_status]
    of [None] raises [AttributeError] and one without a colon raises
    [IndexError], in both cases before any call is made. *)
Theorem find_src_volume_needs_pointer (v : Volume.t) (w : World) :
  (∀ ms, Volume.migration_status v = Some ms → has_char ":" ms = false) →
  _find_src_volume env v w =
    (Raise (match Volume.migration_status v with
            | None => AttributeError
            | Some _ => IndexError
            end), w).
Proof.
  intros H. unfold _find_src_volume.
  destruct (Volume.migration_status v) as [ms|]; [|done]. run.
  by rewrite (split_no_sep _ _ (H ms eq_refl)).
Qed.

(** X3. [_disconnect_volume] asks for the export to be removed whatever the
    connector did: a failure to get the connector or to disconnect is
    swallowed, the last call is always [remove_export], and its outcome
    is the outcome of the whole.  No record is written. *)
Theorem disconnect_volume_always_unexports (v : Volume.t) (w : World) :
  ∃ w1 calls,
    trace w1 = trace w ++ calls
    ∧ (calls = [GetConnector v]
       ∨ calls = [GetConnector v; DisconnectVolume v])
    ∧ db w1 = db w
    ∧ _disconnect_volume env v w =
        (match fails env w1 (RpcRemoveExport v) with
         | Some e => Raise e
         | None => Ok tt
         end,
         log (RpcRemoveExport v)
           (Z.of_nat (latency env w1 (RpcRemoveExport v))) w1).
Proof.
  unfold _disconnect_volume, _get_connector, try_except. run.
  set (w0 := log (GetConnector v)
               (Z.of_nat (latency env w (GetConnector v))) w).
  destruct (fails env w (GetConnector v)) as [e|] eqn:E1.
  - exists w0, [GetConnector v].
    rewrite (call_raise _ _ _ _ E1). run. fold w0.
    repeat split; [by left|]. unfold call. by destruct (fails env w0 _).
  - rewrite (call_ok _ _ _ E1). run. fold w0.
    set (w1 := log (DisconnectVolume v)
                 (Z.of_nat (latency env w0 (DisconnectVolume v))) w0).
    exists w1, [GetConnector v; DisconnectVolume v].
    split; [subst w1 w0; cbn [trace log]; by rewrite <- app_assoc|].
    split; [by right|]. split; [done|].
    unfold call at 1. destruct (fails env w0 (DisconnectVolume v)); run;
      fold w1; unfold call; by destruct (fails env w1 _).
Qed.

(** A save that raises has written nothing. *)
Lemma volume_save_raise_inv (v : Volume.t) (w : World) e w' :
  volume_save env v w = (Raise e, w') → same_store w w'.
Proof.
  unfold volume_save. run. unfold call.
  destruct (fails env w (DbSave v)); run.
  - by intros [= _ <-].
  - cbn [db log]. destruct (db w !! Volume.id v); [done|]. by intros [= _ <-].
Qed.

(** X4. [_switch_volumes] is not atomic.  When it returns, both records are
    stored with their identities exchanged; when it raises, either
    nothing was written or the first record is already stored with the
    identity of the second. *)
Theorem switch_volumes_stores (v o : Volume.t) (w : World) :
  let out := _switch_volumes env v (Some o) w in
  let d1 := <[Volume.id v := swapped v o]> (db w) in
  match out.1 with
  | Ok p =>
      p = (swapped v o, swapped o v)
      ∧ db out.2 = <[Volume.id o := swapped o v]> d1
  | Raise _ => db out.2 = db w ∨ db out.2 = d1
  | Nonterm => False
  end.
Proof.
  cbv zeta. unfold _switch_volumes. rewrite switch_identity_eq. run.
  cbn [fst snd].
  destruct (volume_save env (swapped v o) w) as [[[]|e|] w1] eqn:E1.
  - apply volume_save_ok_inv in E1 as (old & _ & ->). run.
    destruct (volume_save env (swapped o v) _) as [[[]|e|] w2] eqn:E2.
    + apply volume_save_ok_inv in E2 as (old2 & _ & ->). run. by split.
    + cbn [fst snd]. right. by apply volume_save_raise_inv in E2 as (-> & _).
    + apply (f_equal fst) in E2. by apply volume_save_terminates in E2.
  - cbn [fst snd]. left. by apply volume_save_raise_inv in E1 as (-> & _).
  - apply (f_equal fst) in E1. by apply volume_save_terminates in E1.
Qed.

End Lookup.

Lemma find_src_volume_decodes_witness :
  _find_src_volume Sample.env DetachSample.a DetachSample.w
  = (Ok (Some DetachSample.b), log (DbGetById "b") 0 DetachSample.w).
Proof.
  rewrite (find_src_volume_decodes Sample.env DetachSample.a "b");
    reflexivity.
Defined.

Lemma find_src_volume_needs_pointer_witness :
  _find_src_volume Sample.env DetachSample.b DetachSample.w
  = (Raise IndexError, DetachSample.w).
Proof.
  apply (find_src_volume_needs_pointer Sample.env DetachSample.b).
  intros ms [= <-]. reflexivity.
Defined.

(** ** Runs that are never cut *)

(** [total m]: [m] never runs out of fuel. *)
Definition total {A} (m : M World A) : Prop := ∀ w, (m w).1 ≠ Nonterm.

Section Total.

Variable env : Env.

Lemma total_ret {A} (a : A) : total (mret a).
Proof. by intros w. Qed.

Lemma total_raise {A} (e : exn) : total (raise e : M World A).
Proof. by intros w. Qed.

Lemma total_index {A} (l : list A) i : total (lift_res (index l i)).
Proof. intros w. unfold lift_res, index. by destruct (l !! i). Qed.

Lemma total_bind {A B} (m : M World A) (k : A → M World B) :
  total m → (∀ a, total (k a)) → total (m ≫= k).
Proof.
  intros Hm Hk w. rewrite run_bind. specialize (Hm w).
  destruct (m w) as [[a|e|] w1]; [apply Hk|done..].
Qed.

Lemma total_try_except {A} (m : M World A) (h : exn → M World A) :
  total m → (∀ e, total (h e)) → total (try_except m h).
Proof.
  intros Hm Hh w. unfold try_except. specialize (Hm w).
  destruct (m w) as [[a|e|] w1]; [done|apply Hh|done].
Qed.

Lemma total_try_except_only {A} e0 (m h : M World A) :
  total m → total h → total (try_except_only e0 m h).
Proof.
  intros Hm Hh. apply total_try_except; [done|].
  intros e. case_decide; [done|apply total_raise].
Qed.

Lemma total_call e : total (call env e).
Proof. intros w. apply call_terminates. Qed.

Lemma total_volume_save v : total (volume_save env v).
Proof. intros w. apply volume_save_terminates. Qed.

Lemma total_get_by_id i : total (get_by_id env i).
Proof.
  apply total_bind; [apply total_call|]. intros _ w. unfold act.
  by destruct (db w !! i).
Qed.

Lemma total__find_src_volume v : total (_find_src_volume env v).
Proof.
  unfold _find_src_volume. apply total_bind.
  { destruct (Volume.migration_status v); [apply total_ret|apply total_raise]. }
  intros ms. apply total_bind; [apply total_index|]. intros i.
  apply total_try_except_only; [|apply total_ret].
  apply total_bind; [apply total_get_by_id|]. intros ?. apply total_ret.
Qed.

Lemma total__disconnect_volume v : total (_disconnect_volume env v).
Proof.
  unfold _disconnect_volume, _get_connector.
  apply total_bind; [|intros ?; apply total_call].
  apply total_try_except; [|intros ?; apply total_ret].
  apply total_bind; [|intros ?; apply total_call].
  apply total_bind; [apply total_call|intros ?; apply total_ret].
Qed.

Lemma call_eq e w :
  call env e w =
    (match fails env w e with Some x => Raise x | None => Ok tt end,
     log e (Z.of_nat (latency env w e)) w).
Proof. unfold call. by destruct (fails env w e). Qed.

End Total.

(** Case analysis on whether the next call to a collaborator fails,
    keeping of the world after it only that the records are the same. *)
Ltac call_cases env :=
  run;
  lazymatch goal with
  | |- context [call env ?e ?w0] =>
      let w' := fresh "w" in
      let Hd := fresh "Hd" in
      rewrite (call_eq env e w0);
      destruct (fails env w0 e); run;
      generalize (eq_refl : db (log e (Z.of_nat (latency env w0 e)) w0)
                            = db w0);
      generalize (log e (Z.of_nat (latency env w0 e)) w0); intros w' Hd;
      cbn [fst snd]
  end.

(** ** More on the monitor *)

Section MonitorMore.

Variable env : Env.

Lemma finalize_db (v : Volume.t) (w : World) :
  let out := finalize env v w in
  let completing := Volume.set_migration_status (Some "completing") v in
  let success := Volume.set_migration_status (Some "success") v in
  match out.1 with
  | Ok _ => db out.2 = <[Volume.id v := success]> (db w)
  | Raise _ =>
      db out.2 = db w ∨ db out.2 = <[Volume.id v := completing]> (db w)
  | Nonterm => False
  end.
Proof.
  cbv zeta. unfold finalize. run.
  pose proof (same_store__find_src_volume env v w) as (Hd0 & _).
  pose proof (total__find_src_volume env v w) as Hn0.
  destruct (_find_src_volume env v w) as [[src|e|] w1];
    cbn [fst snd] in *; [|by left|done].
  run.
  destruct (volume_save env _ w1) as [[[]|e|] w2] eqn:E1; cbn [fst snd].
  2: { left. apply volume_save_raise_inv in E1 as (-> & _). done. }
  2: { apply (f_equal fst) in E1. by apply volume_save_terminates in E1. }
  apply volume_save_ok_inv in E1 as (old & _ & ->).
  change (Volume.id (Volume.set_migration_status _ v)) with (Volume.id v).
  rewrite Hd0.
  match goal with |- context [log_ms ?m (write_db ?d ?w0)] =>
    generalize (eq_refl : db (log_ms m (write_db d w0)) = d);
    generalize (log_ms m (write_db d w0)); intros w2 Hd2
  end.
  call_cases env; [right; congruence|].
  call_cases env; [right; congruence|].
  call_cases env; [right; congruence|].
  call_cases env; [right; congruence|].
  match goal with |- context [match ?m ?w0 with _ => _ end] =>
    assert (db (m w0).2 = db w0 ∧ (m w0).1 ≠ Nonterm) as [Hsrc Hnsrc];
    [|destruct (m w0) as [[[]|e|] wz];
      cbn [fst snd] in *; [|right; congruence|done]]
  end.
  { destruct src as [s|]; [|done]. rewrite run_bind.
    match goal with |- context [_disconnect_volume env s ?w0] =>
      pose proof (same_store__disconnect_volume env s w0) as (Hs & _);
      pose proof (total__disconnect_volume env s w0) as Ht;
      destruct (_disconnect_volume env s w0) as [[[]|e|] wy];
      cbn [fst snd] in *; [|done..]
    end.
    rewrite call_eq. cbn [snd db log]. split; [done|].
    by destruct (fails env wy _). }
  destruct (volume_save env _ wz) as [[[]|e|] w8] eqn:E2; cbn [fst snd].
  - apply volume_save_ok_inv in E2 as (old2 & _ & ->).
    cbn [db log write_db log_ms].
    change (Volume.id (Volume.set_migration_status _ _)) with (Volume.id v).
    replace (db wz) with
      (<[Volume.id v := Volume.set_migration_status (Some "completing") v]>
         (db w)) by congruence.
    by rewrite insert_insert_eq.
  - right. apply volume_save_raise_inv in E2 as (-> & _). congruence.
  - apply (f_equal fst) in E2. by apply volume_save_terminates in E2.
Qed.

(** X5. What [finalize] leaves in the records.  When it returns, the record
    of the volume is the object it was given with ['success'] as its
    [migration_status]; when it raises, either nothing was written or
    the record is left with ['completing'] (a value that does not start
    with ['target:'], so that no later tick takes the volume up again).
    No other record is written. *)
Theorem finalize_outcome (v : Volume.t) (w : World) :
  let out := finalize env v w in
  let completing := Volume.set_migration_status (Some "completing") v in
  let success := Volume.set_migration_status (Some "success") v in
  match out.1 with
  | Ok _ => db out.2 = <[Volume.id v := success]> (db w)
  | Raise _ =>
      db out.2 = db w ∨ db out.2 = <[Volume.id v := completing]> (db w)
  | Nonterm => False
  end.
Proof. apply finalize_db. Qed.

End MonitorMore.

(** ** Which volumes a tick looks at *)

Section Examined.

Variable env : Env.
Variable P : event → Prop.

(** [P] only restricts the status queries. *)
Hypothesis P_other : ∀ e, (∀ n, e ≠ DmStatus n) → P e.

Local Ltac other := apply P_other; intros ?; discriminate.

Lemma finalize_queries_no_status v : emits P (finalize env v).
Proof.
  unfold finalize, _find_src_volume, _disconnect_volume, _get_connector.
  repeat emits_step; other.
Qed.

Lemma monitor_volume_queries v :
  P (DmStatus (_dm_target_name env v)) → emits P (monitor_volume env v).
Proof.
  intros Hv. unfold monitor_volume.
  emits_step; [by apply emits_dmsetup_status|].
  repeat emits_step. apply finalize_queries_no_status.
Qed.

Lemma monitor_loop_queries l :
  (∀ v, v ∈ l → P (DmStatus (_dm_target_name env v))) →
  emits P (monitor_loop env l).
Proof.
  unfold monitor_loop. induction l as [|v l IH]; intros Hl; cbn [for_each].
  - apply emits_ret.
  - apply emits_bind.
    + apply monitor_volume_queries, Hl, list_elem_of_here.
    + intros _. apply IH. intros v' Hv'. by apply Hl, list_elem_of_further.
Qed.

End Examined.

Section Tick2.

Variable env : Env.

(** The volumes a tick of the monitor may look at: the stored records
    of this host whose [migration_status] starts with ['target:']. *)
Definition candidate (w : World) (v : Volume.t) : Prop :=
  ∃ backend k,
    volume_backend_name env = Some backend
    ∧ db w !! k = Some v
    ∧ host_owns env (conf_host env +:+ "@" +:+ backend) (Volume.host v) = true
    ∧ is_target (Volume.migration_status v) = true.

Lemma _migration_monitor_queries (w : World) :
  ∃ new,
    trace (_migration_monitor env w).2 = trace w ++ new
    ∧ ∀ n, DmStatus n ∈ new →
           ∃ v, candidate w v ∧ n = _dm_target_name env v.
Proof.
  set (P := λ e, ∀ n, e = DmStatus n →
                      ∃ v, candidate w v ∧ n = _dm_target_name env v).
  assert (∀ e, (∀ n, e ≠ DmStatus n) → P e) as P_other.
  { intros e He n ->. by destruct (He n). }
  assert (∀ new, Forall P new →
            ∀ n, DmStatus n ∈ new →
                 ∃ v, candidate w v ∧ n = _dm_target_name env v) as Hfin.
  { intros new Hnew n Hn. rewrite Forall_forall in Hnew.
    by apply (Hnew _ Hn). }
  unfold _migration_monitor.
  destruct (volume_backend_name env) as [backend|] eqn:Hb.
  2: { exists []. rewrite app_nil_r. split; [done|].
       intros n Hn. by apply elem_of_nil in Hn. }
  cbv zeta. rewrite run_bind. unfold get_all_by_host at 1. rewrite run_bind.
  set (host := conf_host env +:+ "@" +:+ backend).
  rewrite call_eq. set (w1 := log (DbGetAllByHost host) _ w).
  destruct (fails env w (DbGetAllByHost host)).
  { exists [DbGetAllByHost host]. split; [done|]. apply Hfin.
    repeat constructor. by apply P_other. }
  unfold act. cbn [db log w1].
  match goal with |- context [monitor_loop env ?l] => set (cands := l) end.
  destruct (monitor_loop_queries env P P_other cands) with (w := w1)
    as (new & E & F).
  { intros v [Ht [Hh Hv]%list_elem_of_filter]%list_elem_of_filter n [= <-].
    apply list_elem_of_fmap in Hv as ([k v'] & -> & Hkv).
    apply elem_of_map_to_list in Hkv. exists v'. split; [|done].
    by exists backend, k. }
  exists (DbGetAllByHost host :: new). split.
  - rewrite E. subst w1. cbn [trace log]. by rewrite <- app_assoc.
  - apply Hfin. constructor; [by apply P_other|done].
Qed.

(** X6. A tick of the monitor queries the device-mapper status of
    candidates only: whatever happens during the tick, every status
    query it makes is for the target of a record that was stored, on
    this host, with a [migration_status] starting with ['target:'] when
    the tick began.  (While the capabilities are not known there is no
    candidate, and the tick makes no query.) *)
Theorem monitor_examines_only_candidates (w : World) :
  ∃ new,
    trace (_migration_monitor env w).2 = trace w ++ new
    ∧ ∀ n, DmStatus n ∈ new →
           ∃ v, candidate w v ∧ n = _dm_target_name env v.
Proof. apply _migration_monitor_queries. Qed.

(** X7. A finalization that fails half-way is not taken up again.  When
    [finalize] raises after it has written the record, the record is
    left with ['completing'] as its [migration_status], and the next
    tick of the monitor does not query the target of the volume (no
    other record having a target of that name): the cut-over is not
    retried. *)
Theorem failed_finalization_is_not_retried (v : Volume.t) (w w1 : World)
    (e : exn) :
  finalize env v w = (Raise e, w1) →
  db w1 ≠ db w →
  (∀ k u, db w1 !! k = Some u →
          _dm_target_name env u = _dm_target_name env v →
          k = Volume.id v) →
  db w1 !! Volume.id v
  = Some (Volume.set_migration_status (Some "completing") v)
  ∧ ∃ new,
      trace (_migration_monitor env w1).2 = trace w1 ++ new
      ∧ DmStatus (_dm_target_name env v) ∉ new.
Proof.
  intros E Hw Hu. pose proof (finalize_db env v w) as H.
  cbv zeta in H. rewrite E in H. cbn [fst snd] in H.
  destruct H as [H|H]; [done|].
  assert (db w1 !! Volume.id v
          = Some (Volume.set_migration_status (Some "completing") v)) as Hv
    by (by rewrite H, lookup_insert_eq).
  split; [exact Hv|].
  destruct (_migration_monitor_queries w1) as (new & Et & Hq).
  exists new. split; [exact Et|].
  intros (u & (backend & k & _ & Hk & _ & Hms) & Hn)%Hq.
  rewrite (Hu k u Hk (eq_sym Hn)) in Hk.
  rewrite Hv in Hk. injection Hk as <-. discriminate Hms.
Qed.

(** A status that gives the monitor nothing to do: the target type is
    read, and either it is not [clone] or the hydration is not
    complete. *)
Definition idle_status (dm_status : list string) : Prop :=
  ∃ ty, dm_status !! 2%nat = Some ty
        ∧ (ty ≠ "clone" ∨ hydration_completed dm_status = Ok false).

Hypothesis no_failure : ∀ w e, fails env w e = None.
Hypothesis nothing_to_do :
  ∀ w n, idle_status (Py.words (dm_status_line env w n)).

Lemma monitor_volume_idle v w :
  monitor_volume env v w =
    (Ok tt,
     log (DmStatus (_dm_target_name env v))
       (Z.of_nat (latency env w (DmStatus (_dm_target_name env v)))) w).
Proof.
  unfold monitor_volume, dmsetup_status. run.
  rewrite call_ok by apply no_failure. run.
  destruct (nothing_to_do w (_dm_target_name env v)) as (ty & H2 & Hty).
  unfold index at 1. rewrite H2. run.
  destruct (String.eqb_spec ty "clone") as [->|Hne]; [|done].
  destruct Hty as [?|Hc]; [done|]. cbn [negb]. rewrite Hc. by run.
Qed.

Lemma monitor_loop_idle l :
  ∀ w, ∃ w',
    monitor_loop env l w = (Ok tt, w')
    ∧ db w' = db w
    ∧ trace w' = trace w ++ ((λ v, DmStatus (_dm_target_name env v)) <$> l).
Proof.
  unfold monitor_loop. induction l as [|v l IH]; intros w; cbn [for_each].
  - exists w. by rewrite app_nil_r.
  - run. rewrite monitor_volume_idle.
    destruct (IH (log (DmStatus (_dm_target_name env v))
                    (Z.of_nat (latency env w
                                 (DmStatus (_dm_target_name env v)))) w))
      as (w' & E & Hd & Ht).
    exists w'. split; [exact E|]. split; [done|].
    rewrite Ht. cbn [trace log fmap list_fmap]. by rewrite <- app_assoc.
Qed.

(** X8. An idle tick.  When no collaborator fails and no candidate reports
    a completed hydration (its target is not a clone, or the clone is
    still hydrating), the tick returns having queried the status of
    every candidate, in the order of the list, and nothing else: a
    volume that is skipped does not end the tick, and no record is
    written. *)
Theorem idle_tick_examines_all (w : World) (backend : string) :
  volume_backend_name env = Some backend →
  let host := conf_host env +:+ "@" +:+ backend in
  let candidates :=
    filter (λ v, is_target (Volume.migration_status v) = true)
      (filter (λ v, host_owns env host (Volume.host v) = true)
         (map_to_list (db w)).*2) in
  ∃ w',
    _migration_monitor env w = (Ok tt, w')
    ∧ db w' = db w
    ∧ trace w' =
        trace w ++ DbGetAllByHost host
        :: ((λ v, DmStatus (_dm_target_name env v)) <$> candidates).
Proof.
  intros Hb. cbv zeta. unfold _migration_monitor. rewrite Hb. cbv zeta.
  rewrite run_bind. unfold get_all_by_host at 1. rewrite run_bind.
  rewrite call_ok by apply no_failure. unfold act. cbn [db log].
  match goal with |- context [monitor_loop env ?l ?w0] =>
    destruct (monitor_loop_idle l w0) as (w' & E & Hd & Ht) end.
  exists w'. split; [exact E|]. split; [done|].
  rewrite Ht. cbn [trace log]. by rewrite <- app_assoc.
Qed.

End Tick2.

Module IdleSample.

(** A clone that is still hydrating. *)
Definition env : Env :=
  Sample.env_status
    "0 2097152 clone 8 30/262144 8 1024/262144 3 0 4 hydration_threshold 1 hydration_batch_size 1 rw".

End IdleSample.

Lemma idle_tick_examines_all_witness :
  ∃ w',
    _migration_monitor IdleSample.env TickSample.w = (Ok tt, w')
    ∧ db w' = db TickSample.w
    ∧ trace w' =
        [DbGetAllByHost "hostA@lvm"; DmStatus "volume-c-handle";
         DmStatus "volume-a-handle"].
Proof.
  destruct (idle_tick_examines_all IdleSample.env) with
    (w := TickSample.w) (backend := "lvm") as (w' & E & Hd & Ht).
  - intros w e. reflexivity.
  - intros w n. exists "clone". split; [reflexivity|]. right.
    vm_compute. reflexivity.
  - reflexivity.
  - exists w'. split; [exact E|]. split; [exact Hd|].
    rewrite Ht. vm_compute. reflexivity.
Defined.

Module StuckSample.

(** The target cannot be suspended. *)
Definition x : exn := ExternalError "dmsetup suspend".

Definition env : Env :=
  Sample.env_of ""
    (λ e, match e with DmSuspend _ => Some x | _ => None end) None.

Definition w1 : World := (finalize env DetachSample.a DetachSample.w).2.

End StuckSample.

Lemma failed_finalization_is_not_retried_witness :
  finalize StuckSample.env DetachSample.a DetachSample.w
  = (Raise StuckSample.x, StuckSample.w1)
  ∧ db StuckSample.w1 !! "a"
    = Some (Volume.set_migration_status (Some "completing") DetachSample.a)
  ∧ ∃ new,
      trace (_migration_monitor StuckSample.env StuckSample.w1).2
      = trace StuckSample.w1 ++ new
      ∧ DmStatus "volume-a-handle" ∉ new.
Proof.
  assert (finalize StuckSample.env DetachSample.a DetachSample.w
          = (Raise StuckSample.x, StuckSample.w1)) as E
    by (vm_compute; reflexivity).
  split; [exact E|].
  apply (failed_finalization_is_not_retried StuckSample.env DetachSample.a
           DetachSample.w StuckSample.w1 StuckSample.x E).
  - intros H. apply (f_equal (λ d, d !! "a")) in H.
    vm_compute in H. discriminate H.
  - intros k u Hk Hn.
    assert (db StuckSample.w1
            = <["a" := Volume.set_migration_status (Some "completing")
                         DetachSample.a]> (db DetachSample.w)) as Hd
      by (vm_compute; reflexivity).
    rewrite Hd in Hk. simpl in Hk.
    apply lookup_insert_Some in Hk as [[<- _]|[_ Hk]]; [done|].
    apply lookup_insert_Some in Hk as [[<- _]|[_ Hk]]; [done|].
    apply lookup_insert_Some in Hk as [[<- <-]|[_ Hk]];
      [vm_compute in Hn; discriminate Hn|].
    by rewrite lookup_empty in Hk.
Defined.

(** ** The creation hook inside a migration *)

(** The calls of the creation hook that follow the connection of the
    source: the metadata device, the clone target and the message. *)
Definition after_connect (e : event) : bool :=
  match e with
  | VgCreateVolume _ _ | DmCreate _ _ | DmMessage _ _ _ => true
  | _ => false
  end.

(** The calls made of a list of calls to make: up to and including the
    first one that fails. *)
Fixpoint attempted (bad : event → bool) (l : list event) : list event :=
  match l with
  | [] => []
  | e :: l' => e :: (if bad e then [] else attempted bad l')
  end.

(** Names the world after a call and forgets all but its records and
    its log of calls. *)
Ltac name_world :=
  match goal with
  | |- context [log ?e ?dt ?w0] =>
      is_var w0;
      let w' := fresh "w" in
      let Ht := fresh "Ht" in
      let Hd := fresh "Hd" in
      assert (trace (log e dt w0) = trace w0 ++ [e]) as Ht by reflexivity;
      assert (db (log e dt w0) = db w0) as Hd by reflexivity;
      set (w' := log e dt w0) in *; clearbody w'
  end.

Section Hook2.

Variable env : Env.
Variable bad : event → bool.
Variable x : exn.

(** Only calls that follow the connection of the source fail. *)
Hypothesis fails_bad : ∀ w e, fails env w e = if bad e then Some x else None.
Hypothesis bad_after_connect : ∀ e, bad e = true → after_connect e = true.

Lemma call_before e w :
  after_connect e = false →
  call env e w = (Ok tt, log e (Z.of_nat (latency env w e)) w).
Proof.
  intros He. apply call_ok. rewrite fails_bad.
  destruct (bad e) eqn:Hb; [|done]. apply bad_after_connect in Hb. congruence.
Qed.

Lemma call_ok_inv_fails e w : after_connect e = false → fails env w e = None.
Proof.
  intros He. rewrite fails_bad.
  destruct (bad e) eqn:Hb; [|done]. apply bad_after_connect in Hb. congruence.
Qed.

Lemma call_after e w :
  call env e w =
    (if bad e then Raise x else Ok tt, log e (Z.of_nat (latency env w e)) w).
Proof. rewrite call_eq, fails_bad. by destruct (bad e). Qed.

Variable volume : Volume.t.
Variable src : Volume.t.

Definition failed_volume : Volume.t :=
  Volume.set_migration_status (Some "error")
    (Volume.set_status "error" volume).

(** The calls of the hook once the source is connected at [path]. *)
Definition overlay_calls (path : string) : list event :=
  [VgCreateVolume (_metadata_dev_name env volume) "1g";
   DmCreate (_dm_target_name env volume) (clone_table env volume path)]
  ++ (if ms_is (Volume.migration_status volume) "migrating"
      then [DmMessage (_dm_target_name env volume) "0" "enable_hydration"]
      else []).

(** The calls of the handler when all of them go through. *)
Definition cleanup_calls : list event :=
  [DbSave failed_volume; DmRemove (_dm_target_name env volume);
   DisconnectVolume src; VgDelete (_metadata_dev_name env volume);
   BaseDeleteVolume failed_volume].

Lemma in_world_call_before e (s : Frame * World) :
  after_connect e = false →
  in_world (call env e) s =
    (Ok tt, (s.1, log e (Z.of_nat (latency env s.2 e)) s.2)).
Proof. intros He. unfold in_world. by rewrite call_before. Qed.

Lemma in_world_call_after e (s : Frame * World) :
  in_world (call env e) s =
    (if bad e then Raise x else Ok tt,
     (s.1, log e (Z.of_nat (latency env s.2 e)) s.2)).
Proof. unfold in_world. by rewrite call_after. Qed.

Lemma cleanup_runs path w old :
  db w !! Volume.id volume = Some old →
  ∃ w',
    create_volume_cleanup env volume
      ({| src_volume := Some src; connector := Some src;
          src_volume_handle := Some path |}, w)
    = (Ok tt, ({| src_volume := Some src; connector := Some src;
                  src_volume_handle := Some path |}, w'))
    ∧ trace w' = trace w ++ cleanup_calls
    ∧ db w' = <[Volume.id volume := failed_volume]> (db w).
Proof.
  intros Hold. unfold create_volume_cleanup. run.
  unfold in_world at 1. cbn [fst snd].
  erewrite volume_save_ok; [|by apply call_ok_inv_fails|exact Hold].
  run. rewrite in_world_call_before by done. run.
  unfold local at 1. cbn [fst snd connector src_volume_handle]. run.
  unfold local at 1. cbn [fst snd connector src_volume_handle]. run.
  rewrite in_world_call_before by done. run.
  rewrite in_world_call_before by done. run.
  rewrite in_world_call_before by done.
  eexists. split; [reflexivity|].
  cbn [fst snd trace db log write_db log_ms]. rewrite <- !app_assoc.
  by split.
Qed.

Lemma create_volume_overlay_run (w : World) (rest : list Volume.t)
    (old : Volume.t) :
  ms_in (Volume.migration_status volume) ["starting"; "migrating"] = true →
  filter (λ v, Volume.migration_status v
               = Some ("target:" +:+ Volume.id volume))
    (map_to_list (db w)).*2 = src :: rest →
  db w !! Volume.id volume = Some old →
  ∃ path w',
    let calls := overlay_calls path in
    let failed := existsb bad calls in
    create_volume env volume w = (if failed then Raise x else Ok tt, w')
    ∧ trace w' =
        trace w
        ++ [BaseCreateVolume volume;
            DbGetAll ("target:" +:+ Volume.id volume);
            GetConnector src; ConnectVolume src]
        ++ attempted bad calls
        ++ (if failed then cleanup_calls else [])
    ∧ db w' = if failed then <[Volume.id volume := failed_volume]> (db w)
              else db w.
Proof.
  intros Hin Hsrc Hold. unfold create_volume.
  rewrite call_before by done. name_world.
  unfold try_except, create_volume_try. rewrite Hin. run.
  unfold in_world at 1. cbn [fst snd]. unfold get_all_limit1. run.
  rewrite call_before by done. run. cbn [db log]. rewrite Hd, Hsrc.
  name_world.
  cbn [take index lookup list_lookup]. run.
  unfold assign at 1. cbn [fst snd]. run.
  unfold in_world at 1. cbn [fst snd]. unfold _get_connector. run.
  rewrite call_before by done. run. name_world.
  unfold assign at 1. cbn [fst snd src_volume connector src_volume_handle].
  run.
  unfold in_world at 1. cbn [fst snd]. unfold connect_volume. run.
  rewrite call_before by done. run.
  set (path := connect_path env w2 src). exists path. name_world.
  unfold assign at 1. cbn [fst snd src_volume connector src_volume_handle].
  run.
  assert (db w3 = db w) as Hdb by congruence.
  assert (trace w3 = trace w
                     ++ [BaseCreateVolume volume;
                         DbGetAll ("target:" +:+ Volume.id volume);
                         GetConnector src; ConnectVolume src]) as Htr.
  { rewrite Ht2, Ht1, Ht0, Ht, <- !app_assoc. reflexivity. }
  clear Ht Ht0 Ht1 Ht2 Hd Hd0 Hd1 Hd2. clearbody path.
  unfold overlay_calls.
  set (vg := VgCreateVolume (_metadata_dev_name env volume) "1g").
  set (dm := DmCreate (_dm_target_name env volume)
               (clone_table env volume path)).
  set (msg := DmMessage (_dm_target_name env volume) "0" "enable_hydration").
  rewrite in_world_call_after. cbn [fst snd]. name_world.
  destruct (bad vg) eqn:B1.
  { run. unfold save_and_reraise_exception.
    destruct (cleanup_runs path w4 old) as (w' & E & Ht' & Hd');
      [congruence|].
    rewrite E. exists w'. cbn [app existsb attempted orb]. rewrite B1.
    cbn [orb snd app]. split; [done|].
    rewrite Ht', Ht, Htr, Hd', Hd, Hdb, <- !app_assoc. by split. }
  run. rewrite in_world_call_after. cbn [fst snd]. name_world.
  destruct (bad dm) eqn:B2.
  { run. unfold save_and_reraise_exception.
    destruct (cleanup_runs path w5 old) as (w' & E & Ht' & Hd');
      [congruence|].
    rewrite E. exists w'. cbn [app existsb attempted orb]. rewrite B1, B2.
    cbn [orb snd app]. split; [done|].
    rewrite Ht', Ht0, Ht, Htr, Hd', Hd0, Hd, Hdb, <- !app_assoc. by split. }
  run. destruct (ms_is (Volume.migration_status volume) "migrating").
  2: { run. exists w5. cbn [app existsb attempted orb]. rewrite B1, B2.
       cbn [orb snd app]. split; [done|].
       rewrite Ht0, Ht, Htr, Hd0, Hd, Hdb, <- !app_assoc. by split. }
  rewrite in_world_call_after. cbn [fst snd]. name_world.
  destruct (bad msg) eqn:B3.
  { run. unfold save_and_reraise_exception.
    destruct (cleanup_runs path w6 old) as (w' & E & Ht' & Hd');
      [congruence|].
    rewrite E. exists w'. cbn [app existsb attempted orb].
    rewrite B1, B2, B3.
    cbn [orb snd app]. split; [done|].
    rewrite Ht', Ht1, Ht0, Ht, Htr, Hd', Hd1, Hd0, Hd, Hdb, <- !app_assoc.
    by split. }
  run. exists w6. cbn [app existsb attempted orb]. rewrite B1, B2, B3.
  cbn [orb snd app]. split; [done|].
  rewrite Ht1, Ht0, Ht, Htr, Hd1, Hd0, Hd, Hdb, <- !app_assoc. by split.
Qed.

End Hook2.

(** X9. Inside a migration (the volume arrives with ['starting'] or
    ['migrating'] and a record [src] points to it), when only calls
    that follow the connection of the source can fail: the hook
    connects the source, then creates the metadata device and the clone
    target on top of it and, for ['migrating'], enables the hydration.
    If all go through it returns and has written no record.  If one of
    them fails, every step of the clean-up runs (the record is saved
    with ['error'], the target removed, the source disconnected, the
    metadata device and the volume deleted) and the exception of the
    failed call is the one raised. *)
Theorem create_volume_overlay (env : Env) (bad : event → bool) (x : exn)
    (volume src : Volume.t) (w : World) (rest : list Volume.t)
    (old : Volume.t) :
  (∀ w e, fails env w e = if bad e then Some x else None) →
  (∀ e, bad e = true → after_connect e = true) →
  ms_in (Volume.migration_status volume) ["starting"; "migrating"] = true →
  filter (λ v, Volume.migration_status v
               = Some ("target:" +:+ Volume.id volume))
    (map_to_list (db w)).*2 = src :: rest →
  db w !! Volume.id volume = Some old →
  ∃ path w',
    let calls := overlay_calls env volume path in
    let failed := existsb bad calls in
    create_volume env volume w = (if failed then Raise x else Ok tt, w')
    ∧ trace w' =
        trace w
        ++ [BaseCreateVolume volume;
            DbGetAll ("target:" +:+ Volume.id volume);
            GetConnector src; ConnectVolume src]
        ++ attempted bad calls
        ++ (if failed then cleanup_calls env volume src else [])
    ∧ db w' = if failed
              then <[Volume.id volume := failed_volume volume]> (db w)
              else db w.
Proof.
  intros Hf Hb. by apply create_volume_overlay_run.
Qed.

Module OverlaySample.

(** The clone target cannot be created. *)
Definition bad (e : event) : bool :=
  match e with DmCreate _ _ => true | _ => false end.

Definition x : exn := ExternalError "dmsetup create".

Definition env : Env :=
  Sample.env_of "" (λ e, if bad e then Some x else None) None.

End OverlaySample.

Lemma create_volume_overlay_witness :
  ∃ w',
    create_volume OverlaySample.env HookSample.n HookSample.w
    = (Raise OverlaySample.x, w')
    ∧ db w' !! "n" = Some HookSample.n_error.
Proof.
  destruct (create_volume_overlay OverlaySample.env OverlaySample.bad
              OverlaySample.x HookSample.n HookSample.a HookSample.w []
              HookSample.n)
    as (path & w' & E & _ & Hd).
  - intros w e. reflexivity.
  - by intros [].
  - reflexivity.
  - vm_compute. reflexivity.
  - vm_compute. reflexivity.
  - exists w'. split; [exact E|]. rewrite Hd. vm_compute. reflexivity.
Defined.

(** ** From the attach path to the creation hook *)

Lemma filter_none {A} (P : A → Prop) `{∀ a, Decision (P a)} (l : list A) :
  (∀ a, a ∈ l → ¬ P a) → filter P l = [].
Proof.
  induction l as [|a l IH]; intros Hl; [done|].
  rewrite filter_cons, decide_False by apply Hl, list_elem_of_here.
  apply IH. intros a' Ha'. by apply Hl, list_elem_of_further.
Qed.

(** Once the origin points to a new record, it is the only record that
    does. *)
Lemma pointer_is_found (d : gmap string Volume.t) (volume nv : Volume.t) :
  let i := Volume.id nv in
  let pointer :=
    Volume.set_migration_status (Some ("target:" +:+ i)) volume in
  no_dangling d → d !! i = None → i ≠ Volume.id volume →
  Volume.migration_status nv ≠ Some ("target:" +:+ i) →
  filter (λ v, Volume.migration_status v = Some ("target:" +:+ i))
    (map_to_list (<[Volume.id volume := pointer]> (<[i := nv]> d))).*2
  = [pointer].
Proof.
  intros i pointer Hd Hi Hne Hnv.
  apply Permutation_singleton_r.
  rewrite <- insert_delete_eq.
  rewrite map_to_list_insert by apply lookup_delete_eq.
  rewrite fmap_cons, filter_cons. cbn [snd].
  rewrite decide_True by reflexivity.
  rewrite filter_none; [done|].
  intros v Hv Hms.
  apply list_elem_of_fmap in Hv as ([k v'] & -> & Hkv). cbn [snd] in *.
  apply elem_of_map_to_list in Hkv.
  apply lookup_delete_Some in Hkv as [Hk Hkv].
  apply lookup_insert_Some in Hkv as [[<- <-]|[Hk' Hkv]]; [done|].
  destruct (Hd k v' i Hkv Hms) as [? Hx]. fold i in Hi. congruence.
Qed.

(** X10. The order of the attach path is what the creation hook relies on.
    In the state in which [initialize_connection] requests the remote
    creation (the new record [nv] stored, the origin saved with
    [target:<id of nv>]), [create_volume] on [nv] finds the origin by
    that pointer, and no other record: it connects to the origin and
    builds the clone target of [nv] on top of it; for a role of
    ['migrating'] it also enables the hydration. *)
Theorem create_volume_finds_the_origin (env : Env)
    (d : gmap string Volume.t) (volume nv : Volume.t) (w : World) :
  let pointer :=
    Volume.set_migration_status (Some ("target:" +:+ Volume.id nv)) volume in
  (∀ w e, fails env w e = None) →
  no_dangling d → d !! Volume.id nv = None →
  Volume.id nv ≠ Volume.id volume →
  ms_in (Volume.migration_status nv) ["starting"; "migrating"] = true →
  db w = <[Volume.id volume := pointer]> (<[Volume.id nv := nv]> d) →
  ∃ path w',
    create_volume env nv w = (Ok tt, w')
    ∧ trace w' =
        trace w
        ++ [BaseCreateVolume nv; DbGetAll ("target:" +:+ Volume.id nv);
            GetConnector pointer; ConnectVolume pointer;
            VgCreateVolume (_metadata_dev_name env nv) "1g";
            DmCreate (_dm_target_name env nv) (clone_table env nv path)]
        ++ (if ms_is (Volume.migration_status nv) "migrating"
            then [DmMessage (_dm_target_name env nv) "0" "enable_hydration"]
            else [])
    ∧ db w' = db w.
Proof.
  intros pointer Hq Hd Hi Hne Hin Hw.
  destruct (create_volume_overlay_run env (λ _, false) KeyError
              ltac:(done) ltac:(done) nv pointer w [] nv Hin)
    as (path & w' & E & Ht & Hdb).
  - rewrite Hw. apply pointer_is_found; [done..|].
    intros Hms. rewrite Hms in Hin. vm_compute in Hin. discriminate Hin.
  - rewrite Hw, lookup_insert_ne, lookup_insert_eq by done. done.
  - exists path, w'.
    assert (∀ l, existsb (λ _ : event, false) l = false) as Hex
      by (induction l; done).
    assert (∀ l, attempted (λ _ : event, false) l = l) as Hat
      by (induction l as [|? ? IH]; [done|]; cbn [attempted]; by rewrite IH).
    cbv zeta in E, Ht, Hdb. rewrite Hex in E, Ht, Hdb. rewrite Hat in Ht.
    split; [exact E|]. split; [|exact Hdb].
    rewrite Ht, app_nil_r. reflexivity.
Qed.

Module PairSample.

(** The records when the remote creation is requested: ["a"] points to
    the new record ["new"], whose role is ['starting']. *)
Definition nv : Volume.t := Sample.vol "new" "creating" (Some "starting").

Definition w : World :=
  {| db := <["a" := Volume.set_migration_status (Some "target:new")
                      AttachSample.a]>
             (<["new" := nv]> (db AttachSample.w));
     now := 0; trace := []; snapshots := []; ms_log := [] |}.

End PairSample.

Lemma create_volume_finds_the_origin_witness :
  ∃ path w',
    create_volume Sample.env PairSample.nv PairSample.w = (Ok tt, w')
    ∧ trace w' !! 3%nat
      = Some (ConnectVolume
                (Volume.set_migration_status (Some "target:new")
                   AttachSample.a))
    ∧ trace w' !! 5%nat
      = Some (DmCreate "volume-new-handle"
                (clone_table Sample.env PairSample.nv path)).
Proof.
  destruct (create_volume_finds_the_origin Sample.env (db AttachSample.w)
              AttachSample.a PairSample.nv PairSample.w)
    as (path & w' & E & Ht & _).
  - intros w e. reflexivity.
  - exact sample_no_dangling.
  - vm_compute. reflexivity.
  - discriminate.
  - reflexivity.
  - reflexivity.
  - exists path, w'. split; [exact E|]. rewrite Ht. split; reflexivity.
Defined.

(** ** Attaching *)

(** Names a world and keeps of it only its records and its log of
    calls. *)
Ltac forget_world t :=
  let w' := fresh "w" in
  let Ht := fresh "Ht" in
  let Hd := fresh "Hd" in
  pose proof (eq_refl (trace t)) as Ht;
  pose proof (eq_refl (db t)) as Hd;
  set (w' := t) in Ht at 1, Hd at 1 |- *;
  cbn [trace db log write_db log_ms] in Ht, Hd;
  clearbody w'.

Ltac name_worlds :=
  repeat match goal with
    | |- context [log ?e ?dt ?w0] => is_var w0; forget_world (log e dt w0)
    | |- context [write_db ?d ?w0] => is_var w0; forget_world (write_db d w0)
    | |- context [log_ms ?m ?w0] => is_var w0; forget_world (log_ms m w0)
    end.

Section Attach2.

Variable env : Env.

(** For a connector on the host of the volume, [initialize_connection]
    makes one call, the creation of a linear target over the local
    volume, and hands back the path of that target; it creates no
    record, writes none and sends no request to another host. *)
Lemma initialize_connection_local (fuel : nat) (volume : Volume.t)
    (conn : Connector) (w : World) :
  connector_host conn = extract_host env (Volume.host volume) "host" →
  let e := DmCreate (_dm_target_name env volume) (linear_table env volume) in
  initialize_connection env fuel volume conn w =
    (match fails env w e with
     | Some x => Raise x
     | None =>
         Ok ("/dev/mapper/" +:+ volume_name_template env (Volume.name_id volume)
             +:+ "-handle")
     end,
     log e (Z.of_nat (latency env w e)) w).
Proof.
  intros Hlocal. cbv zeta. unfold initialize_connection.
  rewrite Hlocal, String.eqb_refl. run. rewrite call_eq.
  by destruct (fails env w _).
Qed.

Hypothesis no_failure : ∀ w e, fails env w e = None.

Lemma save_quiet v w :
  is_Some (db w !! Volume.id v) →
  ∃ w',
    volume_save env v w = (Ok tt, w')
    ∧ trace w' = trace w ++ [DbSave v]
    ∧ db w' = <[Volume.id v := v]> (db w).
Proof.
  intros [old Hold]. erewrite volume_save_ok; [|apply no_failure|exact Hold].
  by eexists.
Qed.

Lemma call_quiet e w :
  ∃ w', call env e w = (Ok tt, w')
        ∧ trace w' = trace w ++ [e] ∧ db w' = db w.
Proof. rewrite call_ok by apply no_failure. by eexists. Qed.

Lemma _switch_volumes_quiet v o w :
  is_Some (db w !! Volume.id v) →
  is_Some (db w !! Volume.id o) →
  ∃ w',
    _switch_volumes env v (Some o) w = (Ok (swapped v o, swapped o v), w')
    ∧ trace w' = trace w ++ [DbSave (swapped v o); DbSave (swapped o v)]
    ∧ db w' = <[Volume.id o := swapped o v]>
                (<[Volume.id v := swapped v o]> (db w)).
Proof.
  intros H1 H2. unfold _switch_volumes. rewrite switch_identity_eq. run.
  cbn [fst snd].
  destruct (save_quiet (swapped v o) w H1) as (w1 & -> & Ht1 & Hd1). run.
  destruct (save_quiet (swapped o v) w1) as (w2 & -> & Ht2 & Hd2).
  { rewrite Hd1. apply lookup_insert_is_Some'. by right. }
  run. exists w2. split; [done|].
  rewrite Ht2, Ht1, Hd2, Hd1, <- app_assoc. done.
Qed.

Lemma service_quiet key w :
  ∃ w', service_get_by_args env key w = (Ok (service_of env w key), w')
        ∧ trace w' = trace w ++ [ServiceGetByArgs key] ∧ db w' = db w.
Proof.
  unfold service_get_by_args. run. rewrite call_ok by apply no_failure.
  by eexists.
Qed.

Lemma create_quiet v w :
  db w !! fresh_id env (db w) = None →
  let v' := created (fresh_id env (db w)) v in
  ∃ w', volume_create env v w = (Ok v', w')
        ∧ trace w' = trace w ++ [DbCreate v']
        ∧ db w' = <[fresh_id env (db w) := v']> (db w).
Proof.
  intros Hf v'. rewrite volume_create_ok; [|apply no_failure|exact Hf].
  by eexists.
Qed.

Lemma refresh_quiet v w :
  ∃ w', volume_refresh env v w
        = (Ok (Volume.set_status (remote_status env w' v) v), w')
        ∧ trace w' = trace w ++ [DbRefresh (Volume.id v)] ∧ db w' = db w.
Proof. rewrite volume_refresh_ok by apply no_failure. by eexists. Qed.

Lemma time_quiet w :
  ∃ w', time_time w = (Ok (now w), w')
        ∧ trace w' = trace w ++ [Time (now w)] ∧ db w' = db w.
Proof. by eexists. Qed.

Lemma wait_loop_available fuel deadline tries v nv w :
  Volume.status nv = "available" →
  wait_loop env fuel deadline tries v nv w = (Ok nv, w).
Proof. intros H. destruct fuel; cbn [wait_loop]; by rewrite H. Qed.

(** The destination is seen ['available'] as soon as it is looked at. *)
Hypothesis ready : ∀ w v, remote_status env w v = "available".

(** The destination record as [adopt_destination] saves it. *)
Definition kept_destination (volume nv : Volume.t) : Volume.t :=
  Volume.set_display_description
    (Some ("migration src for " +:+ Volume.id volume))
    (Volume.set_status "maintenance" nv).

Lemma attach_run (fuel : nat) (w : World) (volume : Volume.t)
    (conn : Connector) (b : string) :
  connector_host conn ≠ extract_host env (Volume.host volume) "host" →
  backend_of (Volume.host volume) = Ok b →
  is_Some (db w !! Volume.id volume) →
  db w !! fresh_id env (db w) = None →
  ∃ svc key t0 w',
    let i := fresh_id env (db w) in
    let nv := created i (new_volume_object svc volume) in
    let pointer :=
      Volume.set_migration_status (Some ("target:" +:+ i)) volume in
    let kept := kept_destination volume nv in
    initialize_connection env fuel volume conn w
    = (Ok ("/dev/mapper/" +:+ volume_name_template env i +:+ "-handle"), w')
    ∧ trace w' =
        trace w
        ++ [TargetInitializeConnection volume; ServiceGetByArgs key;
            DbCreate nv; DbSave pointer; RpcCreateVolume nv; Time t0;
            DbRefresh i; DbSave kept; DbSave (swapped pointer kept);
            DbSave (swapped kept pointer)]
    ∧ db w' = <[i := swapped kept pointer]>
                (<[Volume.id volume := swapped pointer kept]> (db w)).
Proof.
  intros Hremote Hb Hdb Hfresh.
  assert (fresh_id env (db w) ≠ Volume.id volume) as Hne.
  { intros E. rewrite E in Hfresh. destruct Hdb as [? Hdb]. congruence. }
  unfold initialize_connection. run.
  apply String.eqb_neq in Hremote as ->.
  unfold initialize_connection_remote. run.
  destruct (call_quiet (TargetInitializeConnection volume) w)
    as (w1 & -> & Ht1 & Hd1). run. rewrite Hb. run.
  match goal with |- context [service_get_by_args env ?k w1] =>
    set (key := k);
    destruct (service_quiet key w1) as (w2 & -> & Ht2 & Hd2) end.
  set (svc := service_of env w1 key). clearbody svc. run.
  destruct (create_quiet (new_volume_object svc volume) w2)
    as (w3 & -> & Ht3 & Hd3); [by rewrite Hd2, Hd1|].
  rewrite Hd2, Hd1 in Ht3, Hd3 |- *.
  set (i := fresh_id env (db w)) in *.
  set (nv := created i (new_volume_object svc volume)) in *.
  run. unfold migrate_to. run.
  set (pointer := Volume.set_migration_status (Some ("target:" +:+ i)) volume).
  change (Volume.id nv) with i.
  fold pointer.
  destruct (save_quiet pointer w3) as (w4 & -> & Ht4 & Hd4).
  { rewrite Hd3. apply lookup_insert_is_Some'. by right. }
  run.
  destruct (call_quiet (RpcCreateVolume nv) w4) as (w5 & -> & Ht5 & Hd5).
  run. unfold await_destination. run.
  destruct (time_quiet w5) as (w6 & -> & Ht6 & Hd6). run.
  destruct (refresh_quiet nv w6) as (w7 & -> & Ht7 & Hd7). run.
  rewrite ready. rewrite wait_loop_available by reflexivity. run.
  unfold adopt_destination. run.
  match goal with |- context [volume_save env ?k w7] =>
    change k with (kept_destination volume nv) end.
  set (kept := kept_destination volume nv).
  destruct (save_quiet kept w7) as (w8 & -> & Ht8 & Hd8).
  { rewrite Hd7, Hd6, Hd5, Hd4, Hd3.
    apply lookup_insert_is_Some'. right. rewrite lookup_insert_eq.
    by eexists. }
  run.
  destruct (_switch_volumes_quiet pointer kept w8)
    as (w9 & -> & Ht9 & Hd9).
  { rewrite Hd8. apply lookup_insert_is_Some'. right.
    rewrite Hd7, Hd6, Hd5, Hd4. apply lookup_insert_is_Some'. by left. }
  { rewrite Hd8. apply lookup_insert_is_Some'. by left. }
  run. exists svc, key, (now w5), w9. cbv zeta. fold i nv pointer kept.
  split; [reflexivity|]. split.
  - rewrite Ht9, Ht8, Ht7, Ht6, Ht5, Ht4, Ht3, Ht2, Ht1, <- !app_assoc.
    reflexivity.
  - rewrite Hd9, Hd8, Hd7, Hd6, Hd5, Hd4, Hd3.
    change (Volume.id kept) with i.
    change (Volume.id pointer) with (Volume.id volume).
    apply map_eq. intros k.
    destruct (decide (k = i)) as [->|Hki];
      [by rewrite !lookup_insert_eq|].
    rewrite !(lookup_insert_ne _ i k) by congruence.
    destruct (decide (k = Volume.id volume)) as [->|Hkv];
      [by rewrite !lookup_insert_eq|].
    by rewrite !lookup_insert_ne by congruence.
Qed.

End Attach2.

(** ** Detaching *)

Lemma startswith_prefix (p s : string) : Py.startswith (p +:+ s) p = true.
Proof.
  unfold Py.startswith. induction p as [|a p IH]; [by destruct s|].
  change (String a p +:+ s) with (String a (p +:+ s)).
  cbn [String.prefix]. destruct (ascii_dec a a); [exact IH|done].
Qed.

Lemma is_target_target i : is_target (Some ("target:" +:+ i)) = true.
Proof. apply startswith_prefix. Qed.

Section Detach2.

Variable env : Env.

Hypothesis no_failure : ∀ w e, fails env w e = None.

Lemma _find_src_volume_quiet v i w :
  Volume.migration_status v = Some ("target:" +:+ i) →
  has_char ":" i = false →
  ∃ w', _find_src_volume env v w = (Ok (db w !! i), w')
        ∧ trace w' = trace w ++ [DbGetById i] ∧ db w' = db w.
Proof.
  intros Hms Hi. rewrite (_find_src_volume_run env v i w Hms Hi).
  rewrite no_failure. by eexists.
Qed.

Lemma _disconnect_volume_quiet v w :
  ∃ w', _disconnect_volume env v w = (Ok tt, w')
        ∧ trace w' = trace w ++ [GetConnector v; DisconnectVolume v;
                                 RpcRemoveExport v]
        ∧ db w' = db w.
Proof.
  unfold _disconnect_volume, _get_connector, try_except. run.
  rewrite call_ok by apply no_failure. run.
  rewrite call_ok by apply no_failure. run.
  rewrite call_ok by apply no_failure.
  eexists. split; [reflexivity|]. cbn [trace db log].
  by rewrite <- !app_assoc.
Qed.

(** The calls of a roll back of the attachment of [v], paired with
    [s]. *)
Definition roll_back_calls (v s : Volume.t) : list event :=
  let v' := swapped v s in
  let s' := swapped s v in
  [DbGetById (Volume.id s); DbSave v'; DbSave s';
   DmRemove (_dm_target_name env s'); VgDelete (_metadata_dev_name env s');
   GetConnector v'; DisconnectVolume v'; RpcRemoveExport v';
   RpcDeleteVolume s';
   DbSave (Volume.set_migration_status None v')].

Lemma roll_back_run (v s : Volume.t) (w : World) :
  Volume.migration_status v = Some ("target:" +:+ Volume.id s) →
  has_char ":" (Volume.id s) = false →
  db w !! Volume.id s = Some s →
  is_Some (db w !! Volume.id v) →
  Volume.id v ≠ Volume.id s →
  ∃ w',
    roll_back env v w = (Ok tt, w')
    ∧ trace w' = trace w ++ roll_back_calls v s
    ∧ db w' =
        <[Volume.id v := Volume.set_migration_status None (swapped v s)]>
          (<[Volume.id s := swapped s v]> (db w)).
Proof.
  intros Hms Hi Hs Hv Hne. unfold roll_back. run.
  destruct (_find_src_volume_quiet v _ w Hms Hi) as (w1 & -> & Ht1 & Hd1).
  rewrite Hs. run.
  destruct (_switch_volumes_quiet env no_failure v s w1)
    as (w2 & -> & Ht2 & Hd2); [by rewrite Hd1..|].
  run. cbn [fst snd].
  destruct (call_quiet env no_failure
              (DmRemove (_dm_target_name env (swapped s v))) w2)
    as (w3 & -> & Ht3 & Hd3). run.
  destruct (call_quiet env no_failure
              (VgDelete (_metadata_dev_name env (swapped s v))) w3)
    as (w4 & -> & Ht4 & Hd4). run.
  destruct (_disconnect_volume_quiet (swapped v s) w4)
    as (w5 & -> & Ht5 & Hd5). run.
  destruct (call_quiet env no_failure (RpcDeleteVolume (swapped s v)) w5)
    as (w6 & -> & Ht6 & Hd6). run.
  destruct (save_quiet env no_failure
              (Volume.set_migration_status None (swapped v s)) w6)
    as (w7 & -> & Ht7 & Hd7).
  { rewrite Hd6, Hd5, Hd4, Hd3, Hd2.
    change (Volume.id (Volume.set_migration_status None (swapped v s)))
      with (Volume.id v).
    apply lookup_insert_is_Some'. right.
    apply lookup_insert_is_Some'. by left. }
  exists w7. split; [done|]. split.
  - rewrite Ht7, Ht6, Ht5, Ht4, Ht3, Ht2, Ht1, <- !app_assoc. reflexivity.
  - rewrite Hd7, Hd6, Hd5, Hd4, Hd3, Hd2, Hd1.
    change (Volume.id (Volume.set_migration_status None (swapped v s)))
      with (Volume.id v).
    rewrite (insert_insert_ne _ (Volume.id s) (Volume.id v)) by done.
    by rewrite insert_insert_eq.
Qed.

(** The detach is an abort: the volume is ['reserved'], or it is
    ['in-use'] and the connector is on the host the volume is now
    on. *)
Definition aborts (v : Volume.t) (conn : option Connector) : Prop :=
  Volume.status v = "reserved"
  ∨ (Volume.status v = "in-use"
     ∧ ∃ c, conn = Some c
            ∧ connector_host c = extract_host env (Volume.host v) "host").

Lemma terminate_connection_aborts v conn :
  is_target (Volume.migration_status v) = true → aborts v conn →
  terminate_connection env v conn = roll_back env v.
Proof.
  intros Ht Ha. unfold terminate_connection. rewrite Ht.
  destruct Ha as [->|(-> & c & -> & ->)]; [done|].
  destruct (String.eqb_spec "in-use" "reserved") as [?|_]; [done|].
  by rewrite !String.eqb_refl.
Qed.

(** X11. Aborting an attachment undoes the swap.  When [v] points to the
    stored record [s] and no collaborator fails, [terminate_connection]
    exchanges the identities of the two records again, removes the
    target and the metadata device that carry the name [v] had,
    disconnects [v] under the name it has got back, asks for [s] to be
    deleted and stores [v] without a [migration_status]; the calls are
    made in this order. *)
Theorem terminate_connection_rolls_back (v s : Volume.t)
    (conn : option Connector) (w : World) :
  aborts v conn →
  Volume.migration_status v = Some ("target:" +:+ Volume.id s) →
  has_char ":" (Volume.id s) = false →
  db w !! Volume.id s = Some s →
  is_Some (db w !! Volume.id v) →
  Volume.id v ≠ Volume.id s →
  ∃ w',
    terminate_connection env v conn w = (Ok tt, w')
    ∧ trace w' = trace w ++ roll_back_calls v s
    ∧ db w' =
        <[Volume.id v := Volume.set_migration_status None (swapped v s)]>
          (<[Volume.id s := swapped s v]> (db w)).
Proof.
  intros Ha Hms. rewrite terminate_connection_aborts;
    [|rewrite Hms; apply is_target_target|done].
  by apply roll_back_run.
Qed.

(** X12. After a live migration (the volume is ['in-use'] and the connector
    is on another host than the one the volume is now on), detaching
    ends the connection to the paired record, stores ['migrating'] as
    the [migration_status] of that record and only then enables the
    hydration of the clone; the record of the volume itself is not
    written. *)
Theorem terminate_connection_starts_hydration (v s : Volume.t)
    (c : Connector) (w : World) :
  Volume.status v = "in-use" →
  connector_host c ≠ extract_host env (Volume.host v) "host" →
  Volume.migration_status v = Some ("target:" +:+ Volume.id s) →
  has_char ":" (Volume.id s) = false →
  db w !! Volume.id s = Some s →
  let s' := Volume.set_migration_status (Some "migrating") s in
  ∃ w',
    terminate_connection env v (Some c) w = (Ok tt, w')
    ∧ trace w' =
        trace w
        ++ [DbGetById (Volume.id s); RpcTerminateConnection s; DbSave s';
            DmMessage (_dm_target_name env v) "0" "enable_hydration"]
    ∧ db w' = <[Volume.id s := s']> (db w).
Proof.
  intros Hst Hc Hms Hi Hs. cbv zeta. unfold terminate_connection.
  rewrite Hms, Hst, is_target_target.
  destruct (String.eqb_spec "in-use" "reserved") as [?|_]; [done|].
  rewrite String.eqb_refl. apply String.eqb_neq in Hc as ->.
  unfold start_hydration. run.
  destruct (_find_src_volume_quiet v _ w Hms Hi) as (w1 & -> & Ht1 & Hd1).
  rewrite Hs. run.
  destruct (call_quiet env no_failure (RpcTerminateConnection s) w1)
    as (w2 & -> & Ht2 & Hd2). run.
  destruct (save_quiet env no_failure
              (Volume.set_migration_status (Some "migrating") s) w2)
    as (w3 & -> & Ht3 & Hd3).
  { rewrite Hd2, Hd1.
    change (Volume.id (Volume.set_migration_status _ s)) with (Volume.id s).
    by eexists. }
  run.
  destruct (call_quiet env no_failure
              (DmMessage (_dm_target_name env v) "0" "enable_hydration") w3)
    as (w4 & -> & Ht4 & Hd4).
  exists w4. split; [done|]. split.
  - rewrite Ht4, Ht3, Ht2, Ht1, <- !app_assoc. reflexivity.
  - by rewrite Hd4, Hd3, Hd2, Hd1.
Qed.

(** X13. Attaching on the host of the volume and detaching again is a round
    trip on the device mapper: the linear target that the attach
    creates is the one that the detach (of a volume that is not
    migrating, in state ['detaching']) removes, and no record is
    written on the way. *)
Theorem local_attach_detach (fuel : nat) (v v' : Volume.t)
    (conn : Connector) (conn' : option Connector) (w : World) :
  connector_host conn = extract_host env (Volume.host v) "host" →
  Volume.name_id v' = Volume.name_id v →
  Volume.status v' = "detaching" →
  is_target (Volume.migration_status v') = false →
  ∃ path w1 w2,
    initialize_connection env fuel v conn w = (Ok path, w1)
    ∧ terminate_connection env v' conn' w1 = (Ok tt, w2)
    ∧ path = "/dev/mapper/" +:+ _dm_target_name env v
    ∧ trace w2 =
        trace w ++ [DmCreate (_dm_target_name env v) (linear_table env v);
                    DmRemove (_dm_target_name env v)]
    ∧ db w2 = db w.
Proof.
  intros Hlocal Hname Hst Hms.
  rewrite initialize_connection_local by done. cbv zeta.
  rewrite no_failure. do 3 eexists. split; [reflexivity|].
  unfold terminate_connection. rewrite Hms, Hst. cbv iota.
  rewrite String.eqb_refl. rewrite call_ok by apply no_failure.
  split; [reflexivity|]. split; [reflexivity|].
  unfold _dm_target_name, name. rewrite Hname.
  cbn [trace db log]. by rewrite <- app_assoc.
Qed.

End Detach2.

Section Detach3.

Variable env : Env.

(** X14. An abort needs the paired record.  When the record that [v] points
    to is gone, [terminate_connection] raises [AttributeError] right
    after the lookup: nothing is removed, disconnected or written. *)
Theorem terminate_connection_without_paired_record (v : Volume.t)
    (i : string) (conn : option Connector) (w : World) :
  aborts env v conn →
  Volume.migration_status v = Some ("target:" +:+ i) →
  has_char ":" i = false →
  db w !! i = None →
  fails env w (DbGetById i) = None →
  terminate_connection env v conn w =
    (Raise AttributeError,
     log (DbGetById i) (Z.of_nat (latency env w (DbGetById i))) w).
Proof.
  intros Ha Hms Hi Hdb Hf.
  rewrite terminate_connection_aborts;
    [|rewrite Hms; apply is_target_target|done].
  unfold roll_back. run.
  rewrite (_find_src_volume_run env v i w Hms Hi), Hf, Hdb. by run.
Qed.

End Detach3.

(** ** Attaching and giving up again *)

(** X15. Attaching a reserved volume on another host and then aborting the
    attachment brings the volume back.  When no collaborator fails and
    the destination comes up, [initialize_connection] returns and the
    stored record of the volume carries the identity of the
    destination; [terminate_connection] on that record then returns,
    and the record is again the one that was attached (name, host and
    location as before), with no [migration_status].  The other records
    are as they were, except for the destination record, which is left
    for the deletion that was requested. *)
Theorem attach_then_abort_restores (env : Env) (fuel : nat)
    (volume : Volume.t) (conn : Connector) (conn' : option Connector)
    (b : string) (w : World) :
  (∀ w e, fails env w e = None) →
  (∀ w v, remote_status env w v = "available") →
  Volume.status volume = "reserved" →
  connector_host conn ≠ extract_host env (Volume.host volume) "host" →
  backend_of (Volume.host volume) = Ok b →
  db w !! Volume.id volume = Some volume →
  db w !! fresh_id env (db w) = None →
  has_char ":" (fresh_id env (db w)) = false →
  ∃ path w1 v1 w2,
    initialize_connection env fuel volume conn w = (Ok path, w1)
    ∧ db w1 !! Volume.id volume = Some v1
    ∧ Volume.name_id v1 = fresh_id env (db w)
    ∧ terminate_connection env v1 conn' w1 = (Ok tt, w2)
    ∧ db w2 !! Volume.id volume
      = Some (Volume.set_migration_status None volume)
    ∧ ∀ k, k ≠ fresh_id env (db w) → db w2 !! k
           = <[Volume.id volume :=
                 Volume.set_migration_status None volume]> (db w) !! k.
Proof.
  intros Hq Hready Hst Hremote Hb Hdb Hfresh Hcolon.
  assert (fresh_id env (db w) ≠ Volume.id volume) as Hne.
  { intros E. rewrite E in Hfresh. congruence. }
  destruct (attach_run env Hq Hready fuel w volume conn b Hremote Hb)
    as (svc & key & t0 & w1 & E1 & _ & Hd1); [by eexists|done|].
  cbv zeta in E1, Hd1.
  set (i := fresh_id env (db w)) in *.
  set (nv := created i (new_volume_object svc volume)) in *.
  set (pointer :=
         Volume.set_migration_status (Some ("target:" +:+ i)) volume) in *.
  set (kept := kept_destination volume nv) in *.
  destruct (roll_back_run env Hq (swapped pointer kept)
              (swapped kept pointer) w1)
    as (w2 & E2 & _ & Hd2).
  { reflexivity. }
  { exact Hcolon. }
  { rewrite Hd1. change (Volume.id (swapped kept pointer)) with i.
    by rewrite lookup_insert_eq. }
  { rewrite Hd1. change (Volume.id (swapped pointer kept))
      with (Volume.id volume).
    rewrite lookup_insert_ne, lookup_insert_eq by done. by eexists. }
  { change (Volume.id volume ≠ i). congruence. }
  eexists _, w1, (swapped pointer kept), w2.
  split; [exact E1|]. split.
  { rewrite Hd1. by rewrite lookup_insert_ne, lookup_insert_eq by done. }
  split; [reflexivity|]. split.
  { rewrite terminate_connection_aborts;
      [exact E2|apply is_target_target|]. left. exact Hst. }
  rewrite Hd2, Hd1.
  change (Volume.id (swapped pointer kept)) with (Volume.id volume).
  change (Volume.id (swapped kept pointer)) with i.
  rewrite !swapped_swapped.
  change (Volume.set_migration_status None pointer)
    with (Volume.set_migration_status None volume).
  split; [by rewrite lookup_insert_eq|].
  intros k Hk.
  destruct (decide (k = Volume.id volume)) as [->|Hkv];
    [by rewrite !lookup_insert_eq|].
  by rewrite !lookup_insert_ne by congruence.
Qed.

Module ReservedSample.

Definition a := Sample.vol "a" "reserved" None.
Definition conn : Connector := {| connector_host := "hostB" |}.
Definition w : World := Sample.world [a].

End ReservedSample.

Lemma attach_then_abort_restores_witness :
  ∃ w1 v1 w2,
    initialize_connection AttachSample.env 7 ReservedSample.a
      ReservedSample.conn ReservedSample.w
    = (Ok "/dev/mapper/volume-new-handle", w1)
    ∧ db w1 !! "a" = Some v1
    ∧ Volume.name_id v1 = "new"
    ∧ terminate_connection AttachSample.env v1 None w1 = (Ok tt, w2)
    ∧ db w2 !! "a" = Some ReservedSample.a.
Proof.
  destruct (attach_then_abort_restores AttachSample.env 7 ReservedSample.a
              ReservedSample.conn None "lvm" ReservedSample.w)
    as (path & w1 & v1 & w2 & E1 & Hv1 & Hn & E2 & Hd & _).
  - intros w e. reflexivity.
  - intros w v. reflexivity.
  - reflexivity.
  - vm_compute. discriminate.
  - reflexivity.
  - reflexivity.
  - reflexivity.
  - reflexivity.
  - exists w1, v1, w2.
    assert (path = "/dev/mapper/volume-new-handle") as <-.
    { assert ((initialize_connection AttachSample.env 7 ReservedSample.a
                 ReservedSample.conn ReservedSample.w).1
              = Ok "/dev/mapper/volume-new-handle") as H
        by (vm_compute; reflexivity).
      rewrite E1 in H. by injection H. }
    split; [exact E1|]. split; [exact Hv1|]. split; [exact Hn|].
    split; [exact E2|exact Hd].
Defined.

(** ** What a successful attach leaves *)

(** X16. Attaching on another host, when no collaborator fails and the
    destination is seen ['available']: [initialize_connection] returns
    the path of the target named after the new record, and the two
    stored records have exchanged their identities.  The record of the
    volume keeps its id, status and size, points to the new record
    through [target:<new id>], and now has the name, host and location
    of the destination; the new record has those of the volume, is in
    ['maintenance'] and is described as the migration source.  No other
    record is touched. *)
Theorem initialize_connection_attaches (env : Env) (fuel : nat)
    (w : World) (volume : Volume.t) (conn : Connector) (b : string) :
  (∀ w e, fails env w e = None) →
  (∀ w v, remote_status env w v = "available") →
  connector_host conn ≠ extract_host env (Volume.host volume) "host" →
  backend_of (Volume.host volume) = Ok b →
  is_Some (db w !! Volume.id volume) →
  db w !! fresh_id env (db w) = None →
  ∃ svc key t0 w',
    let i := fresh_id env (db w) in
    let nv := created i (new_volume_object svc volume) in
    let pointer :=
      Volume.set_migration_status (Some ("target:" +:+ i)) volume in
    let kept := kept_destination volume nv in
    initialize_connection env fuel volume conn w
    = (Ok ("/dev/mapper/" +:+ volume_name_template env i +:+ "-handle"), w')
    ∧ trace w' =
        trace w
        ++ [TargetInitializeConnection volume; ServiceGetByArgs key;
            DbCreate nv; DbSave pointer; RpcCreateVolume nv; Time t0;
            DbRefresh i; DbSave kept; DbSave (swapped pointer kept);
            DbSave (swapped kept pointer)]
    ∧ db w' = <[i := swapped kept pointer]>
                (<[Volume.id volume := swapped pointer kept]> (db w)).
Proof. intros Hq Hready. by apply attach_run. Qed.

Lemma initialize_connection_attaches_witness :
  ∃ w' origin destination,
    initialize_connection AttachSample.env 7 AttachSample.a
      AttachSample.conn AttachSample.w
    = (Ok "/dev/mapper/volume-new-handle", w')
    ∧ db w' !! "a" = Some origin
    ∧ db w' !! "new" = Some destination
    ∧ Volume.name_id origin = "new"
    ∧ Volume.host origin = Some "hostB"
    ∧ Volume.migration_status origin = Some "target:new"
    ∧ Volume.name_id destination = "a"
    ∧ Volume.host destination = Some "hostA@lvm"
    ∧ Volume.status destination = "maintenance"
    ∧ Volume.migration_status destination = Some "starting"
    ∧ Volume.display_description destination = Some "migration src for a".
Proof.
  destruct (initialize_connection_attaches AttachSample.env 7 AttachSample.w
              AttachSample.a AttachSample.conn "lvm")
    as (svc & key & t0 & w' & E & _ & Hd).
  - intros w e. reflexivity.
  - intros w v. reflexivity.
  - vm_compute. discriminate.
  - reflexivity.
  - by eexists.
  - reflexivity.
  - cbv zeta in E. clear Hd.
    assert (w' = (initialize_connection AttachSample.env 7 AttachSample.a
                    AttachSample.conn AttachSample.w).2) as ->
      by (by rewrite E).
    do 3 eexists. split; [exact E|].
    split; [vm_compute; reflexivity|].
    split; [vm_compute; reflexivity|].
    repeat split; reflexivity.
Defined.

Lemma terminate_connection_rolls_back_witness :
  ∃ w',
    terminate_connection Sample.env DetachSample.a None DetachSample.w
    = (Ok tt, w')
    ∧ db w' !! "a"
      = Some (Volume.set_migration_status None
                (swapped DetachSample.a DetachSample.b))
    ∧ db w' !! "b" = Some (swapped DetachSample.b DetachSample.a).
Proof.
  destruct (terminate_connection_rolls_back Sample.env) with
    (v := DetachSample.a) (s := DetachSample.b) (conn := @None Connector)
    (w := DetachSample.w) as (w' & E & _ & Hd).
  - intros w e. reflexivity.
  - by left.
  - reflexivity.
  - reflexivity.
  - reflexivity.
  - by eexists.
  - discriminate.
  - exists w'. split; [exact E|]. rewrite Hd. split; reflexivity.
Defined.

Module HydrateSample.

Definition a := Sample.vol "a" "in-use" (Some "target:b").
Definition conn : Connector := {| connector_host := "hostB" |}.
Definition w : World := Sample.world [a; DetachSample.b].

End HydrateSample.

Lemma terminate_connection_starts_hydration_witness :
  ∃ w',
    terminate_connection Sample.env HydrateSample.a (Some HydrateSample.conn)
      HydrateSample.w = (Ok tt, w')
    ∧ trace w' =
        [DbGetById "b"; RpcTerminateConnection DetachSample.b;
         DbSave (Volume.set_migration_status (Some "migrating")
                   DetachSample.b);
         DmMessage "volume-a-handle" "0" "enable_hydration"].
Proof.
  destruct (terminate_connection_starts_hydration Sample.env) with
    (v := HydrateSample.a) (s := DetachSample.b) (c := HydrateSample.conn)
    (w := HydrateSample.w) as (w' & E & Ht & _).
  - intros w e. reflexivity.
  - reflexivity.
  - vm_compute. discriminate.
  - reflexivity.
  - reflexivity.
  - reflexivity.
  - exists w'. split; [exact E|]. rewrite Ht. reflexivity.
Defined.

Module LocalSample.

Definition a := Sample.vol "a" "available" None.
Definition a' := Sample.vol "a" "detaching" None.
Definition conn : Connector := {| connector_host := "hostA" |}.
Definition w : World := Sample.world [a].

End LocalSample.

Lemma local_attach_detach_witness :
  ∃ w1 w2,
    initialize_connection Sample.env 0 LocalSample.a LocalSample.conn
      LocalSample.w = (Ok "/dev/mapper/volume-a-handle", w1)
    ∧ terminate_connection Sample.env LocalSample.a' None w1 = (Ok tt, w2)
    ∧ trace w2 =
        [DmCreate "volume-a-handle" "0 2097152 linear /dev/vg/volume-a 0";
         DmRemove "volume-a-handle"].
Proof.
  destruct (local_attach_detach Sample.env) with
    (fuel := 0%nat) (v := LocalSample.a) (v' := LocalSample.a')
    (conn := LocalSample.conn) (conn' := @None Connector)
    (w := LocalSample.w) as (path & w1 & w2 & E1 & E2 & -> & Ht & _).
  - intros w e. reflexivity.
  - reflexivity.
  - reflexivity.
  - reflexivity.
  - reflexivity.
  - exists w1, w2. split; [exact E1|]. split; [exact E2|].
    rewrite Ht. reflexivity.
Defined.

Lemma terminate_connection_without_paired_record_witness :
  terminate_connection Sample.env DetachSample.a None
    (Sample.world [DetachSample.a])
  = (Raise AttributeError,
     log (DbGetById "b") 0 (Sample.world [DetachSample.a])).
Proof.
  apply (terminate_connection_without_paired_record Sample.env
           DetachSample.a "b").
  - by left.
  - reflexivity.
  - reflexivity.
  - reflexivity.
  - reflexivity.
Defined.

(** ** Attaching: what can go wrong *)

Section AttachFails.

Variable env : Env.

(** X17. The host of the volume must name a backend.  For a connector on
    another host, a volume whose [host] has no ['@'] cannot be
    attached: after the call to the target driver,
    [initialize_connection] raises [IndexError]; no record has been
    created and none written. *)
Theorem initialize_connection_needs_backend (fuel : nat)
    (volume : Volume.t) (conn : Connector) (h : string) (w : World) :
  connector_host conn ≠ extract_host env (Volume.host volume) "host" →
  Volume.host volume = Some h →
  has_char "@" h = false →
  let e := TargetInitializeConnection volume in
  initialize_connection env fuel volume conn w =
    (Raise (default IndexError (fails env w e)),
     log e (Z.of_nat (latency env w e)) w).
Proof.
  intros Hremote Hh Hhost. cbv zeta. unfold initialize_connection. run.
  apply String.eqb_neq in Hremote as ->.
  unfold initialize_connection_remote. run. rewrite call_eq.
  destruct (fails env w _); [done|]. run. unfold backend_of.
  by rewrite Hh, (split_no_sep _ _ Hhost).
Qed.

(** No collaborator fails, except that the deletion request may find
    the volume gone. *)
Hypothesis no_failure :
  ∀ w e, fails env w e = None
         ∨ (∃ v, e = RpcDeleteVolume v)
           ∧ fails env w e = Some VolumeNotFound.

(** The destination is seen in ['error']. *)
Hypothesis broken : ∀ w v, remote_status env w v = "error".


End AttachFails.

Module BrokenSample.

(** The destination comes up in ['error']. *)
Definition env : Env := Sample.env_of "" (fun _ => None) (Some "error").

(** A volume whose host names no backend. *)
Definition bare : Volume.t :=
  Volume.mk "a" "a" (Some "hostA") None (Some "nova") None None None None
    "in-use" "attached" None true 1 "user" "project" None.

End BrokenSample.

Lemma initialize_connection_needs_backend_witness :
  initialize_connection Sample.env 7 BrokenSample.bare AttachSample.conn
    (Sample.world [BrokenSample.bare])
  = (Raise IndexError,
     log (TargetInitializeConnection BrokenSample.bare) 0
       (Sample.world [BrokenSample.bare])).
Proof.
  apply (initialize_connection_needs_backend Sample.env 7 BrokenSample.bare
           AttachSample.conn "hostA").
  - vm_compute. discriminate.
  - reflexivity.
  - reflexivity.
Defined.


(** ** How long an attach can wait *)

Definition is_sleep (e : event) : Prop := ∃ n, e = Sleep n.

Global Instance is_sleep_dec (e : event) : Decision (is_sleep e).
Proof. destruct e; first [by left; eexists | right; intros [? [=]]]. Defined.

(** The sleeps among some calls. *)
Definition sleeps (l : list event) : list event := filter is_sleep l.

(** Sleeps of [k^2], [(k+1)^2], ... seconds, [n] of them. *)
Definition naps (k n : nat) : list event :=
  (λ j, Sleep (Z.of_nat j ^ 2)) <$> seq k n.

(** [naps_only L m]: the sleeps of [m] are the first ones of [L]. *)
Definition naps_only {A} (L : list event) (m : M World A) : Prop :=
  ∀ w, ∃ new, trace (m w).2 = trace w ++ new ∧ sleeps new `prefix_of` L.

Lemma sleeps_none l : Forall (λ e, ¬ is_sleep e) l → sleeps l = [].
Proof.
  intros H. apply filter_none. intros e He.
  rewrite Forall_forall in H. by apply H.
Qed.

Lemma sleeps_app a b : sleeps (a ++ b) = sleeps a ++ sleeps b.
Proof. apply filter_app. Qed.

Lemma naps_only_awake {A} L (m : M World A) :
  emits (λ e, ¬ is_sleep e) m → naps_only L m.
Proof.
  intros Hm w. destruct (Hm w) as (new & E & F). exists new.
  split; [done|]. rewrite (sleeps_none _ F). apply prefix_nil.
Qed.

Lemma naps_only_bind_l {A B} L (m : M World A) (k : A → M World B) :
  emits (λ e, ¬ is_sleep e) m → (∀ a, naps_only L (k a)) →
  naps_only L (m ≫= k).
Proof.
  intros Hm Hk w. rewrite run_bind. destruct (Hm w) as (n1 & E1 & F1).
  destruct (m w) as [[a|e|] w1]; cbn [snd] in *.
  - destruct (Hk a w1) as (n2 & E2 & F2). exists (n1 ++ n2).
    rewrite E2, E1, app_assoc. split; [done|].
    by rewrite sleeps_app, (sleeps_none _ F1).
  - exists n1. split; [done|]. rewrite (sleeps_none _ F1). apply prefix_nil.
  - exists n1. split; [done|]. rewrite (sleeps_none _ F1). apply prefix_nil.
Qed.

Lemma naps_only_bind_r {A B} L (m : M World A) (k : A → M World B) :
  naps_only L m → (∀ a, emits (λ e, ¬ is_sleep e) (k a)) →
  naps_only L (m ≫= k).
Proof.
  intros Hm Hk w. rewrite run_bind. destruct (Hm w) as (n1 & E1 & F1).
  destruct (m w) as [[a|e|] w1]; cbn [snd] in *; [|by exists n1..].
  destruct (Hk a w1) as (n2 & E2 & F2). exists (n1 ++ n2).
  rewrite E2, E1, app_assoc. split; [done|].
  by rewrite sleeps_app, (sleeps_none _ F2), app_nil_r.
Qed.

Section Naps.

Variable env : Env.

Local Ltac awake := intros [? [=]].

Lemma awake_abandon_destination {A} v nv :
  emits (λ e, ¬ is_sleep e) (abandon_destination env v nv : M World A).
Proof. unfold abandon_destination. repeat emits_step; awake. Qed.

Lemma awake__switch_volumes v o :
  emits (λ e, ¬ is_sleep e) (_switch_volumes env v o).
Proof. unfold _switch_volumes. repeat emits_step; awake. Qed.

Lemma awake_adopt_destination v nv :
  emits (λ e, ¬ is_sleep e) (adopt_destination env v nv).
Proof.
  unfold adopt_destination. emits_step; [emits_step; awake|].
  emits_step; [apply awake__switch_volumes|apply emits_ret].
Qed.

Lemma naps_cons tries :
  (tries ≤ 5)%nat →
  naps (S tries) (6 - tries)
  = Sleep (Z.of_nat (S tries) ^ 2) :: naps (S (S tries)) (6 - S tries).
Proof.
  intros H. unfold naps.
  replace (6 - tries)%nat with (S (6 - S tries)) by lia. reflexivity.
Qed.

Lemma wait_loop_naps t0 v fuel :
  ∀ tries nv w,
    (tries ≤ 6)%nat → t0 + sumsq tries ≤ now w →
    ∃ new,
      trace (wait_loop env fuel (t0 + 60) tries v nv w).2 = trace w ++ new
      ∧ sleeps new `prefix_of` naps (S tries) (6 - tries).
Proof.
  induction fuel as [|fuel IH]; intros tries nv w H6 Hnow; cbn [wait_loop].
  { exists []. rewrite app_nil_r. split; [|apply prefix_nil].
    by destruct (String.eqb _ _). }
  destruct (String.eqb _ _).
  { exists []. rewrite app_nil_r. split; [done|apply prefix_nil]. }
  unfold time_time. run.
  set (w1 := log (Time (now w)) 0 w).
  destruct (Z.ltb_spec (t0 + 60) (now w)) as [Hlate|Hearly]; cbn [orb].
  { destruct (awake_abandon_destination (A:=Volume.t) v nv w1)
      as (new & E & F).
    exists (Time (now w) :: new). rewrite E. subst w1. cbn [trace log].
    rewrite <- app_assoc. split; [done|].
    unfold sleeps. rewrite filter_cons, decide_False by awake.
    fold (sleeps new). rewrite (sleeps_none _ F). apply prefix_nil. }
  destruct (String.eqb _ _).
  { destruct (awake_abandon_destination (A:=Volume.t) v nv w1)
      as (new & E & F).
    exists (Time (now w) :: new). rewrite E. subst w1. cbn [trace log].
    rewrite <- app_assoc. split; [done|].
    unfold sleeps. rewrite filter_cons, decide_False by awake.
    fold (sleeps new). rewrite (sleeps_none _ F). apply prefix_nil. }
  assert (sumsq tries ≤ 60) as Hs by (subst w1; lia).
  pose proof (sumsq_bound tries H6 Hs) as H5.
  rewrite (naps_cons tries H5).
  unfold time_sleep. run. unfold volume_refresh. run. rewrite call_eq.
  match goal with |- context [log (DbRefresh ?i) ?dt ?w0] =>
    set (w3 := log (DbRefresh i) dt w0) end.
  assert (∀ tl, trace w3 ++ tl
                = trace w ++ [Time (now w); Sleep (Z.of_nat (S tries) ^ 2);
                              DbRefresh (Volume.id nv)] ++ tl) as Htr.
  { intros tl. subst w3 w1. cbn [trace log]. by rewrite <- !app_assoc. }
  assert (∀ tl, sleeps ([Time (now w); Sleep (Z.of_nat (S tries) ^ 2);
                         DbRefresh (Volume.id nv)] ++ tl)
                = Sleep (Z.of_nat (S tries) ^ 2) :: sleeps tl) as Hsl.
  { intros tl. unfold sleeps. cbn [app].
    rewrite filter_cons, decide_False by awake.
    rewrite filter_cons, decide_True by (by eexists).
    by rewrite filter_cons, decide_False by awake. }
  destruct (fails env _ (DbRefresh _)); run; cbn [fst snd].
  { eexists. split; [rewrite <- (app_nil_r (trace w3)); apply Htr|].
    rewrite Hsl. apply prefix_cons, prefix_nil. }
  match goal with |- context [wait_loop env fuel _ _ v ?nv2 w3] =>
    destruct (IH (S tries) nv2 w3) as (new & E & F) end.
  { lia. }
  { subst w3 w1. cbn [now log sumsq]. lia. }
  eexists. split; [rewrite E; apply Htr|].
  rewrite Hsl. by apply prefix_cons.
Qed.

Lemma naps_await_destination fuel v nv :
  naps_only (naps 1 6) (await_destination env fuel v nv).
Proof.
  intros w. unfold await_destination, time_time. run.
  unfold volume_refresh. run. rewrite call_eq.
  match goal with |- context [log (DbRefresh ?i) ?dt ?w0] =>
    set (w2 := log (DbRefresh i) dt w0) end.
  assert (trace w2 = trace w ++ [Time (now w); DbRefresh (Volume.id nv)])
    as Htr.
  { subst w2. cbn [trace log]. by rewrite <- !app_assoc. }
  destruct (fails env _ (DbRefresh _)); run; cbn [fst snd].
  { eexists. split; [exact Htr|]. apply prefix_nil. }
  match goal with |- context [wait_loop env fuel _ _ v ?nv2 w2] =>
    destruct (wait_loop_naps (now w) v fuel 0 nv2 w2) as (new & E & F) end.
  { lia. }
  { subst w2. cbn [now log sumsq]. lia. }
  exists ([Time (now w); DbRefresh (Volume.id nv)] ++ new).
  rewrite E, Htr, <- app_assoc. split; [done|].
  unfold sleeps. cbn [app].
  rewrite filter_cons, decide_False by awake.
  by rewrite filter_cons, decide_False by awake.
Qed.

Lemma naps_initialize_connection fuel volume conn :
  naps_only (naps 1 6) (initialize_connection env fuel volume conn).
Proof.
  unfold initialize_connection.
  apply naps_only_bind_r; [|intros ?; apply emits_ret].
  destruct (String.eqb _ _).
  { apply naps_only_awake. repeat emits_step. awake. }
  unfold initialize_connection_remote.
  apply naps_only_bind_l; [emits_step; awake|intros _].
  apply naps_only_bind_l; [emits_step|intros b].
  apply naps_only_bind_l;
    [apply emits_service_get_by_args; awake|intros svc].
  apply naps_only_bind_l; [apply emits_volume_create; intros; awake|].
  intros nv. unfold migrate_to.
  apply naps_only_bind_l; [emits_step; awake|intros _].
  apply naps_only_bind_l; [emits_step; awake|intros _].
  apply naps_only_bind_r; [apply naps_await_destination|].
  intros nv'. apply awake_adopt_destination.
Qed.

End Naps.

(** [same_for m1 m2]: the two runs agree and are never cut. *)
Definition same_for {A} (m1 m2 : M World A) : Prop :=
  ∀ w, m1 w = m2 w ∧ (m1 w).1 ≠ Nonterm.

Lemma same_for_total {A} (m : M World A) : total m → same_for m m.
Proof. intros H w. split; [done|apply H]. Qed.

Lemma same_for_bind {A B} (m1 m2 : M World A) (k1 k2 : A → M World B) :
  same_for m1 m2 → (∀ a, same_for (k1 a) (k2 a)) →
  same_for (m1 ≫= k1) (m2 ≫= k2).
Proof.
  intros Hm Hk w. rewrite !run_bind. destruct (Hm w) as [<- Hn].
  destruct (m1 w) as [[a|e|] w1]; [apply Hk|done..].
Qed.

Section Ends.

Variable env : Env.

Lemma total_service_get_by_args key : total (service_get_by_args env key).
Proof.
  intros w. unfold service_get_by_args. run. rewrite call_eq.
  by destruct (fails env w _).
Qed.

Lemma total_volume_create v : total (volume_create env v).
Proof.
  intros w. unfold volume_create. run. rewrite call_eq.
  destruct (fails env w _); [done|]. run. by destruct (_ !! _).
Qed.

Lemma total__switch_volumes v o : total (_switch_volumes env v o).
Proof.
  unfold _switch_volumes. destruct o as [o|]; [|apply total_raise].
  rewrite switch_identity_eq.
  apply total_bind; [by intros w|]. intros p.
  apply total_bind; [apply total_volume_save|]. intros _.
  apply total_bind; [apply total_volume_save|]. intros _. apply total_ret.
Qed.

Lemma total_adopt_destination v nv : total (adopt_destination env v nv).
Proof.
  unfold adopt_destination.
  apply total_bind; [apply total_volume_save|]. intros _.
  apply total_bind; [apply total__switch_volumes|]. intros p.
  apply total_ret.
Qed.

Lemma initialize_connection_fuel fuel volume conn :
  (7 ≤ fuel)%nat →
  same_for (initialize_connection env fuel volume conn)
    (initialize_connection env 7 volume conn).
Proof.
  intros Hf. unfold initialize_connection.
  apply same_for_bind; [|intros ?; apply same_for_total, total_ret].
  destruct (String.eqb _ _).
  { apply same_for_total, total_bind; [apply total_call|].
    intros ?. apply total_ret. }
  unfold initialize_connection_remote.
  apply same_for_bind; [apply same_for_total, total_call|intros _].
  apply same_for_bind.
  { apply same_for_total. intros w. unfold lift_res, backend_of.
    destruct (Volume.host volume); [|done]. unfold index.
    by destruct (_ !! _). }
  intros b.
  apply same_for_bind;
    [apply same_for_total, total_service_get_by_args|intros svc].
  apply same_for_bind;
    [apply same_for_total, total_volume_create|intros nv].
  unfold migrate_to.
  apply same_for_bind; [apply same_for_total, total_volume_save|intros _].
  apply same_for_bind; [apply same_for_total, total_call|intros _].
  apply same_for_bind.
  { intros w. by apply await_destination_fuel. }
  intros nv'. apply same_for_total, total_adopt_destination.
Qed.

End Ends.

(** X19. The wait of [initialize_connection] is bounded, whatever the
    collaborators do.  The call sleeps at most six times, for 1, 4, 9,
    16, 25 and 36 seconds in this order, and then returns or raises:
    seven rounds of the loop are always enough, and the outcome does
    not depend on how many more are allowed. *)
Theorem initialize_connection_wait_is_bounded (env : Env) (fuel : nat)
    (volume : Volume.t) (conn : Connector) (w : World) :
  (7 ≤ fuel)%nat →
  let out := initialize_connection env fuel volume conn w in
  out.1 ≠ Nonterm
  ∧ out = initialize_connection env 7 volume conn w
  ∧ ∃ new,
      trace out.2 = trace w ++ new
      ∧ sleeps new
        `prefix_of` [Sleep 1; Sleep 4; Sleep 9; Sleep 16; Sleep 25; Sleep 36].
Proof.
  intros Hf out.
  destruct (initialize_connection_fuel env fuel volume conn Hf w) as [E Hn].
  split; [exact Hn|]. split; [exact E|].
  apply (naps_initialize_connection env fuel volume conn w).
Qed.

Lemma initialize_connection_wait_is_bounded_witness :
  let out := initialize_connection WaitSample.env 9 WaitSample.a
               WaitSample.conn WaitSample.w in
  out.1 ≠ Nonterm
  ∧ sleeps (trace out.2)
    = [Sleep 1; Sleep 4; Sleep 9; Sleep 16; Sleep 25; Sleep 36].
Proof.
  intros out.
  destruct (initialize_connection_wait_is_bounded WaitSample.env 9
              WaitSample.a WaitSample.conn WaitSample.w) as (Hn & E & _).
  - lia.
  - split; [exact Hn|]. subst out. rewrite E. vm_compute. reflexivity.
Defined.

(** ** Device names *)

Lemma append_inj_r (s1 s2 t : string) : s1 +:+ t = s2 +:+ t → s1 = s2.
Proof.
  assert (∀ s u, String.length (s +:+ u)
                 = (String.length s + String.length u)%nat) as Hlen.
  { induction s as [|a s IH]; intros u; [done|].
    change (String a s +:+ u) with (String a (s +:+ u)).
    cbn [String.length]. by rewrite IH. }
  revert s2. induction s1 as [|a s1 IH]; intros [|b s2] H.
  - done.
  - apply (f_equal String.length) in H.
    change (String b s2 +:+ t) with (String b (s2 +:+ t)) in H.
    cbn [String.length] in H. rewrite !Hlen in H.
    cbn [String.length] in H. lia.
  - apply (f_equal String.length) in H.
    change (String a s1 +:+ t) with (String a (s1 +:+ t)) in H.
    cbn [String.length] in H. rewrite !Hlen in H.
    cbn [String.length] in H. lia.
  - change (String a s1 +:+ t) with (String a (s1 +:+ t)) in H.
    change (String b s2 +:+ t) with (String b (s2 +:+ t)) in H.
    injection H as -> H. by rewrite (IH s2 H).
Qed.

(** The last character of a string. *)
Fixpoint last_char (s : string) : option ascii :=
  match s with
  | EmptyString => None
  | String a EmptyString => Some a
  | String _ s' => last_char s'
  end.

Lemma last_char_app (s : string) (a : ascii) (t : string) :
  last_char (s +:+ String a t) = last_char (String a t).
Proof.
  induction s as [|b s IH]; [done|].
  change (String b s +:+ String a t) with (String b (s +:+ String a t)).
  cbn [last_char]. rewrite IH.
  destruct s; reflexivity.
Qed.

(** X20. The names derived from volumes do not collide: two volumes share a
    target name, or a metadata device name, only if they have the same
    name, and a target name is never a metadata device name. *)
Theorem device_names_do_not_collide (env : Env) (a b : Volume.t) :
  (_dm_target_name env a = _dm_target_name env b ↔ name env a = name env b)
  ∧ (_metadata_dev_name env a = _metadata_dev_name env b
     ↔ name env a = name env b)
  ∧ _dm_target_name env a ≠ _metadata_dev_name env b.
Proof.
  unfold _dm_target_name, _metadata_dev_name.
  split; [|split].
  - split; [apply append_inj_r|by intros ->].
  - split; [apply append_inj_r|by intros ->].
  - intros H. apply (f_equal last_char) in H.
    rewrite !last_char_app in H. discriminate H.
Qed.

(** ** What the driver reports *)

Section Stats.

(** The values of the statistics, among them strings. *)
Variable V : Type.
Variable of_str : string → V.

Definition VERSION : string := "0.0.1".

(** [self.configuration.safe_get('volume_backend_name') or 'DMClone']:
    the default is taken for a missing and for an empty name. *)
Definition backend_name (configured : option string) : string :=
  match configured with
  | Some s => if String.eqb s "" then "DMClone" else s
  | None => "DMClone"
  end.

(** [_update_volume_stats]: [base] is what the base driver has put in
    [self._stats]; [protocol] is [self.protocol]. *)
Definition _update_volume_stats (configured : option string)
    (protocol : string) (base : gmap string V) : gmap string V :=
  let data : gmap string V :=
    <["storage_protocol" := of_str protocol]>
      (<["driver_version" := of_str VERSION]>
         (<["vendor_name" := of_str "Open Source"]>
            (<["volume_backend_name" := of_str (backend_name configured)]>
               ∅))) in
  data ∪ base.

(** X21. The statistics carry the four entries of the driver, whatever the
    base driver has reported under these keys, and every other entry of
    the base driver unchanged; the backend name reported is never
    empty. *)
Theorem update_volume_stats_overrides (configured : option string)
    (protocol : string) (base : gmap string V) :
  let stats := _update_volume_stats configured protocol base in
  stats !! "volume_backend_name" = Some (of_str (backend_name configured))
  ∧ backend_name configured ≠ ""
  ∧ stats !! "vendor_name" = Some (of_str "Open Source")
  ∧ stats !! "driver_version" = Some (of_str "0.0.1")
  ∧ stats !! "storage_protocol" = Some (of_str protocol)
  ∧ ∀ k, k ∉ ["volume_backend_name"; "vendor_name"; "driver_version";
              "storage_protocol"] →
         stats !! k = base !! k.
Proof.
  cbv zeta. unfold _update_volume_stats.
  repeat split.
  - apply lookup_union_Some_l.
    by rewrite !lookup_insert_ne, lookup_insert_eq by done.
  - unfold backend_name. destruct configured as [s|]; [|done].
    by destruct (String.eqb_spec s "").
  - apply lookup_union_Some_l.
    by rewrite !lookup_insert_ne, lookup_insert_eq by done.
  - apply lookup_union_Some_l.
    by rewrite !lookup_insert_ne, lookup_insert_eq by done.
  - apply lookup_union_Some_l. by rewrite lookup_insert_eq.
  - intros k Hk. apply lookup_union_r.
    rewrite !lookup_insert_ne, lookup_empty; [done|..];
      intros <-; apply Hk; set_solver.
Qed.

End Stats.

(** ** Which records an operation writes *)

(** The same records exist. *)
Definition same_keys (w w' : World) : Prop :=
  ∀ k, is_Some (db w' !! k) ↔ is_Some (db w !! k).

Global Instance same_keys_po : PreOrder same_keys.
Proof.
  split.
  - by intros w k.
  - intros w1 w2 w3 H1 H2 k. etrans; [apply H2|apply H1].
Qed.

Lemma same_keys_log e dt w : same_keys w (log e dt w).
Proof. by intros k. Qed.

Lemma same_keys_volume_save env v : keeps same_keys (volume_save env v).
Proof.
  apply keeps_bind; [exact _|apply keeps_call, same_keys_log|].
  intros _ w k. unfold act.
  destruct (db w !! Volume.id v) as [old|] eqn:Hold; [|done].
  cbn [snd db log_ms write_db]. rewrite lookup_insert_is_Some.
  split.
  - intros [<-|[_ H]]; [by eexists|done].
  - intros H. destruct (decide (Volume.id v = k)); [by left|by right].
Qed.

(** Steps through a program that saves records, for [same_keys]. *)
Ltac keys_step :=
  lazymatch goal with
  | |- keeps _ (volume_save _ _) => apply same_keys_volume_save
  | |- _ => keeps_step same_keys_log
  end.

Section Keys.

Variable env : Env.

Lemma same_keys_terminate_connection v conn :
  keeps same_keys (terminate_connection env v conn).
Proof.
  unfold terminate_connection, roll_back, start_hydration, _switch_volumes,
    _find_src_volume, _disconnect_volume, _get_connector.
  repeat keys_step.
Qed.

Lemma same_keys_finalize v : keeps same_keys (finalize env v).
Proof.
  unfold finalize, _find_src_volume, _disconnect_volume, _get_connector.
  repeat keys_step.
Qed.

Lemma same_keys_monitor_loop l : keeps same_keys (monitor_loop env l).
Proof.
  unfold monitor_loop. induction l as [|v l IH]; cbn [for_each].
  - keys_step.
  - keys_step; [|exact IH]. unfold monitor_volume.
    repeat keys_step. apply same_keys_finalize.
Qed.

Lemma same_keys__migration_monitor : keeps same_keys (_migration_monitor env).
Proof.
  unfold _migration_monitor. repeat keys_step. apply same_keys_monitor_loop.
Qed.

Local Ltac frame_keys :=
  lazymatch goal with
  | |- keeps_in_frame _ (mret _) => apply frame_ret; exact _
  | |- keeps_in_frame _ (lift_res _) => apply frame_lift_res; exact _
  | |- keeps_in_frame _ (assign _) => apply frame_assign; exact _
  | |- keeps_in_frame _ (local _ _) => apply frame_local; exact _
  | |- keeps_in_frame _ (_ ≫= _) => apply frame_bind; [exact _| |intros ?]
  | |- keeps_in_frame _ (in_world _) => apply frame_in_world
  | |- keeps_in_frame _ (if ?b then _ else _) => destruct b
  | |- keeps_in_frame _ (let _ := _ in _) => cbv zeta
  | |- keeps _ _ => keys_step
  end.

Lemma same_keys_create_volume v : keeps same_keys (create_volume env v).
Proof.
  intros w. unfold create_volume.
  pose proof (call_world env (BaseCreateVolume v) w) as Hc.
  destruct (call env _ w) as [[[]|?|] w1]; cbn [snd] in *; subst w1;
    [|apply same_keys_log..].
  set (w1 := log _ _ w).
  assert (keeps_in_frame same_keys (create_volume_try env v)) as Htry.
  { unfold create_volume_try, _get_connector. repeat frame_keys. }
  assert (keeps_in_frame same_keys (create_volume_cleanup env v)) as Hclean.
  { unfold create_volume_cleanup. repeat frame_keys. }
  unfold try_except. specialize (Htry (no_locals, w1)).
  destruct (create_volume_try env v (no_locals, w1)) as [[[]|e|] s];
    cbn [fst snd] in *; [done| |done].
  unfold save_and_reraise_exception. specialize (Hclean s).
  destruct (create_volume_cleanup env v s) as [[[]|e'|] s'];
    cbn [fst snd] in *; by etrans.
Qed.

(** X22. No record is created and none is deleted by [create_volume],
    by [terminate_connection] or by a tick of the monitor, whatever the
    collaborators do: the records that exist afterwards are those that
    existed before.  (The records of the other side of a migration are
    only asked to be deleted, through the remote call.) *)
Theorem operations_keep_the_records (w : World) :
  (∀ v k, is_Some (db (create_volume env v w).2 !! k)
          ↔ is_Some (db w !! k))
  ∧ (∀ v conn k, is_Some (db (terminate_connection env v conn w).2 !! k)
                 ↔ is_Some (db w !! k))
  ∧ (∀ k, is_Some (db (_migration_monitor env w).2 !! k)
          ↔ is_Some (db w !! k)).
Proof.
  split; [|split].
  - intros v. apply same_keys_create_volume.
  - intros v conn. apply same_keys_terminate_connection.
  - apply same_keys__migration_monitor.
Qed.

End Keys.

(** ** What the creation hook writes *)

(** [total] for code with local variables. *)
Definition total_in_frame {A} (m : M (Frame * World) A) : Prop :=
  ∀ s, (m s).1 ≠ Nonterm.

Lemma total_in_frame_bind {A B} (m : M (Frame * World) A)
    (k : A → M (Frame * World) B) :
  total_in_frame m → (∀ a, total_in_frame (k a)) →
  total_in_frame (m ≫= k).
Proof.
  intros Hm Hk s. rewrite run_bind. specialize (Hm s).
  destruct (m s) as [[a|e|] s1]; [apply Hk|done..].
Qed.

Lemma total_in_world {A} (m : M World A) :
  total m → total_in_frame (in_world m).
Proof.
  intros Hm [f w]. unfold in_world. cbn [fst snd]. specialize (Hm w).
  by destruct (m w).
Qed.

Lemma total_local {A} var (get : Frame → option A) :
  total_in_frame (local var get).
Proof. intros s. unfold local. by destruct (get s.1). Qed.

Section HookWrites.

Variable env : Env.

Lemma cleanup_writes_only_error (volume : Volume.t) (e : exn)
    (s : Frame * World) (r : res unit) s' :
  save_and_reraise_exception e (create_volume_cleanup env volume) s
  = (r, s') →
  db s'.2 = db s.2
  ∨ (db s'.2 = <[Volume.id volume := failed_volume volume]> (db s.2)
     ∧ ∃ e', r = Raise e').
Proof.
  destruct s as [f w2].
  unfold save_and_reraise_exception, create_volume_cleanup. cbv zeta.
  fold (failed_volume volume). rewrite run_bind.
  unfold in_world at 1. cbn [fst snd].
  destruct (volume_save env (failed_volume volume) w2)
    as [[[]|e'|] w3] eqn:E.
  2: { intros [= _ <-]. left. cbn [fst snd].
       apply volume_save_raise_inv in E as (-> & _). done. }
  2: { apply (f_equal fst) in E. by apply volume_save_terminates in E. }
  apply volume_save_ok_inv in E as (old & _ & ->).
  match goal with |- context [(?m ≫= ?k) (f, ?w0)] =>
    assert (keeps_in_frame same_store (m ≫= k)) as Hrest;
    [|assert (total_in_frame (m ≫= k)) as Htot;
      [|specialize (Hrest (f, w0)); specialize (Htot (f, w0));
        destruct ((m ≫= k) (f, w0)) as [[[]|e''|] [f' w4]];
        cbn [fst snd] in *; destruct Hrest as (Hrest & _)]]
  end.
  - apply frame_bind; [exact _| |intros ?].
    { apply frame_in_world, keeps_call, same_store_log. }
    apply frame_bind; [exact _|apply frame_local; exact _|intros ?].
    apply frame_bind; [exact _|apply frame_local; exact _|intros ?].
    apply frame_bind; [exact _| |intros ?].
    { apply frame_in_world, keeps_call, same_store_log. }
    apply frame_bind; [exact _| |intros ?].
    { apply frame_in_world, keeps_call, same_store_log. }
    apply frame_in_world, keeps_call, same_store_log.
  - repeat first
      [ apply total_in_frame_bind; [|intros ?]
      | apply total_in_world, total_call
      | apply total_local ].
  - intros [= <- <-]. right. cbn [snd]. rewrite Hrest. split; [done|].
    by eexists.
  - intros [= <- <-]. right. cbn [snd]. rewrite Hrest. split; [done|].
    by eexists.
  - done.
Qed.

(** X23. Whatever the collaborators do, [create_volume] writes at most
    one record, that of the volume it was called for, and only to mark
    it failed: either no record has changed, or the call has raised and
    the record of the volume is the volume with ['error'] as [status]
    and [migration_status].  In particular the record of the source is
    never written. *)
Theorem create_volume_writes_only_error (volume : Volume.t) (w : World) :
  let out := create_volume env volume w in
  db out.2 = db w
  ∨ (db out.2 = <[Volume.id volume := failed_volume volume]> (db w)
     ∧ ∃ e, out.1 = Raise e).
Proof.
  cbv zeta. unfold create_volume.
  pose proof (call_world env (BaseCreateVolume volume) w) as Hc.
  destruct (call env _ w) as [[[]|?|] w1]; cbn [snd] in *; subst w1;
    [|by left..].
  set (w1 := log _ _ w). unfold try_except.
  pose proof (create_volume_try_store env volume (no_locals, w1)) as Hs.
  destruct (create_volume_try env volume (no_locals, w1))
    as [[[]|e|] [f w2]]; cbn [fst snd] in *; destruct Hs as (Hs & _);
    [by left| |by left].
  destruct (save_and_reraise_exception e (create_volume_cleanup env volume)
              (f, w2)) as [r s'] eqn:E.
  apply cleanup_writes_only_error in E. cbn [fst snd] in *.
  rewrite Hs in E. exact E.
Qed.

End HookWrites.

(** ** What a tick of the monitor writes *)

(** The values that a finalization gives to [migration_status]. *)
Definition finalization_state (x : string) : Prop :=
  x = "completing" ∨ x = "success".

(** The records [d'] are the records [d], but that volumes of [l] may
    have been stored with a [migration_status] of the finalization. *)
Definition touched (l : list Volume.t) (d d' : gmap string Volume.t) : Prop :=
  ∀ k, d' !! k = d !! k
       ∨ ∃ v x, v ∈ l ∧ Volume.id v = k ∧ finalization_state x
                ∧ d' !! k = Some (Volume.set_migration_status (Some x) v).

Lemma touched_insert l d d' v x :
  finalization_state x →
  touched l (<[Volume.id v := Volume.set_migration_status (Some x) v]> d) d' →
  touched (v :: l) d d'.
Proof.
  intros Hx H k. destruct (H k) as [Hk|(v' & x' & Hv' & Hid & Hx' & Hk)].
  - destruct (decide (Volume.id v = k)) as [<-|Hne].
    + right. exists v, x. rewrite Hk, lookup_insert_eq.
      repeat split; [apply list_elem_of_here|done].
    + left. by rewrite Hk, lookup_insert_ne.
  - right. exists v', x'. repeat split; [by apply list_elem_of_further|done..].
Qed.

Lemma touched_further l d d' v : touched l d d' → touched (v :: l) d d'.
Proof.
  intros H k. destruct (H k) as [Hk|(v' & x' & Hv' & Hid & Hx' & Hk)];
    [by left|].
  right. exists v', x'. repeat split; [by apply list_elem_of_further|done..].
Qed.

Section MonitorWrites.

Variable env : Env.

Lemma monitor_volume_db v w :
  ∃ r w',
    monitor_volume env v w = (r, w')
    ∧ (db w' = db w
       ∨ ∃ x, finalization_state x
              ∧ db w' = <[Volume.id v :=
                            Volume.set_migration_status (Some x) v]> (db w)).
Proof.
  unfold monitor_volume. rewrite run_bind.
  pose proof (keeps_dmsetup_status env same_store same_store_log
                (_dm_target_name env v) w) as (Hd & _).
  destruct (dmsetup_status env _ w) as [[dm_status|e|] w1];
    cbn [fst snd] in *; [|by eauto..].
  rewrite run_bind. unfold lift_res at 1.
  destruct (index dm_status 2) as [ty|e|]; [|by eauto..].
  destruct (negb _); [by eexists _, _; eauto|].
  rewrite run_bind. unfold lift_res at 1.
  destruct (hydration_completed dm_status) as [[|]|e|];
    [|by eexists _, _; eauto..].
  pose proof (finalize_db env v w1) as H. cbv zeta in H. rewrite Hd in H.
  destruct (finalize env v w1) as [[[]|e|] w2]; cbn [fst snd] in *.
  - eexists _, _. split; [done|]. right. exists "success".
    split; [by right|done].
  - eexists _, _. split; [done|]. destruct H as [H|H]; [by left|].
    right. exists "completing". split; [by left|done].
  - done.
Qed.

Lemma monitor_loop_touched l :
  ∀ w, touched l (db w) (db (monitor_loop env l w).2).
Proof.
  unfold monitor_loop. induction l as [|v l IH]; intros w; cbn [for_each].
  { by left. }
  rewrite run_bind. destruct (monitor_volume_db v w) as (r & w1 & -> & Hv).
  destruct r as [[]|e|]; cbn [fst snd] in *.
  - specialize (IH w1). destruct Hv as [Hv|(x & Hx & Hv)]; rewrite Hv in IH.
    + by apply touched_further.
    + by eapply touched_insert.
  - destruct Hv as [->|(x & Hx & ->)].
    + by left.
    + eapply touched_insert; [done|]. by left.
  - destruct Hv as [->|(x & Hx & ->)].
    + by left.
    + eapply touched_insert; [done|]. by left.
Qed.

Lemma _migration_monitor_touched w :
  touched
    (filter (λ v, is_target (Volume.migration_status v) = true)
       (map_to_list (db w)).*2)
    (db w) (db (_migration_monitor env w).2).
Proof.
  unfold _migration_monitor.
  destruct (volume_backend_name env) as [backend|]; [|by left].
  cbv zeta. rewrite run_bind. unfold get_all_by_host at 1. rewrite run_bind.
  rewrite call_eq. destruct (fails env w _); [by left|].
  unfold act. cbn [db log].
  match goal with |- context [monitor_loop env ?l ?w0] =>
    pose proof (monitor_loop_touched l w0) as H;
    destruct (monitor_loop env l w0) as [r w']
  end.
  cbn [fst snd db log] in *.
  intros k. destruct (H k) as [Hk|(v & x & Hv & Hid & Hx & Hk)]; [by left|].
  right. exists v, x. split; [|done].
  apply list_elem_of_filter in Hv as [Ht Hv].
  apply list_elem_of_filter in Hv as [_ Hv].
  by apply list_elem_of_filter.
Qed.

(** X24. A tick of the monitor changes nothing but the
    [migration_status] of migrating volumes.  Whatever the collaborators
    do, every record after the tick is the record from before, except
    that a record whose [migration_status] started with ['target:'] may
    now carry ['completing'] or ['success'] instead; no other field of
    any record is changed. *)
Theorem monitor_changes_only_migration_status (w : World) (k : string) :
  well_keyed (db w) →
  db (_migration_monitor env w).2 !! k = db w !! k
  ∨ ∃ v x,
      db w !! k = Some v
      ∧ is_target (Volume.migration_status v) = true
      ∧ (x = "completing" ∨ x = "success")
      ∧ db (_migration_monitor env w).2 !! k
        = Some (Volume.set_migration_status (Some x) v).
Proof.
  intros Hwk.
  destruct (_migration_monitor_touched w k)
    as [Hk|(v & x & Hv & Hid & Hx & Hk)]; [by left|].
  right. exists v, x.
  apply list_elem_of_filter in Hv as [Ht Hv].
  apply list_elem_of_fmap in Hv as ([k' v'] & -> & Hkv).
  apply elem_of_map_to_list in Hkv. cbn [snd] in *.
  rewrite (Hwk _ _ Hkv) in Hid. subst k'.
  by repeat split.
Qed.

End MonitorWrites.

Module HydratedSample.

(** The clone of every candidate is fully hydrated. *)
Definition env : Env := Sample.env_status second_spec_line.

End HydratedSample.

Lemma monitor_changes_only_migration_status_witness :
  db (_migration_monitor HydratedSample.env DetachSample.w).2 !! "a"
  = Some (Volume.set_migration_status (Some "success") DetachSample.a)
  ∧ (db (_migration_monitor HydratedSample.env DetachSample.w).2 !! "b"
     = db DetachSample.w !! "b"
     ∨ ∃ v x,
         db DetachSample.w !! "b" = Some v
         ∧ is_target (Volume.migration_status v) = true
         ∧ (x = "completing" ∨ x = "success")
         ∧ db (_migration_monitor HydratedSample.env DetachSample.w).2 !! "b"
           = Some (Volume.set_migration_status (Some x) v)).
Proof.
  split; [vm_compute; reflexivity|].
  apply (monitor_changes_only_migration_status HydratedSample.env
           DetachSample.w "b").
  exact detach_sample_well_keyed.
Defined.

(** ** What an attach writes *)

Section Beside.

Variable env : Env.

(** The ids of the volume that is attached and of the new record. *)
Variables a i : string.
Hypothesis a_ne_i : a ≠ i.

(** The records other than [a] and [i] are the same, and [a] has not
    been deleted. *)
Definition beside (w w' : World) : Prop :=
  (∀ k, k ≠ a → k ≠ i → db w' !! k = db w !! k)
  ∧ (is_Some (db w !! a) → is_Some (db w' !! a)).

Global Instance beside_po : PreOrder beside.
Proof.
  split.
  - by intros w.
  - intros w1 w2 w3 [H1 H1'] [H2 H2']. split.
    + intros k Ha Hi. by rewrite H2, H1.
    + auto.
Qed.

Lemma beside_log e dt w : beside w (log e dt w).
Proof. by split. Qed.

Lemma beside_same_store w w' : same_store w w' → beside w w'.
Proof. intros (Hd & _). unfold beside. by rewrite Hd. Qed.

Lemma beside_volume_save v :
  Volume.id v = a ∨ Volume.id v = i → keeps beside (volume_save env v).
Proof.
  intros Hv. apply keeps_bind; [exact _|apply keeps_call, beside_log|].
  intros _ w. unfold act.
  destruct (db w !! Volume.id v) as [old|]; [|done].
  cbn [snd]. split; cbn [db log_ms write_db].
  - intros k Ha Hi. rewrite lookup_insert_ne; [done|].
    destruct Hv; congruence.
  - intros H. apply lookup_insert_is_Some'. by right.
Qed.

Lemma beside_volume_destroy v :
  Volume.id v = i → keeps beside (volume_destroy env v).
Proof.
  intros Hv. apply keeps_bind; [exact _|apply keeps_call, beside_log|].
  intros _ w. unfold act. cbn [snd]. split; cbn [db write_db].
  - intros k Ha Hi. rewrite lookup_delete_ne; [done|congruence].
  - intros H. rewrite lookup_delete_ne; [done|congruence].
Qed.

Lemma beside_abandon_destination {A} v nv :
  Volume.id v = a → Volume.id nv = i →
  keeps beside (abandon_destination env v nv : M World A).
Proof.
  intros Hv Hnv. unfold abandon_destination.
  apply keeps_bind; [exact _| |intros _].
  { apply keeps_try_except_only; [exact _| |apply keeps_ret; exact _].
    apply keeps_call, beside_log. }
  apply keeps_bind; [exact _|by apply beside_volume_destroy|intros _].
  cbv zeta. apply keeps_bind; [exact _| |intros _].
  { apply beside_volume_save. by left. }
  destruct (String.eqb _ _); apply keeps_raise; exact _.
Qed.

Lemma beside_wait_loop fuel deadline v :
  Volume.id v = a →
  ∀ tries nv, Volume.id nv = i →
              keeps beside (wait_loop env fuel deadline tries v nv).
Proof.
  intros Hv. induction fuel as [|fuel IH]; intros tries nv Hnv;
    cbn [wait_loop].
  - destruct (String.eqb _ _); [apply keeps_ret; exact _|by intros w].
  - destruct (String.eqb _ _); [apply keeps_ret; exact _|].
    apply keeps_bind; [exact _|apply keeps_time_time, beside_log|intros t].
    destruct (_ || _); [by apply beside_abandon_destination|].
    apply keeps_bind; [exact _|apply keeps_time_sleep, beside_log|intros _].
    intros w. rewrite run_bind.
    destruct (volume_refresh env nv w) as [[nv'|e|] w1] eqn:E.
    + apply volume_refresh_ok_inv in E as [-> ->].
      etrans; [apply beside_log|]. by apply IH.
    + pose proof (keeps_volume_refresh env beside beside_log nv w) as H.
      by rewrite E in H.
    + pose proof (keeps_volume_refresh env beside beside_log nv w) as H.
      by rewrite E in H.
Qed.

Lemma beside__switch_volumes v o :
  Volume.id v = a → Volume.id o = i →
  keeps beside (_switch_volumes env v (Some o)).
Proof.
  intros Hv Ho. unfold _switch_volumes. rewrite switch_identity_eq.
  assert (keeps beside
            (volume_save env (swapped v o) ≫= λ _,
             volume_save env (swapped o v) ≫= λ _,
             mret (swapped v o, swapped o v))) as H.
  { apply keeps_bind; [exact _| |intros _].
    { apply beside_volume_save. by left. }
    apply keeps_bind; [exact _| |intros _; apply keeps_ret; exact _].
    apply beside_volume_save. by right. }
  intros w. exact (H w).
Qed.

Lemma beside_adopt_destination v nv :
  Volume.id v = a → Volume.id nv = i →
  keeps beside (adopt_destination env v nv).
Proof.
  intros Hv Hnv. unfold adopt_destination. cbv zeta.
  apply keeps_bind; [exact _| |intros _].
  { apply beside_volume_save. by right. }
  apply keeps_bind; [exact _| |intros p; apply keeps_ret; exact _].
  by apply beside__switch_volumes.
Qed.

Lemma beside_migrate_to fuel v nv :
  Volume.id v = a → Volume.id nv = i →
  keeps beside (migrate_to env fuel v nv).
Proof.
  intros Hv Hnv. unfold migrate_to. cbv zeta.
  apply keeps_bind; [exact _| |intros _].
  { apply beside_volume_save. by left. }
  apply keeps_bind; [exact _|apply keeps_call, beside_log|intros _].
  intros w. rewrite run_bind.
  assert (keeps beside (await_destination env fuel
            (Volume.set_migration_status
               (Some ("target:" +:+ Volume.id nv)) v) nv)) as Hw.
  { unfold await_destination.
    apply keeps_bind; [exact _|apply keeps_time_time, beside_log|intros t].
    cbv zeta. intros w0. rewrite run_bind.
    destruct (volume_refresh env nv w0) as [[nv'|e|] w1] eqn:E.
    + apply volume_refresh_ok_inv in E as [-> ->].
      etrans; [apply beside_log|]. by apply beside_wait_loop.
    + pose proof (keeps_volume_refresh env beside beside_log nv w0) as H.
      by rewrite E in H.
    + pose proof (keeps_volume_refresh env beside beside_log nv w0) as H.
      by rewrite E in H. }
  specialize (Hw w).
  destruct (await_destination env fuel _ nv w) as [[nv'|e|] w1] eqn:E;
    cbn [snd] in *; [|done..].
  apply await_destination_ok_inv in E as (_ & Hid & _).
  etrans; [exact Hw|].
  apply beside_adopt_destination; [exact Hv|congruence].
Qed.

End Beside.

Section AttachWrites.

Variable env : Env.

Lemma volume_create_inv v w r w' :
  volume_create env v w = (r, w') →
  (db w' = db w ∧ ∀ nv, r ≠ Ok nv)
  ∨ ∃ nv, r = Ok nv ∧ Volume.id nv = fresh_id env (db w)
          ∧ db w' = <[fresh_id env (db w) := nv]> (db w).
Proof.
  unfold volume_create. run. rewrite call_eq.
  destruct (fails env w _); [by intros [= <- <-]; left|]. run.
  cbn [db log]. destruct (db w !! fresh_id env (db w)).
  - intros [= <- <-]. by left.
  - intros [= <- <-]. right. by eexists.
Qed.

Lemma initialize_connection_beside fuel volume conn w :
  is_Some (db w !! Volume.id volume) →
  db w !! fresh_id env (db w) = None →
  beside (Volume.id volume) (fresh_id env (db w)) w
    (initialize_connection env fuel volume conn w).2.
Proof.
  intros Hdb Hfresh.
  assert (Volume.id volume ≠ fresh_id env (db w)) as Hne.
  { intros E. rewrite <- E in Hfresh. destruct Hdb as [? Hdb]. congruence. }
  set (R := beside (Volume.id volume) (fresh_id env (db w))).
  assert (PreOrder R) as HR by apply beside_po.
  assert (∀ w1 w2, same_store w1 w2 → R w1 w2) as Hss
    by apply beside_same_store.
  unfold initialize_connection. rewrite run_bind.
  match goal with |- context [match ?m w with _ => _ end] =>
    assert (R w (m w).2) as H;
    [|by destruct (m w) as [[?|?|] ?]] end.
  destruct (String.eqb _ _).
  { rewrite run_bind, call_eq. destruct (fails env w _); apply beside_log. }
  unfold initialize_connection_remote. rewrite run_bind, call_eq.
  destruct (fails env w _); [apply beside_log|].
  set (w1 := log _ _ w). rewrite run_bind. unfold lift_res at 1.
  destruct (backend_of _) as [b|e|]; [|apply beside_log..].
  rewrite run_bind. unfold service_get_by_args at 1.
  rewrite run_bind, call_eq.
  destruct (fails env w1 _); [apply Hss; by subst w1|].
  unfold mret, M_ret. set (w2 := log _ _ w1). rewrite run_bind.
  match goal with |- context [volume_create env ?o w2] =>
    destruct (volume_create env o w2) as [r w3] eqn:E end.
  apply volume_create_inv in E.
  change (db w2) with (db w) in E.
  destruct E as [[E Hr]|(nv & -> & Hid & E)].
  { assert (R w w3) as H3 by (split; by rewrite E).
    destruct r as [nv| |]; [by destruct (Hr nv)|done..]. }
  assert (R w w3) as H3.
  { split; rewrite E.
    - intros k Ha Hi. by rewrite lookup_insert_ne.
    - intros H. apply lookup_insert_is_Some'. by right. }
  etrans; [exact H3|]. by apply beside_migrate_to.
Qed.

(** X25. An attach touches two records only.  Whatever the
    collaborators do, and however [initialize_connection] ends, the
    record of the volume still exists afterwards, and every record
    other than that of the volume and the new one is exactly as it was
    before. *)
Theorem initialize_connection_touches_two_records (fuel : nat)
    (volume : Volume.t) (conn : Connector) (w : World) (k : string) :
  is_Some (db w !! Volume.id volume) →
  db w !! fresh_id env (db w) = None →
  k ≠ Volume.id volume → k ≠ fresh_id env (db w) →
  is_Some (db (initialize_connection env fuel volume conn w).2
           !! Volume.id volume)
  ∧ db (initialize_connection env fuel volume conn w).2 !! k = db w !! k.
Proof.
  intros Hdb Hfresh Hk Hk'.
  destruct (initialize_connection_beside fuel volume conn w Hdb Hfresh)
    as [H1 H2].
  split; [by apply H2|by apply H1].
Qed.

End AttachWrites.

Lemma initialize_connection_touches_two_records_witness :
  is_Some (db (initialize_connection WaitSample.env 7 WaitSample.a
                 WaitSample.conn WaitSample.w).2 !! "a")
  ∧ db (initialize_connection WaitSample.env 7 WaitSample.a
          WaitSample.conn WaitSample.w).2 !! "b" = None.
Proof.
  apply (initialize_connection_touches_two_records WaitSample.env 7
           WaitSample.a WaitSample.conn WaitSample.w "b").
  - by eexists.
  - reflexivity.
  - discriminate.
  - discriminate.
Defined.
